(** * expo-squircle: the squircle geometry engine

    A shallow embedding of the geometry code of [ExpoSquircle.tsx]
    (corner-budget solver, corner-profile calculator, path assembler,
    stroke inset and the two caches), and the properties of the
    specification proved or refuted on it.

    ** Numbers

    A JavaScript [number] is modelled as an ideal IEEE value: a real
    number, [+Infinity], [-Infinity] or [NaN].  Finite arithmetic is exact
    (rounding to 53 bits is abstracted away, which is what the
    specification's "within floating tolerance" asks for) and the two
    zeros are identified with the real [0], which is read as [+0].  The
    non-finite cases follow IEEE 754 as ECMAScript prescribes them:
    [x / 0] is an infinity for [x <> 0] and [NaN] for [x = 0],
    [Infinity - Infinity] and [0 * Infinity] are [NaN], every comparison
    with [NaN] is false, [Math.min] and [Math.max] return [NaN] as soon
    as one argument is [NaN]. *)

From Stdlib Require Import Reals Lra Lia ZArith List String Ascii Bool.
From Stdlib Require Import Sorting.Sorted Sorting.Permutation.
From Stdlib Require Import DecimalString.
From Stdlib Require QArith Qminmax.
Import ListNotations.

Set Implicit Arguments.

Declare Scope js_scope.
Delimit Scope js_scope with js.

Module Number.

Inductive number : Type :=
| Fin (x : R)
| PosInf
| NegInf
| NaN.

Definition Rltb (x y : R) : bool := if Rlt_dec x y then true else false.
Definition Rleb (x y : R) : bool := if Rle_dec x y then true else false.
Definition Reqb (x y : R) : bool := if Req_dec_T x y then true else false.

Definition zero : number := Fin 0.
Definition one : number := Fin 1.

(** Unary minus. *)
Definition neg (x : number) : number :=
  match x with
  | Fin a => Fin (- a)
  | PosInf => NegInf
  | NegInf => PosInf
  | NaN => NaN
  end.

(** [x + y]. *)
Definition add (x y : number) : number :=
  match x, y with
  | NaN, _ | _, NaN => NaN
  | Fin a, Fin b => Fin (a + b)
  | PosInf, NegInf | NegInf, PosInf => NaN
  | PosInf, _ | _, PosInf => PosInf
  | NegInf, _ | _, NegInf => NegInf
  end.

(** [x - y]. *)
Definition sub (x y : number) : number := add x (neg y).

(** The infinity of the sign of [a] times the sign of the infinity, [NaN]
    for [a = 0]. *)
Definition signedInf (a : R) (positive : bool) : number :=
  if Rltb 0 a then (if positive then PosInf else NegInf)
  else if Rltb a 0 then (if positive then NegInf else PosInf)
  else NaN.

(** [x * y]. *)
Definition mul (x y : number) : number :=
  match x, y with
  | NaN, _ | _, NaN => NaN
  | Fin a, Fin b => Fin (a * b)
  | Fin a, PosInf | PosInf, Fin a => signedInf a true
  | Fin a, NegInf | NegInf, Fin a => signedInf a false
  | PosInf, PosInf | NegInf, NegInf => PosInf
  | PosInf, NegInf | NegInf, PosInf => NegInf
  end.

(** [x / y]; a zero divisor is [+0]. *)
Definition div (x y : number) : number :=
  match x, y with
  | NaN, _ | _, NaN => NaN
  | Fin a, Fin b => if Reqb b 0 then signedInf a true else Fin (a / b)
  | Fin _, (PosInf | NegInf) => Fin 0
  | PosInf, Fin b => if Rltb b 0 then NegInf else PosInf
  | NegInf, Fin b => if Rltb b 0 then PosInf else NegInf
  | (PosInf | NegInf), (PosInf | NegInf) => NaN
  end.

(** [x < y]. *)
Definition lt (x y : number) : bool :=
  match x, y with
  | NaN, _ | _, NaN => false
  | Fin a, Fin b => Rltb a b
  | NegInf, (Fin _ | PosInf) => true
  | Fin _, PosInf => true
  | _, _ => false
  end.

(** [x <= y]. *)
Definition le (x y : number) : bool :=
  match x, y with
  | NaN, _ | _, NaN => false
  | Fin a, Fin b => Rleb a b
  | NegInf, _ => true
  | _, PosInf => true
  | _, _ => false
  end.

(** [x > y] and [x >= y]. *)
Definition gt (x y : number) : bool := lt y x.
Definition ge (x y : number) : bool := le y x.

(** [x === y] on numbers. *)
Definition strictEq (x y : number) : bool :=
  match x, y with
  | Fin a, Fin b => Reqb a b
  | PosInf, PosInf | NegInf, NegInf => true
  | _, _ => false
  end.

(** [ToBoolean]: [0] and [NaN] are falsy. *)
Definition truthy (x : number) : bool :=
  match x with
  | Fin a => negb (Reqb a 0)
  | NaN => false
  | _ => true
  end.

(** [Math.min(x, y)] and [Math.max(x, y)]. *)
Definition Math_min2 (x y : number) : number :=
  match x, y with
  | NaN, _ | _, NaN => NaN
  | _, _ => if lt y x then y else x
  end.

Definition Math_max2 (x y : number) : number :=
  match x, y with
  | NaN, _ | _, NaN => NaN
  | _, _ => if lt x y then y else x
  end.

(** [Math.min(...xs)]: [Infinity] when [xs] is empty. *)
Definition Math_min (xs : list number) : number :=
  fold_left Math_min2 xs PosInf.

Definition Math_PI : number := Fin PI.
Definition Math_SQRT2 : number := Fin (sqrt 2).

(** [Math.sin], [Math.cos], [Math.tan]: [NaN] at the infinities. *)
Definition Math_sin (x : number) : number :=
  match x with Fin a => Fin (sin a) | _ => NaN end.
Definition Math_cos (x : number) : number :=
  match x with Fin a => Fin (cos a) | _ => NaN end.
Definition Math_tan (x : number) : number :=
  match x with Fin a => Fin (tan a) | _ => NaN end.

(** Decimal digits of a natural number, at least [width] of them. *)
Definition padLeft (width : nat) (s : string) : string :=
  let fix zeros (n : nat) : string :=
    match n with O => EmptyString | S k => String "0" (zeros k) end in
  append (zeros (width - String.length s)) s.

Definition digitsOf (n : Z) : string :=
  NilZero.string_of_uint (N.to_uint (Z.to_N n)).

(** [x.toFixed(digits)]: the integer [n] nearest to [|x| * 10^digits]
    (the larger one on a tie), written with [digits] decimals, after a
    minus sign when [x < 0].  (Beyond [1e21] JavaScript switches to the
    exponent notation, which is out of the model's reach.) *)
Definition toFixed (digits : nat) (x : number) : string :=
  match x with
  | NaN => "NaN"
  | PosInf => "Infinity"
  | NegInf => "-Infinity"
  | Fin a =>
      let n := Zfloor (Rabs a * 10 ^ digits + / 2) in
      let s := padLeft (S digits) (digitsOf n) in
      let k := (String.length s - digits)%nat in
      append (if Rltb a 0 then "-" else "")
        (append (substring 0 k s)
           (match digits with
            | O => EmptyString
            | _ => append "." (substring k digits s)
            end))
  end%string.

End Number.

Import Number.

Notation "x + y" := (add x y) : js_scope.
Notation "x - y" := (sub x y) : js_scope.
Notation "x * y" := (mul x y) : js_scope.
Notation "x / y" := (div x y) : js_scope.
Notation "- x" := (neg x) : js_scope.
Notation "x <? y" := (lt x y) (at level 70) : js_scope.
Notation "x <=? y" := (le x y) (at level 70) : js_scope.
Notation "x >? y" := (gt x y) (at level 70) : js_scope.
Notation "x >=? y" := (ge x y) (at level 70) : js_scope.
Notation "x === y" := (strictEq x y) (at level 70) : js_scope.

(** ** JavaScript [Map]: insertion-ordered, keyed by strings *)

Module JSMap.
Section WithValues.
Variable V : Type.

(** The entries, oldest insertion first. *)
Definition t : Type := list (string * V).

Definition empty : t := [].

Definition size (m : t) : nat := List.length m.

Fixpoint get (key : string) (m : t) : option V :=
  match m with
  | [] => None
  | (k, v) :: rest => if String.eqb k key then Some v else get key rest
  end.

Definition has (key : string) (m : t) : bool :=
  match get key m with Some _ => true | None => false end.

(** [m.set(key, value)]: an existing key keeps its place, a new one goes
    last. *)
Fixpoint set (key : string) (value : V) (m : t) : t :=
  match m with
  | [] => [(key, value)]
  | (k, v) :: rest =>
      if String.eqb k key then (k, value) :: rest
      else (k, v) :: set key value rest
  end.

Fixpoint delete (key : string) (m : t) : t :=
  match m with
  | [] => []
  | (k, v) :: rest =>
      if String.eqb k key then rest else (k, v) :: delete key rest
  end.

Definition keys (m : t) : list string := map fst m.

(** [m.keys().next()]: [None] stands for [done]. *)
Definition firstKey (m : t) : option string :=
  match keys m with
  | [] => None
  | k :: _ => Some k
  end.
End WithValues.
End JSMap.

(** ** Strings built by templates

    A template string is kept as the list of its pieces: the literal text,
    a number interpolated as it is ([${x}], printed by [Number::toString])
    and a number printed by [x.toFixed(digits)].  Concatenation of strings
    is concatenation of lists. *)

Inductive piece : Type :=
| Lit (s : string)
| Plain (x : number)
| Fixed (digits : nat) (x : number).

Definition text : Type := list piece.

Definition nl : string := String (ascii_of_nat 10) EmptyString.

(** The empty string is the only falsy string; a printed number is never
    empty. *)
Definition nonEmptyPiece (q : piece) : bool :=
  match q with
  | Lit s => negb (String.eqb s EmptyString)
  | _ => true
  end.

Definition truthyText (s : text) : bool := existsb nonEmptyPiece s.

(** [segments.join(sep)]. *)
Fixpoint join (sep : string) (segments : list text) : text :=
  match segments with
  | [] => []
  | [s] => s
  | s :: rest => s ++ Lit sep :: join sep rest
  end.

(** [Array.prototype.sort(comparefn)]: the sort is stable, and an element
    [x] goes after [y] exactly when [comparefn(x, y) > 0]; modelled by the
    stable insertion sort. *)
Section ArraySort.
Variable A : Type.
Variable comparefn : A -> A -> number.

Fixpoint sortInsert (x : A) (sorted : list A) : list A :=
  match sorted with
  | [] => [x]
  | y :: rest =>
      if (comparefn x y >? zero)%js then y :: sortInsert x rest
      else x :: y :: rest
  end.

Definition Array_sort (l : list A) : list A :=
  fold_right sortInsert [] l.
End ArraySort.

(** ** Data model *)

Inductive CornerId : Type := topLeft | topRight | bottomLeft | bottomRight.

Inductive EdgeOrientation : Type := top | bottom | left | right.

Definition CornerId_eqb (x y : CornerId) : bool :=
  match x, y with
  | topLeft, topLeft | topRight, topRight
  | bottomLeft, bottomLeft | bottomRight, bottomRight => true
  | _, _ => false
  end.

(** [Record<CornerId, A>]. *)
Module PerCorner.
Record t (A : Type) : Type := mk {
  atTopLeft : A;
  atTopRight : A;
  atBottomLeft : A;
  atBottomRight : A
}.

Definition get {A} (m : t A) (c : CornerId) : A :=
  match c with
  | topLeft => atTopLeft m
  | topRight => atTopRight m
  | bottomLeft => atBottomLeft m
  | bottomRight => atBottomRight m
  end.

Definition set {A} (m : t A) (c : CornerId) (v : A) : t A :=
  match c with
  | topLeft => mk v (atTopRight m) (atBottomLeft m) (atBottomRight m)
  | topRight => mk (atTopLeft m) v (atBottomLeft m) (atBottomRight m)
  | bottomLeft => mk (atTopLeft m) (atTopRight m) v (atBottomRight m)
  | bottomRight => mk (atTopLeft m) (atTopRight m) (atBottomLeft m) v
  end.

(** [Object.entries(m)]: the keys in the order the literal lists them. *)
Definition entries {A} (m : t A) : list (CornerId * A) :=
  [ (topLeft, atTopLeft m); (topRight, atTopRight m);
    (bottomLeft, atBottomLeft m); (bottomRight, atBottomRight m) ].
End PerCorner.

Module CornerProfile.
Record t : Type := mk {
  radius : number;
  roundingAndSmoothingBudget : number
}.
End CornerProfile.

Definition CornerProfiles : Type := PerCorner.t CornerProfile.t.

Module BezierPatch.
Record t : Type := mk {
  a : number;
  b : number;
  c : number;
  d : number;
  p : number;
  cornerRadius : number;
  arcSectionLength : number
}.
End BezierPatch.

Module SquirclePathInput.
Record t : Type := mk {
  cornerRadius : option number;
  topLeftCornerRadius : option number;
  topRightCornerRadius : option number;
  bottomRightCornerRadius : option number;
  bottomLeftCornerRadius : option number;
  cornerSmoothing : number;
  width : number;
  height : number;
  preserveSmoothing : option bool
}.
End SquirclePathInput.

Module CornerSpreadInput.
Record t : Type := mk {
  topLeftCornerRadius : number;
  topRightCornerRadius : number;
  bottomRightCornerRadius : number;
  bottomLeftCornerRadius : number;
  width : number;
  height : number
}.
End CornerSpreadInput.

Module BezierPatchInput.
Record t : Type := mk {
  cornerRadius : number;
  cornerSmoothing : number;
  preserveSmoothing : bool;
  roundingAndSmoothingBudget : number
}.
End BezierPatchInput.

Module PathParamsInput.
Record t : Type := mk {
  width : number;
  height : number;
  topLeftPathParams : BezierPatch.t;
  topRightPathParams : BezierPatch.t;
  bottomLeftPathParams : BezierPatch.t;
  bottomRightPathParams : BezierPatch.t
}.
End PathParamsInput.

Module CacheKeyData.
Record t : Type := mk {
  width : number;
  height : number;
  cornerSmoothing : number;
  preserveSmoothing : bool;
  cornerRadius : number;
  topLeftCornerRadius : number;
  topRightCornerRadius : number;
  bottomRightCornerRadius : number;
  bottomLeftCornerRadius : number
}.
End CacheKeyData.

(** The two module-level caches. *)
Record Caches : Type := mkCaches {
  PATH_CACHE_MAP : JSMap.t text;
  CORNER_PROFILE_CACHE : JSMap.t BezierPatch.t
}.

Definition noCaches : Caches := mkCaches (JSMap.empty _) (JSMap.empty _).

(** Code that reads and writes the caches: a state monad over [Caches]. *)
Definition Cached (A : Type) : Type := Caches -> A * Caches.

Definition ret {A} (x : A) : Cached A := fun s => (x, s).

Definition bind {A B} (m : Cached A) (k : A -> Cached B) : Cached B :=
  fun s => let (x, s') := m s in k x s'.

Notation "x <- m ;; k" := (bind m (fun x => k))
  (at level 61, m at next level, right associativity).

Definition readCaches : Cached Caches := fun s => (s, s).

Definition writePathCache (m : JSMap.t text) : Cached unit :=
  fun s => (tt, mkCaches m (CORNER_PROFILE_CACHE s)).

Definition writeProfileCache (m : JSMap.t BezierPatch.t) : Cached unit :=
  fun s => (tt, mkCaches (PATH_CACHE_MAP s) m).


(** ** The path cache *)

Definition PATH_CACHE_LIMIT : nat := 160.

Definition composeCacheKey (data : CacheKeyData.t) : string :=
  String.concat "|"
    [ toFixed 2 (CacheKeyData.width data);
      toFixed 2 (CacheKeyData.height data);
      toFixed 4 (CacheKeyData.cornerSmoothing data);
      (if CacheKeyData.preserveSmoothing data then "1" else "0")%string;
      toFixed 2 (CacheKeyData.cornerRadius data);
      toFixed 2 (CacheKeyData.topLeftCornerRadius data);
      toFixed 2 (CacheKeyData.topRightCornerRadius data);
      toFixed 2 (CacheKeyData.bottomRightCornerRadius data);
      toFixed 2 (CacheKeyData.bottomLeftCornerRadius data) ].

Definition readCachedPath (key : string) (cache : JSMap.t text)
  : option text :=
  JSMap.get key cache.

Definition storeCachedPath (key : string) (value : text)
  (cache : JSMap.t text) : JSMap.t text :=
  let cache :=
    if (PATH_CACHE_LIMIT <=? JSMap.size cache)%nat
       && negb (JSMap.has key cache)
    then
      match JSMap.firstKey cache with
      | Some oldest => JSMap.delete oldest cache
      | None => cache
      end
    else cache in
  JSMap.set key value cache.

(** ** The corner-budget solver *)

Definition ADJACENT_RELATIONS (corner : CornerId)
  : list (CornerId * EdgeOrientation) :=
  match corner with
  | topLeft => [ (topRight, top); (bottomLeft, left) ]
  | topRight => [ (topLeft, top); (bottomRight, right) ]
  | bottomLeft => [ (bottomRight, bottom); (topLeft, left) ]
  | bottomRight => [ (bottomLeft, bottom); (topRight, right) ]
  end.

(** The state of the pass: [radiusMap] and [budgetMap], both updated in
    place by the loop. *)
Record SolverState : Type := mkSolver {
  radiusMap : PerCorner.t number;
  budgetMap : PerCorner.t number
}.

(** The callback of [adjacents.map]: what one neighbour leaves to the
    corner of radius [radius]. *)
Definition adjacentShare (width height : number) (st : SolverState)
  (radius : number) (adjacent : CornerId * EdgeOrientation) : number :=
  let (adjacentCorner, side) := adjacent in
  let adjacentRadius := PerCorner.get (radiusMap st) adjacentCorner in
  if (radius === zero)%js && (adjacentRadius === zero)%js then zero
  else
    let adjacentBudget := PerCorner.get (budgetMap st) adjacentCorner in
    let sideLength :=
      match side with
      | top | bottom => width
      | _ => height
      end in
    if (adjacentBudget >=? zero)%js then (sideLength - adjacentBudget)%js
    else (radius / (radius + adjacentRadius) * sideLength)%js.

(** The callback of [forEach]: one corner resolved. *)
Definition resolveCorner (width height : number) (st : SolverState)
  (entry : CornerId * number) : SolverState :=
  let (corner, radius) := entry in
  let adjacents := ADJACENT_RELATIONS corner in
  let budget :=
    Math_min (map (adjacentShare width height st radius) adjacents) in
  mkSolver (PerCorner.set (radiusMap st) corner (Math_min2 radius budget))
           (PerCorner.set (budgetMap st) corner budget).

(** The comparison function of the sort: [r2 - r1]. *)
Definition byRadiusDescending (e1 e2 : CornerId * number) : number :=
  (snd e2 - snd e1)%js.

(** The maps the pass starts from. *)
Definition initialSolverState (input : CornerSpreadInput.t) : SolverState :=
  let radiusMap :=
    PerCorner.mk (CornerSpreadInput.topLeftCornerRadius input)
                 (CornerSpreadInput.topRightCornerRadius input)
                 (CornerSpreadInput.bottomLeftCornerRadius input)
                 (CornerSpreadInput.bottomRightCornerRadius input) in
  let budgetMap :=
    PerCorner.mk (Fin (-1)) (Fin (-1)) (Fin (-1)) (Fin (-1)) in
  mkSolver radiusMap budgetMap.

(** [Object.entries(radiusMap).sort(...)]: the corners in the order the
    loop visits them, each with its requested radius. *)
Definition sortedEntries (input : CornerSpreadInput.t)
  : list (CornerId * number) :=
  Array_sort byRadiusDescending
    (PerCorner.entries (radiusMap (initialSolverState input))).

Definition solveCorners (input : CornerSpreadInput.t) : SolverState :=
  fold_left
    (resolveCorner (CornerSpreadInput.width input)
                   (CornerSpreadInput.height input))
    (sortedEntries input)
    (initialSolverState input).

Definition normalizeCorners (input : CornerSpreadInput.t) : CornerProfiles :=
  let st := solveCorners input in
  let profile corner :=
    CornerProfile.mk (PerCorner.get (radiusMap st) corner)
                     (PerCorner.get (budgetMap st) corner) in
  PerCorner.mk (profile topLeft) (profile topRight)
               (profile bottomLeft) (profile bottomRight).

(** ** The corner-profile calculator *)

Definition degToRad (degrees : number) : number :=
  (degrees * Math_PI / Fin 180)%js.

Definition cornerProfileCacheKey (input : BezierPatchInput.t) : string :=
  String.concat "|"
    [ toFixed 3 (BezierPatchInput.cornerRadius input);
      toFixed 4 (BezierPatchInput.cornerSmoothing input);
      (if BezierPatchInput.preserveSmoothing input then "1" else "0")%string;
      toFixed 3 (BezierPatchInput.roundingAndSmoothingBudget input) ].

(** The body of [computeCornerProfile] below its cache lookup: the patch
    computed on a miss. *)
Definition cornerProfile (input : BezierPatchInput.t) : BezierPatch.t :=
  let cornerRadius := BezierPatchInput.cornerRadius input in
  let cornerSmoothing := BezierPatchInput.cornerSmoothing input in
  let preserveSmoothing := BezierPatchInput.preserveSmoothing input in
  let roundingAndSmoothingBudget :=
    BezierPatchInput.roundingAndSmoothingBudget input in
  let p := ((one + cornerSmoothing) * cornerRadius)%js in
  let '(cornerSmoothing, p) :=
    if negb preserveSmoothing then
      let maxSmoothing :=
        (roundingAndSmoothingBudget / cornerRadius - one)%js in
      (Math_min2 cornerSmoothing maxSmoothing,
       Math_min2 p roundingAndSmoothingBudget)
    else (cornerSmoothing, p) in
  let arcMeasure := (Fin 90 * (one - cornerSmoothing))%js in
  let arcSectionLength :=
    (Math_sin (degToRad (arcMeasure / Fin 2)) * cornerRadius * Math_SQRT2)%js in
  let angleAlpha := ((Fin 90 - arcMeasure) / Fin 2)%js in
  let p3ToP4Distance :=
    (cornerRadius * Math_tan (degToRad (angleAlpha / Fin 2)))%js in
  let angleBeta := (Fin 45 * cornerSmoothing)%js in
  let c := (p3ToP4Distance * Math_cos (degToRad angleBeta))%js in
  let d := (c * Math_tan (degToRad angleBeta))%js in
  let b := ((p - arcSectionLength - c - d) / Fin 3)%js in
  let a := (Fin 2 * b)%js in
  let '(a, b, p) :=
    if preserveSmoothing && (p >? roundingAndSmoothingBudget)%js then
      let p1ToP3MaxDistance :=
        (roundingAndSmoothingBudget - d - arcSectionLength - c)%js in
      let minA := (p1ToP3MaxDistance / Fin 6)%js in
      let maxB := (p1ToP3MaxDistance - minA)%js in
      let b := Math_min2 b maxB in
      let a := (p1ToP3MaxDistance - b)%js in
      let p := Math_min2 p roundingAndSmoothingBudget in
      (a, b, p)
    else (a, b, p) in
  BezierPatch.mk a b c d p cornerRadius arcSectionLength.

(** A cached patch is an object, which is always truthy. *)
Definition computeCornerProfile (input : BezierPatchInput.t)
  : Cached BezierPatch.t :=
  let cacheKey := cornerProfileCacheKey input in
  caches <- readCaches ;;
  match JSMap.get cacheKey (CORNER_PROFILE_CACHE caches) with
  | Some cached => ret cached
  | None =>
      let profile := cornerProfile input in
      _ <- writeProfileCache
             (JSMap.set cacheKey profile (CORNER_PROFILE_CACHE caches)) ;;
      ret profile
  end.

(** ** The path assembler *)

(** The tag [formatSegment]: the literal parts of the template, each
    followed by its value printed with four decimals. *)
Fixpoint formatSegment (strings : list string) (values : list number)
  : text :=
  match strings with
  | [] => []
  | str :: strings' =>
      match values with
      | value :: values' =>
          Lit str :: Fixed 4 value :: formatSegment strings' values'
      | [] => Lit str :: formatSegment strings' []
      end
  end.

Definition traceTopRight (patch : BezierPatch.t) : text :=
  let '(BezierPatch.mk a b c d p cornerRadius arcSectionLength) := patch in
  if truthy cornerRadius then
    formatSegment
      [ nl ++ "    c "; " 0 "; " 0 "; " ";
        nl ++ "    a "; " "; " 0 0 1 "; " ";
        nl ++ "    c "; " ";
        nl ++ "        "; " ";
        nl ++ "        "; " "; "" ]%string
      [ a; a + b; a + b + c; d;
        cornerRadius; cornerRadius; arcSectionLength; arcSectionLength;
        d; c;
        d; b + c;
        d; a + b + c ]%js
  else formatSegment [ "l "; " 0" ]%string [ p ].

Definition traceBottomRight (patch : BezierPatch.t) : text :=
  let '(BezierPatch.mk a b c d p cornerRadius arcSectionLength) := patch in
  if truthy cornerRadius then
    formatSegment
      [ nl ++ "    c 0 ";
        nl ++ "      0 ";
        nl ++ "      "; " ";
        nl ++ "    a "; " "; " 0 0 1 -"; " ";
        nl ++ "    c "; " ";
        nl ++ "      "; " ";
        nl ++ "      "; " "; "" ]%string
      [ a;
        a + b;
        - d; a + b + c;
        cornerRadius; cornerRadius; arcSectionLength; arcSectionLength;
        - c; d;
        - (b + c); d;
        - (a + b + c); d ]%js
  else formatSegment [ "l 0 "; "" ]%string [ p ].

Definition traceBottomLeft (patch : BezierPatch.t) : text :=
  let '(BezierPatch.mk a b c d p cornerRadius arcSectionLength) := patch in
  if truthy cornerRadius then
    formatSegment
      [ nl ++ "    c "; " 0" ++ nl ++ "      "; " 0" ++ nl ++ "      "; " ";
        nl ++ "    a "; " "; " 0 0 1 -"; " -";
        nl ++ "    c "; " ";
        nl ++ "      "; " ";
        nl ++ "      "; " "; "" ]%string
      [ - a; - (a + b); - (a + b + c); - d;
        cornerRadius; cornerRadius; arcSectionLength; arcSectionLength;
        - d; - c;
        - d; - (b + c);
        - d; - (a + b + c) ]%js
  else formatSegment [ "l "; " 0" ]%string [ (- p)%js ].

Definition traceTopLeft (patch : BezierPatch.t) : text :=
  let '(BezierPatch.mk a b c d p cornerRadius arcSectionLength) := patch in
  if truthy cornerRadius then
    formatSegment
      [ nl ++ "    c 0 ";
        nl ++ "      0 ";
        nl ++ "      "; " ";
        nl ++ "    a "; " "; " 0 0 1 "; " -";
        nl ++ "    c "; " ";
        nl ++ "      "; " ";
        nl ++ "      "; " "; "" ]%string
      [ - a;
        - (a + b);
        d; - (a + b + c);
        cornerRadius; cornerRadius; arcSectionLength; arcSectionLength;
        c; - d;
        b + c; - d;
        a + b + c; - d ]%js
  else formatSegment [ "l 0 "; "" ]%string [ (- p)%js ].

Definition joinCornerProfiles (input : PathParamsInput.t) : text :=
  let width := PathParamsInput.width input in
  let height := PathParamsInput.height input in
  let topLeftPathParams := PathParamsInput.topLeftPathParams input in
  let topRightPathParams := PathParamsInput.topRightPathParams input in
  let bottomLeftPathParams := PathParamsInput.bottomLeftPathParams input in
  let bottomRightPathParams := PathParamsInput.bottomRightPathParams input in
  let segments :=
    [ [ Lit "M "; Plain (width - BezierPatch.p topRightPathParams)%js;
        Lit " 0" ];
      traceTopRight topRightPathParams;
      [ Lit "L "; Plain width; Lit " ";
        Plain (height - BezierPatch.p bottomRightPathParams)%js ];
      traceBottomRight bottomRightPathParams;
      [ Lit "L "; Plain (BezierPatch.p bottomLeftPathParams); Lit " ";
        Plain height ];
      traceBottomLeft bottomLeftPathParams;
      [ Lit "L 0 "; Plain (BezierPatch.p topLeftPathParams) ];
      traceTopLeft topLeftPathParams;
      [ Lit "Z" ] ] in
  join " " segments.

(** ** The path builder *)

Definition orDefault {A} (value : option A) (default : A) : A :=
  match value with
  | Some v => v
  | None => default
  end.

(** The radius each corner is asked to have: its own when given, the
    shared one otherwise, 0 when neither is. *)
Definition effectiveRadius (input : SquirclePathInput.t) (corner : CornerId)
  : number :=
  let cornerRadius := orDefault (SquirclePathInput.cornerRadius input) zero in
  orDefault
    (match corner with
     | topLeft => SquirclePathInput.topLeftCornerRadius input
     | topRight => SquirclePathInput.topRightCornerRadius input
     | bottomLeft => SquirclePathInput.bottomLeftCornerRadius input
     | bottomRight => SquirclePathInput.bottomRightCornerRadius input
     end)
    cornerRadius.

(** The key a request is cached under. *)
Definition requestKey (input : SquirclePathInput.t) : string :=
  composeCacheKey
    (CacheKeyData.mk (SquirclePathInput.width input)
       (SquirclePathInput.height input)
       (SquirclePathInput.cornerSmoothing input)
       (orDefault (SquirclePathInput.preserveSmoothing input) false)
       (orDefault (SquirclePathInput.cornerRadius input) zero)
       (effectiveRadius input topLeft) (effectiveRadius input topRight)
       (effectiveRadius input bottomRight) (effectiveRadius input bottomLeft)).

(** [if (cached)]: a hit is a cached string that is not empty. *)
Definition cacheHit (cached : option text) : option text :=
  match cached with
  | Some s => if truthyText s then Some s else None
  | None => None
  end.

Definition buildSquirclePath (input : SquirclePathInput.t) : Cached text :=
  let cornerRadius := orDefault (SquirclePathInput.cornerRadius input) zero in
  let cornerSmoothing := SquirclePathInput.cornerSmoothing input in
  let width := SquirclePathInput.width input in
  let height := SquirclePathInput.height input in
  let preserveSmoothing :=
    orDefault (SquirclePathInput.preserveSmoothing input) false in
  let topLeftCornerRadius :=
    orDefault (SquirclePathInput.topLeftCornerRadius input) cornerRadius in
  let topRightCornerRadius :=
    orDefault (SquirclePathInput.topRightCornerRadius input) cornerRadius in
  let bottomLeftCornerRadius :=
    orDefault (SquirclePathInput.bottomLeftCornerRadius input) cornerRadius in
  let bottomRightCornerRadius :=
    orDefault (SquirclePathInput.bottomRightCornerRadius input) cornerRadius in
  let cacheKey :=
    composeCacheKey
      (CacheKeyData.mk width height cornerSmoothing preserveSmoothing
         cornerRadius topLeftCornerRadius topRightCornerRadius
         bottomRightCornerRadius bottomLeftCornerRadius) in
  let store (path : text) : Cached text :=
    caches <- readCaches ;;
    _ <- writePathCache
           (storeCachedPath cacheKey path (PATH_CACHE_MAP caches)) ;;
    ret path in
  caches <- readCaches ;;
  match cacheHit (readCachedPath cacheKey (PATH_CACHE_MAP caches)) with
  | Some cached => ret cached
  | None =>
      if (topLeftCornerRadius === topRightCornerRadius)%js
         && (topRightCornerRadius === bottomRightCornerRadius)%js
         && (bottomRightCornerRadius === bottomLeftCornerRadius)%js
         && (bottomLeftCornerRadius === topLeftCornerRadius)%js
      then
        if (topLeftCornerRadius === zero)%js then
          let rectanglePath :=
            [ Lit "M "; Plain width; Lit " 0 L "; Plain width; Lit " ";
              Plain height; Lit " L 0 "; Plain height; Lit " L 0 0 Z" ] in
          store rectanglePath
        else
          let budget := (Math_min2 width height / Fin 2)%js in
          let radius := Math_min2 topLeftCornerRadius budget in
          pathParams <-
            computeCornerProfile
              (BezierPatchInput.mk radius cornerSmoothing preserveSmoothing
                 budget) ;;
          store
            (joinCornerProfiles
               (PathParamsInput.mk width height pathParams pathParams
                  pathParams pathParams))
      else
        let corners :=
          normalizeCorners
            (CornerSpreadInput.mk topLeftCornerRadius topRightCornerRadius
               bottomRightCornerRadius bottomLeftCornerRadius width height) in
        let profileOf (corner : CornerId) : Cached BezierPatch.t :=
          computeCornerProfile
            (BezierPatchInput.mk
               (CornerProfile.radius (PerCorner.get corners corner))
               cornerSmoothing preserveSmoothing
               (CornerProfile.roundingAndSmoothingBudget
                  (PerCorner.get corners corner))) in
        topLeftPathParams <- profileOf topLeft ;;
        topRightPathParams <- profileOf topRight ;;
        bottomRightPathParams <- profileOf bottomRight ;;
        bottomLeftPathParams <- profileOf bottomLeft ;;
        store
          (joinCornerProfiles
             (PathParamsInput.mk width height topLeftPathParams
                topRightPathParams bottomLeftPathParams
                bottomRightPathParams))
  end.

(** ** The backdrop: geometry of the fill and of the inset border *)

Module RoundedSurfaceOptions.
Record t : Type := mk {
  baseRadius : option number;
  topLeftRadius : option number;
  topRightRadius : option number;
  bottomRightRadius : option number;
  bottomLeftRadius : option number;
  smoothFactor : number;
  borderWidth : option number
}.
End RoundedSurfaceOptions.

Module MeasuredFrame.
Record t : Type := mk {
  width : number;
  height : number
}.
End MeasuredFrame.

(** What the memoised computation of [SquircleBackdrop] returns. *)
Module Backdrop.
Record t : Type := mk {
  path : option text;
  insetAmount : number;
  renderedStrokeWidth : number
}.
End Backdrop.

Definition shrinkRadius (radius : option number) (insetAmount : number)
  : option number :=
  match radius with
  | Some r => Some (Math_max2 zero (r - insetAmount)%js)
  | None => radius
  end.

(** [.filter(value => typeof value === "number" && value > 0)]. *)
Fixpoint positiveNumbers (values : list (option number)) : list number :=
  match values with
  | [] => []
  | Some v :: rest =>
      if (v >? zero)%js then v :: positiveNumbers rest
      else positiveNumbers rest
  | None :: rest => positiveNumbers rest
  end.

(** The radii the stroke is compared with: the base radius and the four
    corner radii as the options give them. *)
Definition listedRadii (params : RoundedSurfaceOptions.t)
  : list (option number) :=
  [ Some (orDefault (RoundedSurfaceOptions.baseRadius params) zero);
    RoundedSurfaceOptions.topLeftRadius params;
    RoundedSurfaceOptions.topRightRadius params;
    RoundedSurfaceOptions.bottomLeftRadius params;
    RoundedSurfaceOptions.bottomRightRadius params ].

(** The stroke width the border is drawn with: the requested one, at most
    the smallest positive radius of the list. *)
Definition clampStrokeWidth (params : RoundedSurfaceOptions.t) : number :=
  let borderWidth :=
    orDefault (RoundedSurfaceOptions.borderWidth params) zero in
  let normalizedStrokeWidth := Math_max2 zero borderWidth in
  let cornerRadii := positiveNumbers (listedRadii params) in
  let maxStrokeWidth :=
    if (0 <? List.length cornerRadii)%nat then Math_min cornerRadii
    else normalizedStrokeWidth in
  Math_min2 normalizedStrokeWidth maxStrokeWidth.

(** The two calls of [buildSquirclePath]: for the outline as measured,
    and for the outline inset by half the stroke. *)
Definition basePathInput (frame : MeasuredFrame.t)
  (params : RoundedSurfaceOptions.t) : SquirclePathInput.t :=
  SquirclePathInput.mk
    (Some (orDefault (RoundedSurfaceOptions.baseRadius params) zero))
    (RoundedSurfaceOptions.topLeftRadius params)
    (RoundedSurfaceOptions.topRightRadius params)
    (RoundedSurfaceOptions.bottomRightRadius params)
    (RoundedSurfaceOptions.bottomLeftRadius params)
    (RoundedSurfaceOptions.smoothFactor params)
    (MeasuredFrame.width frame) (MeasuredFrame.height frame) None.

Definition insetPathInput (frame : MeasuredFrame.t)
  (params : RoundedSurfaceOptions.t) (clampedStrokeWidth : number)
  : SquirclePathInput.t :=
  let inset := (clampedStrokeWidth / Fin 2)%js in
  SquirclePathInput.mk
    (shrinkRadius
       (Some (orDefault (RoundedSurfaceOptions.baseRadius params) zero))
       inset)
    (shrinkRadius (RoundedSurfaceOptions.topLeftRadius params) inset)
    (shrinkRadius (RoundedSurfaceOptions.topRightRadius params) inset)
    (shrinkRadius (RoundedSurfaceOptions.bottomRightRadius params) inset)
    (shrinkRadius (RoundedSurfaceOptions.bottomLeftRadius params) inset)
    (RoundedSurfaceOptions.smoothFactor params)
    (MeasuredFrame.width frame - clampedStrokeWidth)%js
    (MeasuredFrame.height frame - clampedStrokeWidth)%js
    None.

Definition SquircleBackdrop (layout : option MeasuredFrame.t)
  (params : RoundedSurfaceOptions.t) : Cached Backdrop.t :=
  let frame :=
    MeasuredFrame.mk
      (match layout with Some f => MeasuredFrame.width f | None => zero end)
      (match layout with Some f => MeasuredFrame.height f | None => zero end)
  in
  let layoutWidth := MeasuredFrame.width frame in
  let layoutHeight := MeasuredFrame.height frame in
  let borderWidth :=
    orDefault (RoundedSurfaceOptions.borderWidth params) zero in
  if (layoutWidth === zero)%js || (layoutHeight === zero)%js then
    ret (Backdrop.mk None zero zero)
  else
    let normalizedStrokeWidth := Math_max2 zero borderWidth in
    let basePath := buildSquirclePath (basePathInput frame params) in
    if (normalizedStrokeWidth === zero)%js then
      path <- basePath ;;
      ret (Backdrop.mk (Some path) zero zero)
    else
      let clampedStrokeWidth := clampStrokeWidth params in
      if (clampedStrokeWidth <=? zero)%js then
        path <- basePath ;;
        ret (Backdrop.mk (Some path) zero zero)
      else
        let inset := (clampedStrokeWidth / Fin 2)%js in
        insetPath <-
          buildSquirclePath (insetPathInput frame params clampedStrokeWidth) ;;
        ret (Backdrop.mk (Some insetPath) inset clampedStrokeWidth).

(** ** The specification's reading of the corner-budget solver

    The definitions below follow the words of the specification, to be
    compared with the code above. *)

Definition enumeration : list CornerId :=
  [ topLeft; topRight; bottomLeft; bottomRight ].

Definition enumIndex (corner : CornerId) : nat :=
  match corner with
  | topLeft => 0
  | topRight => 1
  | bottomLeft => 2
  | bottomRight => 3
  end.

Definition isTop (corner : CornerId) : bool :=
  match corner with
  | topLeft | topRight => true
  | _ => false
  end.

Definition isLeft (corner : CornerId) : bool :=
  match corner with
  | topLeft | bottomLeft => true
  | _ => false
  end.

(** The edge of the rectangle two corners share: none for a corner and
    itself, none for the two ends of a diagonal. *)
Definition sharedEdge (c1 c2 : CornerId) : option EdgeOrientation :=
  if CornerId_eqb c1 c2 then None
  else if Bool.eqb (isTop c1) (isTop c2) then
    Some (if isTop c1 then top else bottom)
  else if Bool.eqb (isLeft c1) (isLeft c2) then
    Some (if isLeft c1 then left else right)
  else None.

(** Width for the top and bottom edges, height for the left and right
    ones. *)
Definition edgeLength (width height : number) (side : EdgeOrientation)
  : number :=
  match side with
  | top | bottom => width
  | left | right => height
  end.

(** "Descending order of requested radius, ties broken by the fixed
    enumeration order": [c1] is processed before [c2]. *)
Definition processedBefore (requested : CornerId -> number)
  (c1 c2 : CornerId) : Prop :=
  (requested c1 >? requested c2)%js = true
  \/ ((requested c1 === requested c2)%js = true
      /\ (enumIndex c1 < enumIndex c2)%nat).

Definition spec_processingOrder (requested : CornerId -> number)
  (order : list CornerId) : Prop :=
  Permutation enumeration order
  /\ StronglySorted (processedBefore requested) order.

(** What one neighbour leaves to [corner]; [resolved] holds the budgets
    set so far in this pass. *)
Definition spec_share (width height : number)
  (requested : CornerId -> number) (resolved : CornerId -> option number)
  (corner neighbour : CornerId) (side : EdgeOrientation) : number :=
  if (requested corner === zero)%js && (requested neighbour === zero)%js
  then zero
  else
    match resolved neighbour with
    | Some neighbourBudget =>
        (edgeLength width height side - neighbourBudget)%js
    | None =>
        (requested corner / (requested corner + requested neighbour)
         * edgeLength width height side)%js
    end.

(** The budget of [corner]: the minimum over the corners it shares an
    edge with. *)
Definition spec_budget (width height : number)
  (requested : CornerId -> number) (resolved : CornerId -> option number)
  (corner : CornerId) : number :=
  Math_min
    (flat_map
       (fun neighbour =>
          match sharedEdge corner neighbour with
          | Some side =>
              [ spec_share width height requested resolved corner neighbour
                  side ]
          | None => []
          end)
       enumeration).

Definition spec_resolve (width height : number)
  (requested : CornerId -> number) (resolved : CornerId -> option number)
  (corner : CornerId) : CornerId -> option number :=
  fun c =>
    if CornerId_eqb c corner
    then Some (spec_budget width height requested resolved corner)
    else resolved c.

Definition spec_budgets (width height : number)
  (requested : CornerId -> number) (order : list CornerId)
  : CornerId -> option number :=
  fold_left (spec_resolve width height requested) order (fun _ => None).

(** The resolved radius: the requested one clamped to the corner's
    budget. *)
Definition spec_corner (width height : number)
  (requested : CornerId -> number) (order : list CornerId)
  (corner : CornerId) : option CornerProfile.t :=
  match spec_budgets width height requested order corner with
  | Some budget =>
      Some (CornerProfile.mk (Math_min2 (requested corner) budget) budget)
  | None => None
  end.

(** The requested radii of a solver input, by corner. *)
Definition requestedRadius (input : CornerSpreadInput.t) (corner : CornerId)
  : number :=
  match corner with
  | topLeft => CornerSpreadInput.topLeftCornerRadius input
  | topRight => CornerSpreadInput.topRightCornerRadius input
  | bottomLeft => CornerSpreadInput.bottomLeftCornerRadius input
  | bottomRight => CornerSpreadInput.bottomRightCornerRadius input
  end.

(** The order [normalizeCorners] resolves the corners in. *)
Definition processingOrder (input : CornerSpreadInput.t) : list CornerId :=
  map fst (sortedEntries input).

(** A solver input of the data model: finite numbers, a rectangle with an
    area, no negative radius. *)
Definition validSpread (input : CornerSpreadInput.t) : Prop :=
  exists w h tl tr br bl : R,
    input = CornerSpreadInput.mk (Fin tl) (Fin tr) (Fin br) (Fin bl)
              (Fin w) (Fin h)
    /\ (0 < w /\ 0 < h /\ 0 <= tl /\ 0 <= tr /\ 0 <= br /\ 0 <= bl)%R.

(** An input to show the solver at work: a 100 by 40 rectangle, radii 90
    (top left), 60 (top right), 0 (bottom right) and 10 (bottom left). *)
Definition exampleSpread : CornerSpreadInput.t :=
  CornerSpreadInput.mk (Fin 90) (Fin 60) (Fin 0) (Fin 10) (Fin 100) (Fin 40).

(** ** Invariant of the solver's loop

    [processed] lists the corners resolved so far; [rho] and [beta] are
    the real values held by [radiusMap] and [budgetMap]. *)

Section SolverInvariant.
Variables w h : R.
Variable req : CornerId -> R.

Definition len (side : EdgeOrientation) : R :=
  match side with
  | top | bottom => w
  | left | right => h
  end.

Record solverInv (processed : list CornerId) (st : SolverState)
  (rho beta : CornerId -> R) : Prop := mkSolverInv {
  inv_radius : forall c, PerCorner.get (radiusMap st) c = Fin (rho c);
  inv_budget : forall c, PerCorner.get (budgetMap st) c = Fin (beta c);
  inv_pending : forall c, ~ In c processed ->
    beta c = (-1)%R /\ rho c = req c;
  inv_resolved : forall c, In c processed ->
    (0 <= beta c)%R /\ rho c = Rmin (req c) (beta c)
    /\ ((0 < req c)%R -> (0 < beta c)%R);
  inv_room : forall c n side, sharedEdge c n = Some side ->
    In c processed -> ~ In n processed ->
    (beta c <= len side)%R /\ ((0 < req n)%R -> (beta c < len side)%R);
  inv_disjoint : forall c n side, sharedEdge c n = Some side ->
    In c processed -> In n processed ->
    (beta c + beta n <= len side)%R
}.

(** The budgets the specification's pass has set are those of the code. *)
Definition sameBudgets (processed : list CornerId) (st : SolverState)
  (resolved : CornerId -> option number) : Prop :=
  forall c,
    (In c processed ->
     resolved c = Some (PerCorner.get (budgetMap st) c))
    /\ (~ In c processed -> resolved c = None).

(** The solver input that spreads the radii [req] over a [w] by [h]
    rectangle. *)
Definition spreadOf : CornerSpreadInput.t :=
  CornerSpreadInput.mk (Fin (req topLeft)) (Fin (req topRight))
    (Fin (req bottomRight)) (Fin (req bottomLeft)) (Fin w) (Fin h).

End SolverInvariant.

(** The order on the entries that the sort of [normalizeCorners] yields
    when every radius is finite. *)
Definition entryBefore (e1 e2 : CornerId * number) : Prop :=
  (snd e1 >? snd e2)%js = true
  \/ ((snd e1 === snd e2)%js = true
      /\ (enumIndex (fst e1) < enumIndex (fst e2))%nat).

Definition finiteEntry (e : CornerId * number) : Prop :=
  exists r : R, snd e = Fin r.

(** ** The specification's reading of the corner profile *)

(** [rad()]: degrees to radians. *)
Definition spec_rad (degrees : number) : number :=
  (degrees * Math_PI / Fin 180)%js.

(** The derivation as the specification lists it; the sine of
    [arcMeasure / 2] is the sine of that angle, which is in degrees. *)
Definition spec_cornerProfile (radius smoothing budget : number)
  (preserveSmoothing : bool) : BezierPatch.t :=
  let p := ((one + smoothing) * radius)%js in
  let s :=
    if preserveSmoothing then smoothing
    else Math_min2 smoothing (budget / radius - one)%js in
  let p := if preserveSmoothing then p else Math_min2 p budget in
  let arcMeasure := (Fin 90 * (one - s))%js in
  let arcChord :=
    (Math_sin (spec_rad (arcMeasure / Fin 2)) * radius * Math_SQRT2)%js in
  let alpha := ((Fin 90 - arcMeasure) / Fin 2)%js in
  let p3ToP4 := (radius * Math_tan (spec_rad (alpha / Fin 2)))%js in
  let beta := (Fin 45 * s)%js in
  let c := (p3ToP4 * Math_cos (spec_rad beta))%js in
  let d := (c * Math_tan (spec_rad beta))%js in
  let b := ((p - arcChord - c - d) / Fin 3)%js in
  let a := (Fin 2 * b)%js in
  BezierPatch.mk a b c d p radius arcChord.

(** The same derivation with the sine applied to the number
    [arcMeasure / 2] as it stands, without [rad()]. *)
Definition spec_arcChord_unconverted (radius smoothing : number) : number :=
  let arcMeasure := (Fin 90 * (one - smoothing))%js in
  (Math_sin (arcMeasure / Fin 2) * radius * Math_SQRT2)%js.

(** The sum of the five lengths a corner lays along an edge. *)
Definition extentOf (patch : BezierPatch.t) : number :=
  (BezierPatch.a patch + BezierPatch.b patch + BezierPatch.c patch
   + BezierPatch.d patch + BezierPatch.arcSectionLength patch)%js.

(** ** Reading a path

    The commands of a path are the letters of its literal text; the
    numbers are its other pieces. *)

Definition isLetter (ch : ascii) : bool :=
  let n := nat_of_ascii ch in
  ((65 <=? n) && (n <=? 90) || (97 <=? n) && (n <=? 122))%nat%bool.

Fixpoint lettersOf (s : string) : list ascii :=
  match s with
  | EmptyString => []
  | String ch rest =>
      if isLetter ch then ch :: lettersOf rest else lettersOf rest
  end.

Definition commandLetters (t : text) : list ascii :=
  flat_map (fun q => match q with Lit s => lettersOf s | _ => [] end) t.

Definition isNumber (q : piece) : bool :=
  match q with
  | Lit _ => false
  | _ => true
  end.

Definition numbersOf (t : text) : list piece := filter isNumber t.

(** The parts of an outline. *)
Inductive OutlinePart : Type :=
| Start
| StraightEdge
| CornerTrace
| ClosePath.

(** [M] starts, [L] is a straight edge, [c a c] or a lone [l] is the trace
    of a corner, [Z] closes. *)
Fixpoint outlineParts (letters : list ascii) : option (list OutlinePart) :=
  let next (part : OutlinePart) (rest : list ascii) :=
    match outlineParts rest with
    | Some parts => Some (part :: parts)
    | None => None
    end in
  match letters with
  | [] => Some []
  | "M"%char :: rest => next Start rest
  | "L"%char :: rest => next StraightEdge rest
  | "Z"%char :: rest => next ClosePath rest
  | "l"%char :: rest => next CornerTrace rest
  | "c"%char :: rest =>
      match rest with
      | "a"%char :: "c"%char :: rest' =>
          match outlineParts rest' with
          | Some parts => Some (CornerTrace :: parts)
          | None => None
          end
      | _ => None
      end
  | _ => None
  end.

(** The order of the outline in the specification's words: "straight top
    edge, top-right corner trace, straight right edge, bottom-right corner
    trace, straight bottom edge, bottom-left corner trace, straight left
    edge, top-left corner trace, close", after the starting point. *)
Definition spec_outline : list OutlinePart :=
  [ Start;
    StraightEdge; CornerTrace; StraightEdge; CornerTrace;
    StraightEdge; CornerTrace; StraightEdge; CornerTrace;
    ClosePath ].

(** A number as the path prints it has at most four decimals: always so
    through [toFixed(4)]; through plain interpolation, when the number
    itself is a multiple of [0.0001]. *)
Definition fourDecimals (q : piece) : Prop :=
  match q with
  | Lit _ => True
  | Fixed digits _ => digits = 4%nat
  | Plain x => exists n : Z, x = Fin (IZR n / 10000)
  end.

(** The patch of a corner of radius 0 with room to spare: every length is
    0. *)
Definition sharpPatch : BezierPatch.t :=
  BezierPatch.mk zero zero zero zero zero zero zero.

(** A rectangle whose width, 200.03125, is a binary fraction with five
    decimals; its four corners are sharp. *)
Definition exampleSharpOutline : PathParamsInput.t :=
  PathParamsInput.mk (Fin (200 + 1 / 32)) (Fin 100)
    sharpPatch sharpPatch sharpPatch sharpPatch.

(** ** The specification's reading of the stroke clamp *)

(** "The smallest positive corner radius currently in effect": the radii
    the four corners are asked to have, the base radius standing in for
    a corner that gives none. *)
Definition spec_radiiInEffect (params : RoundedSurfaceOptions.t)
  : list (option number) :=
  let baseRadius := orDefault (RoundedSurfaceOptions.baseRadius params) zero in
  map (fun radius => Some (orDefault radius baseRadius))
    [ RoundedSurfaceOptions.topLeftRadius params;
      RoundedSurfaceOptions.topRightRadius params;
      RoundedSurfaceOptions.bottomLeftRadius params;
      RoundedSurfaceOptions.bottomRightRadius params ].

Definition spec_clampStrokeWidth (params : RoundedSurfaceOptions.t) : number :=
  let strokeWidth :=
    Math_max2 zero (orDefault (RoundedSurfaceOptions.borderWidth params) zero)
  in
  Math_min2 strokeWidth (Math_min (positiveNumbers (spec_radiiInEffect params))).

(** A number of the list is finite. *)
Definition finiteOption (radius : option number) : Prop :=
  match radius with
  | Some (Fin _) | None => True
  | Some _ => False
  end.

(** Four corners of radius 50 that all override a base radius of 1, and a
    border of width 10. *)
Definition exampleOverriddenBase : RoundedSurfaceOptions.t :=
  RoundedSurfaceOptions.mk (Some (Fin 1)) (Some (Fin 50)) (Some (Fin 50))
    (Some (Fin 50)) (Some (Fin 50)) (Fin (3 / 5)) (Some (Fin 10)).

Definition exampleFrame : MeasuredFrame.t :=
  MeasuredFrame.mk (Fin 200) (Fin 200).

(** ** The component of [src/ExpoSquircle.tsx]

    The current component normalises its options once
    ([normalizeSquircleParams], of [core/params]) and computes the
    geometry from the normalised options ([computeSquircleGeometry]). *)

(** The options as a caller may pass them: any field may be missing. *)
Module SquircleParams.
Record t : Type := mk {
  baseRadius : option number;
  topLeftRadius : option number;
  topRightRadius : option number;
  bottomRightRadius : option number;
  bottomLeftRadius : option number;
  smoothFactor : option number;
  borderWidth : option number
}.
End SquircleParams.

Module NormalizedRoundedSurfaceOptions.
Record t : Type := mk {
  baseRadius : number;
  topLeftRadius : number;
  topRightRadius : number;
  bottomRightRadius : number;
  bottomLeftRadius : number;
  smoothFactor : number;
  borderWidth : number
}.
End NormalizedRoundedSurfaceOptions.

Inductive ValidationError : Type :=
| InvalidSmoothFactor.

Definition isFiniteNumber (x : number) : bool :=
  match x with
  | Fin _ => true
  | _ => false
  end.

(** Modelled from the spec: [normalizeSquircleParams] of [core/params],
    which is not among the sources.  "For each corner, radius = specified
    corner radius if present, else the shared base radius, else 0.  Fails
    with a ValidationError if the smoothing factor is absent or not
    representable as a number; [...] all other malformed numeric input
    (negative radius, negative stroke width) is clamped to 0 rather than
    rejected." *)
Definition normalizeSquircleParams (params : SquircleParams.t)
  : ValidationError + NormalizedRoundedSurfaceOptions.t :=
  match SquircleParams.smoothFactor params with
  | Some smoothFactor =>
      if isFiniteNumber smoothFactor then
        let clamp (x : number) := Math_max2 zero x in
        let baseRadius := orDefault (SquircleParams.baseRadius params) zero in
        let corner (radius : option number) :=
          clamp (orDefault radius baseRadius) in
        inr (NormalizedRoundedSurfaceOptions.mk
               (clamp baseRadius)
               (corner (SquircleParams.topLeftRadius params))
               (corner (SquircleParams.topRightRadius params))
               (corner (SquircleParams.bottomRightRadius params))
               (corner (SquircleParams.bottomLeftRadius params))
               smoothFactor
               (clamp (orDefault (SquircleParams.borderWidth params) zero)))
      else inl InvalidSmoothFactor
  | None => inl InvalidSmoothFactor
  end.

Module SquircleGeometry.
Record t : Type := mk {
  width : number;
  height : number;
  path : text;
  strokeCommandWidth : number
}.
End SquircleGeometry.

(** [computeSquircleGeometry] of [src/ExpoSquircle.tsx]; the path
    builder it imports is the one modelled above. *)
Definition computeSquircleGeometry (frame : option MeasuredFrame.t)
  (params : NormalizedRoundedSurfaceOptions.t)
  : Cached (option SquircleGeometry.t) :=
  match frame with
  | None => ret None
  | Some frame =>
      if (MeasuredFrame.width frame <=? zero)%js
         || (MeasuredFrame.height frame <=? zero)%js
      then ret None
      else
        path <-
          buildSquirclePath
            (SquirclePathInput.mk
               (Some (NormalizedRoundedSurfaceOptions.baseRadius params))
               (Some (NormalizedRoundedSurfaceOptions.topLeftRadius params))
               (Some (NormalizedRoundedSurfaceOptions.topRightRadius params))
               (Some
                  (NormalizedRoundedSurfaceOptions.bottomRightRadius params))
               (Some
                  (NormalizedRoundedSurfaceOptions.bottomLeftRadius params))
               (NormalizedRoundedSurfaceOptions.smoothFactor params)
               (MeasuredFrame.width frame) (MeasuredFrame.height frame)
               None) ;;
        let borderWidth := NormalizedRoundedSurfaceOptions.borderWidth params in
        ret (Some
               (SquircleGeometry.mk (MeasuredFrame.width frame)
                  (MeasuredFrame.height frame) path
                  (if (borderWidth >? zero)%js then (borderWidth * Fin 2)%js
                   else borderWidth)))
  end.

(** The geometry of one render of the component: the options are
    normalised, which fails or not, then the geometry is computed. *)
Definition renderGeometry (params : SquircleParams.t)
  (frame : option MeasuredFrame.t)
  : ValidationError + Cached (option SquircleGeometry.t) :=
  match normalizeSquircleParams params with
  | inl error => inl error
  | inr normalized => inr (computeSquircleGeometry frame normalized)
  end.

(** Stores the entries one after the other, first to last. *)
Definition storeAll (entries : list (string * text)) (cache : JSMap.t text)
  : JSMap.t text :=
  fold_left (fun c entry => storeCachedPath (fst entry) (snd entry) c)
    entries cache.

(** ** What a call leaves of the caches *)

(** Every entry of [m] is an entry of [m'], with the same value. *)
Definition entriesKept {V : Type} (m m' : JSMap.t V) : Prop :=
  forall (key : string) (value : V),
    JSMap.get key m = Some value -> JSMap.get key m' = Some value.

(** The path cache is as it was, and the profile cache has lost
    nothing. *)
Definition profilesAdded (caches caches' : Caches) : Prop :=
  PATH_CACHE_MAP caches' = PATH_CACHE_MAP caches
  /\ entriesKept (CORNER_PROFILE_CACHE caches) (CORNER_PROFILE_CACHE caches').

(** Two requests that differ by four thousandths in width. *)
Definition exampleRequest : SquirclePathInput.t :=
  SquirclePathInput.mk (Some (Fin 12)) None None None None (Fin (3 / 5))
    (Fin 100) (Fin 40) None.

Definition exampleNearbyRequest : SquirclePathInput.t :=
  SquirclePathInput.mk (Some (Fin 12)) None None None None (Fin (3 / 5))
    (Fin (100 + 4 / 1000)) (Fin 40) None.

(** Options with a negative border width. *)
Definition exampleNegativeBorder : RoundedSurfaceOptions.t :=
  RoundedSurfaceOptions.mk (Some (Fin 12)) None None None None (Fin (3 / 5))
    (Some (Fin (-3))).

(** ** Clip path identifiers of [src/ExpoSquircle.tsx]

    [clipPathCounter] is a module variable: it is passed in and out. *)

Definition createClipPathId (clipPathCounter : number) : text * number :=
  let clipPathCounter := (clipPathCounter + one)%js in
  ([ Lit "expoSquircleClip_"; Plain clipPathCounter ], clipPathCounter).

(** The part of a render of [SquircleBackdrop] that sets [clipPathIdRef]:
    [current] is the value of the ref before the render, the result is
    its value after it. *)
Definition renderClipPathId (geometry : option SquircleGeometry.t)
  (current : option text) (clipPathCounter : number)
  : option text * number :=
  match geometry with
  | None => (current, clipPathCounter)
  | Some geometry =>
      let hasStroke := (SquircleGeometry.strokeCommandWidth geometry >? zero)%js in
      let unset :=
        match current with
        | Some id => negb (truthyText id)
        | None => true
        end in
      if hasStroke && unset then
        let (id, clipPathCounter) := createClipPathId clipPathCounter in
        (Some id, clipPathCounter)
      else (current, clipPathCounter)
  end.

(** A request whose four corners share the radius 0.004, and the request
    with no radius at all, of the same size and smoothing. *)
Definition exampleTinyRadiusRequest : SquirclePathInput.t :=
  SquirclePathInput.mk (Some (Fin (4 / 1000))) None None None None
    (Fin (3 / 5)) (Fin 100) (Fin 40) None.

Definition exampleSharpRequest : SquirclePathInput.t :=
  SquirclePathInput.mk None None None None None (Fin (3 / 5)) (Fin 100)
    (Fin 40) None.

(** * Proofs *)

(** ** Numbers *)

Section NumberFacts.
Local Open Scope R_scope.

Lemma Rltb_true (x y : R) : Rltb x y = true <-> x < y.
Proof. unfold Rltb; destruct (Rlt_dec x y); split; intros; (easy || lra). Qed.

Lemma Rltb_false (x y : R) : Rltb x y = false <-> y <= x.
Proof. unfold Rltb; destruct (Rlt_dec x y); split; intros; (easy || lra). Qed.

Lemma Rleb_true (x y : R) : Rleb x y = true <-> x <= y.
Proof. unfold Rleb; destruct (Rle_dec x y); split; intros; (easy || lra). Qed.

Lemma Rleb_false (x y : R) : Rleb x y = false <-> y < x.
Proof. unfold Rleb; destruct (Rle_dec x y); split; intros; (easy || lra). Qed.

Lemma Reqb_true (x y : R) : Reqb x y = true <-> x = y.
Proof. unfold Reqb; destruct (Req_dec_T x y); split; intros; (easy || lra). Qed.

Lemma Reqb_false (x y : R) : Reqb x y = false <-> x <> y.
Proof. unfold Reqb; destruct (Req_dec_T x y); split; intros; (easy || lra). Qed.

Lemma Rltb_of (x y : R) : x < y -> Rltb x y = true.
Proof. apply Rltb_true. Qed.

Lemma Rltb_not (x y : R) : y <= x -> Rltb x y = false.
Proof. apply Rltb_false. Qed.

Lemma Rleb_of (x y : R) : x <= y -> Rleb x y = true.
Proof. apply Rleb_true. Qed.

Lemma Rleb_not (x y : R) : y < x -> Rleb x y = false.
Proof. apply Rleb_false. Qed.

Lemma Reqb_of (x y : R) : x = y -> Reqb x y = true.
Proof. apply Reqb_true. Qed.

Lemma Reqb_not (x y : R) : x <> y -> Reqb x y = false.
Proof. apply Reqb_false. Qed.

Lemma Math_min2_Fin (x y : R) : Math_min2 (Fin x) (Fin y) = Fin (Rmin x y).
Proof.
  unfold Math_min2, lt, Rltb, Rmin.
  destruct (Rlt_dec y x), (Rle_dec x y); try reflexivity; exfalso; lra.
Qed.

Lemma Math_max2_Fin (x y : R) : Math_max2 (Fin x) (Fin y) = Fin (Rmax x y).
Proof.
  unfold Math_max2, lt, Rltb, Rmax.
  destruct (Rlt_dec x y), (Rle_dec x y); try reflexivity; try (exfalso; lra).
  f_equal; lra.
Qed.

Lemma Math_min_pair (x y : R) : Math_min [Fin x; Fin y] = Fin (Rmin x y).
Proof. unfold Math_min; simpl. apply Math_min2_Fin. Qed.

Lemma div_Fin (x y : R) : y <> 0 -> div (Fin x) (Fin y) = Fin (x / y).
Proof. intros H; unfold div. now rewrite (Reqb_not H). Qed.


End NumberFacts.

(** Decides the comparisons of reals met in a goal, each by [lra]. *)
Ltac decide_real :=
  repeat
    match goal with
    | |- context [Rltb ?x ?y] =>
        first [ rewrite (@Rltb_of x y) by lra
              | rewrite (@Rltb_not x y) by lra ]
    | |- context [Rleb ?x ?y] =>
        first [ rewrite (@Rleb_of x y) by lra
              | rewrite (@Rleb_not x y) by lra ]
    | |- context [Reqb ?x ?y] =>
        first [ rewrite (@Reqb_of x y) by lra
              | rewrite (@Reqb_not x y) by lra ]
    end.

(** Splits on the comparisons of reals left in a goal. *)
Ltac split_real :=
  repeat
    match goal with
    | |- context [Rltb ?x ?y] =>
        let H := fresh "C" in
        destruct (Rltb x y) eqn:H;
        [ apply Rltb_true in H | apply Rltb_false in H ]
    | |- context [Rleb ?x ?y] =>
        let H := fresh "C" in
        destruct (Rleb x y) eqn:H;
        [ apply Rleb_true in H | apply Rleb_false in H ]
    | |- context [Reqb ?x ?y] =>
        let H := fresh "C" in
        destruct (Reqb x y) eqn:H;
        [ apply Reqb_true in H | apply Reqb_false in H ]
    end.

(** Case analysis on one comparison of reals. *)
Ltac case_Reqb x y :=
  let E := fresh "E" in
  destruct (Req_dec_T x y) as [E|E];
  [ rewrite ?(Reqb_of E) | rewrite ?(Reqb_not E) ].

Ltac case_Rltb x y :=
  let E := fresh "E" in
  destruct (Rlt_dec x y) as [E|E];
  [ rewrite ?(Rltb_of E) | apply Rnot_lt_le in E; rewrite ?(Rltb_not E) ].

(** ** Closed arithmetic

    A closed expression over the reals is replaced by the fraction it
    equals, computed over the rationals. *)

Ltac reify_closed e :=
  lazymatch e with
  | (?x + ?y)%R =>
      let a := reify_closed x in
      let b := reify_closed y in
      constr:(QArith_base.Qplus a b)
  | (?x - ?y)%R =>
      let a := reify_closed x in
      let b := reify_closed y in
      constr:(QArith_base.Qminus a b)
  | (?x * ?y)%R =>
      let a := reify_closed x in
      let b := reify_closed y in
      constr:(QArith_base.Qmult a b)
  | (?x / ?y)%R =>
      let a := reify_closed x in
      let b := reify_closed y in
      constr:(QArith_base.Qdiv a b)
  | (- ?x)%R =>
      let a := reify_closed x in
      constr:(QArith_base.Qopp a)
  | Rmin ?x ?y =>
      let a := reify_closed x in
      let b := reify_closed y in
      constr:(Qminmax.Qmin a b)
  | Rmax ?x ?y =>
      let a := reify_closed x in
      let b := reify_closed y in
      constr:(Qminmax.Qmax a b)
  | IZR ?z => constr:(QArith_base.inject_Z z)
  end.

Ltac is_numeral e :=
  lazymatch e with
  | IZR ?z => idtac
  | (IZR ?n / IZR (Zpos ?d))%R => idtac
  end.

(** Proves an equation between closed expressions with [Rmin] and
    [Rmax]. *)
Ltac closed_eq :=
  unfold Rmin, Rmax;
  repeat match goal with
         | |- context [Rle_dec ?x ?y] => destruct (Rle_dec x y)
         end;
  try lra; try (field; lra).

Ltac normalize_closed e :=
  let q := reify_closed e in
  let v := eval vm_compute in (Qreduction.Qred q) in
  lazymatch v with
  | QArith_base.Qmake ?n 1%positive => replace e with (IZR n) by closed_eq
  | QArith_base.Qmake ?n ?d => replace e with (IZR n / IZR (Zpos d))%R by closed_eq
  end.

Ltac normalize_fin :=
  repeat match goal with
         | |- context [Fin ?e] =>
             tryif is_numeral e then fail else normalize_closed e
         end.

(** Closes an equation whose two sides are the same term; unlike
    [reflexivity] it never unfolds the reals to compare two terms. *)
Ltac same :=
  lazymatch goal with
  | |- ?x = ?y => constr_eq x y; exact (eq_refl x)
  end.

(** ** The sort *)

Section SortFacts.
Variable A : Type.
Variable comparefn : A -> A -> number.

Lemma sortInsert_perm (x : A) (l : list A) :
  Permutation (x :: l) (sortInsert comparefn x l).
Proof.
  induction l as [|y rest IH]; cbn [sortInsert].
  - apply Permutation_refl.
  - destruct (comparefn x y >? zero)%js.
    + apply perm_trans with (y :: x :: rest).
      * apply perm_swap.
      * apply perm_skip, IH.
    + apply Permutation_refl.
Qed.

Lemma Array_sort_perm (l : list A) :
  Permutation l (Array_sort comparefn l).
Proof.
  induction l as [|x rest IH]; simpl.
  - apply perm_nil.
  - apply perm_trans with (x :: Array_sort comparefn rest).
    + apply perm_skip, IH.
    + apply sortInsert_perm.
Qed.

End SortFacts.

(** The order on the entries that the sort of [normalizeCorners] yields
    when every radius is finite. *)
Section EntryOrder.

Lemma sortInsert_sorted (x : CornerId * number) (l : list (CornerId * number)) :
  finiteEntry x -> Forall finiteEntry l ->
  StronglySorted entryBefore l ->
  Forall (fun y => (enumIndex (fst x) < enumIndex (fst y))%nat) l ->
  StronglySorted entryBefore (sortInsert byRadiusDescending x l).
Proof.
  intros [rx Hx]. induction l as [|y rest IH]; intros Hfin Hs Hidx;
    cbn [sortInsert].
  - constructor; constructor.
  - inversion Hfin as [|? ? [ry Hy] Hfin']; subst.
    inversion Hs as [|? ? Hs' Hall]; subst.
    inversion Hidx as [|? ? Hxy Hidx']; subst.
    unfold byRadiusDescending at 1. rewrite Hx, Hy. simpl.
    unfold gt, lt, zero. destruct (Rltb 0 (ry + - rx)) eqn:C.
    + apply Rltb_true in C.
      constructor.
      * apply IH; assumption.
      * apply Permutation_Forall with (x :: rest).
        -- apply sortInsert_perm.
        -- constructor; [|assumption].
           left. rewrite Hx, Hy. simpl. apply Rltb_of. lra.
    + apply Rltb_false in C.
      constructor; [assumption|].
      assert (Hfirst : entryBefore x y).
      { unfold entryBefore. rewrite Hx, Hy. simpl. unfold gt, lt.
        destruct (Rltb ry rx) eqn:D; [now left|right].
        apply Rltb_false in D. split; [apply Reqb_of; lra | assumption]. }
      constructor; [assumption|].
      rewrite Forall_forall in *. intros z Hz.
      specialize (Hall z Hz). specialize (Hidx' z Hz).
      destruct (Hfin' z Hz) as [rz Hrz].
      unfold entryBefore in *. rewrite Hx, Hy, Hrz in *. simpl in *.
      unfold gt, lt in *.
      destruct Hall as [Hgt|[Heq _]].
      * apply Rltb_true in Hgt. left. apply Rltb_of. lra.
      * apply Reqb_true in Heq.
        destruct (Rltb rz rx) eqn:D; [now left|right].
        apply Rltb_false in D. split; [apply Reqb_of; lra | assumption].
Qed.

Lemma Array_sort_sorted (l : list (CornerId * number)) :
  Forall finiteEntry l ->
  StronglySorted (fun x y => (enumIndex (fst x) < enumIndex (fst y))%nat) l ->
  StronglySorted entryBefore (Array_sort byRadiusDescending l).
Proof.
  induction l as [|x rest IH]; intros Hfin Hs; simpl.
  - constructor.
  - inversion Hfin; subst. inversion Hs; subst.
    apply sortInsert_sorted; try assumption.
    + apply Permutation_Forall with rest; [apply Array_sort_perm | assumption].
    + apply IH; assumption.
    + apply Permutation_Forall with rest; [apply Array_sort_perm | assumption].
Qed.

End EntryOrder.

(** Two lists in strict order with the same elements are the same list. *)
Lemma sorted_perm_unique (A : Type) (before : A -> A -> Prop) :
  (forall x y, before x y -> before y x -> False) ->
  forall l1 l2 : list A,
    StronglySorted before l1 -> StronglySorted before l2 ->
    Permutation l1 l2 -> l1 = l2.
Proof.
  intros Hasym. induction l1 as [|x1 t1 IH]; intros l2 H1 H2 HP.
  - apply Permutation_nil in HP. now subst.
  - destruct l2 as [|x2 t2].
    + apply Permutation_sym, Permutation_nil in HP. discriminate.
    + inversion H1 as [|? ? H1' F1]; subst.
      inversion H2 as [|? ? H2' F2]; subst.
      assert (Hx : x1 = x2).
      { assert (I1 : In x1 (x2 :: t2))
          by (apply (Permutation_in _ HP); now left).
        assert (I2 : In x2 (x1 :: t1))
          by (apply (Permutation_in _ (Permutation_sym HP)); now left).
        destruct I1 as [E|I1]; [now symmetry|].
        destruct I2 as [E|I2]; [assumption|].
        rewrite Forall_forall in F1, F2.
        exfalso. apply (Hasym x1 x2); [apply F1 | apply F2]; assumption. }
      subst x2. f_equal.
      apply IH; try assumption.
      apply Permutation_cons_inv with x1. assumption.
Qed.

Lemma processedBefore_asym (requested : CornerId -> number) (c1 c2 : CornerId) :
  processedBefore requested c1 c2 -> processedBefore requested c2 c1 -> False.
Proof.
  unfold processedBefore, gt.
  destruct (requested c1) as [x| | |], (requested c2) as [y| | |]; simpl;
    intros [H1|[H1 I1]] [H2|[H2 I2]]; try discriminate; try lia;
    repeat match goal with
           | H : Rltb _ _ = true |- _ => apply Rltb_true in H
           | H : Reqb _ _ = true |- _ => apply Reqb_true in H
           end; lra.
Qed.

(** ** Corners and edges *)

Lemma CornerId_eqb_eq (x y : CornerId) : CornerId_eqb x y = true <-> x = y.
Proof. destruct x, y; simpl; split; intros; (reflexivity || discriminate). Qed.

Lemma CornerId_eqb_refl (x : CornerId) : CornerId_eqb x x = true.
Proof. now destruct x. Qed.

Lemma CornerId_eqb_neq (x y : CornerId) : CornerId_eqb x y = false <-> x <> y.
Proof.
  destruct x, y; simpl; split; intros; try reflexivity; try discriminate;
    congruence.
Qed.

Lemma CornerId_eq_dec (x y : CornerId) : {x = y} + {x <> y}.
Proof. decide equality. Defined.

(** Case analysis on the equality of two corners, the first a variable. *)
Ltac case_corner x y :=
  let E := fresh "E" in
  destruct (CornerId_eq_dec x y) as [E|E];
  [ subst x; rewrite ?CornerId_eqb_refl
  | rewrite ?(proj2 (CornerId_eqb_neq x y) E) ].

Lemma get_set (A : Type) (m : PerCorner.t A) (c x : CornerId) (v : A) :
  PerCorner.get (PerCorner.set m c v) x
  = if CornerId_eqb x c then v else PerCorner.get m x.
Proof. destruct c, x; reflexivity. Qed.

Lemma sharedEdge_sym (c n : CornerId) (side : EdgeOrientation) :
  sharedEdge c n = Some side -> sharedEdge n c = Some side.
Proof. destruct c, n; simpl; intros H; (discriminate || exact H). Qed.

Lemma sharedEdge_irrefl (c : CornerId) : sharedEdge c c = None.
Proof. now destruct c. Qed.

(** The table of the code lists, for each corner, the corners it shares an
    edge with, and that edge. *)
Lemma ADJACENT_RELATIONS_sharedEdge (c n : CornerId) (side : EdgeOrientation) :
  In (n, side) (ADJACENT_RELATIONS c) <-> sharedEdge c n = Some side.
Proof.
  destruct c, n, side; split; intros H; cbv in H |- *;
    repeat match goal with
           | H : _ \/ _ |- _ => destruct H
           | H : False |- _ => destruct H
           | H : (_, _) = (_, _) |- _ => discriminate H
           | H : Some _ = Some _ |- _ => discriminate H
           | H : None = Some _ |- _ => discriminate H
           end; auto.
Qed.

Lemma enumeration_complete (c : CornerId) : In c enumeration.
Proof. destruct c; simpl; auto. Qed.

(** Every corner has two neighbours: the two of the code's table, and the
    two the enumeration finds, in one order or the other. *)
Lemma two_neighbours (c : CornerId) :
  exists n1 s1 n2 s2,
    ADJACENT_RELATIONS c = [ (n1, s1); (n2, s2) ]
    /\ sharedEdge c n1 = Some s1
    /\ sharedEdge c n2 = Some s2
    /\ (forall n side, sharedEdge c n = Some side ->
        (n, side) = (n1, s1) \/ (n, side) = (n2, s2))
    /\ (forall (B : Type) (f : CornerId -> EdgeOrientation -> B),
        let found :=
          flat_map
            (fun n => match sharedEdge c n with
                      | Some side => [ f n side ]
                      | None => []
                      end)
            enumeration in
        found = [ f n1 s1; f n2 s2 ] \/ found = [ f n2 s2; f n1 s1 ]).
Proof.
  destruct c;
    [ exists topRight, top, bottomLeft, left
    | exists topLeft, top, bottomRight, right
    | exists bottomRight, bottom, topLeft, left
    | exists bottomLeft, bottom, topRight, right ];
    (repeat split; try reflexivity;
     [ intros n side; destruct n, side; cbv; intros E;
       (discriminate E || auto)
     | intros B f; cbv; auto ]).
Qed.

Lemma requestedRadius_spreadOf (w h : R) (req : CornerId -> R) (c : CornerId) :
  requestedRadius (spreadOf w h req) c = Fin (req c).
Proof. now destruct c. Qed.

(** ** One step of the solver *)

Section SolverStep.
Variables w h : R.
Variable req : CornerId -> R.
Hypothesis w_pos : (0 < w)%R.
Hypothesis h_pos : (0 < h)%R.
Hypothesis req_nonneg : forall c, (0 <= req c)%R.

Let requested : CornerId -> number := requestedRadius (spreadOf w h req).

Lemma len_pos (side : EdgeOrientation) : (0 < len w h side)%R.
Proof. destruct side; simpl; assumption. Qed.

Lemma edgeLength_Fin (side : EdgeOrientation) :
  edgeLength (Fin w) (Fin h) side = Fin (len w h side).
Proof. now destruct side. Qed.

Lemma proportional_share (r rn l : R) :
  (0 <= r)%R -> (0 <= rn)%R -> (0 < l)%R -> (r + rn <> 0)%R ->
  (0 <= r / (r + rn) * l <= l)%R
  /\ ((0 < r)%R -> (0 < r / (r + rn) * l)%R)
  /\ ((0 < rn)%R -> (r / (r + rn) * l < l)%R).
Proof.
  intros Hr Hn Hl Hs.
  assert (Hpos : (0 < r + rn)%R) by lra.
  assert (Hq : (r / (r + rn) * (r + rn) = r)%R) by (field; lra).
  set (q := (r / (r + rn))%R) in *.
  assert (Hq0 : (0 <= q)%R).
  { unfold q. apply Rmult_le_pos; [assumption|].
    left. now apply Rinv_0_lt_compat. }
  assert (Hq1 : (q <= 1)%R) by nra.
  repeat split; nra.
Qed.

Section OneCorner.
Variable processed : list CornerId.
Variable st : SolverState.
Variables rho beta : CornerId -> R.
Variable resolved : CornerId -> option number.
Hypothesis Hinv : solverInv w h req processed st rho beta.
Hypothesis Hsame : sameBudgets processed st resolved.
Variable c : CornerId.
Hypothesis c_pending : ~ In c processed.

(** What one neighbour leaves: a finite share, the one the specification
    describes. *)
Lemma adjacentShare_spec (n : CornerId) (side : EdgeOrientation) :
  sharedEdge c n = Some side ->
  exists t : R,
    adjacentShare (Fin w) (Fin h) st (Fin (req c)) (n, side) = Fin t
    /\ spec_share (Fin w) (Fin h) requested resolved c n side = Fin t
    /\ (0 <= t)%R
    /\ ((0 < req c)%R -> (0 < t)%R)
    /\ (In n processed -> (t + beta n <= len w h side)%R)
    /\ (~ In n processed ->
        (t <= len w h side)%R
        /\ ((0 < req n)%R -> (t < len w h side)%R)).
Proof.
  intros Hedge.
  pose proof (len_pos side) as Hlen.
  pose proof (req_nonneg c) as Hc.
  pose proof (req_nonneg n) as Hn.
  unfold adjacentShare, spec_share, requested.
  rewrite !requestedRadius_spreadOf.
  rewrite (inv_radius Hinv n), (inv_budget Hinv n), edgeLength_Fin.
  replace (match side with top | bottom => Fin w | _ => Fin h end)
    with (Fin (len w h side)) by now destruct side.
  destruct (in_dec CornerId_eq_dec n processed) as [Hin|Hout].
  - destruct (inv_resolved Hinv n Hin) as (Hb0 & Hrho & Hbpos).
    destruct (inv_room Hinv n c (sharedEdge_sym c n Hedge) Hin c_pending)
      as (Hroom & Hstrict).
    rewrite (proj1 (Hsame n) Hin), (inv_budget Hinv n).
    unfold strictEq, zero, ge, le. simpl.
    assert (Hzero : Reqb (rho n) 0 = Reqb (req n) 0).
    { rewrite Hrho. unfold Rmin. destruct (Rle_dec (req n) (beta n)).
      - reflexivity.
      - destruct (Req_dec_T (req n) 0) as [E|E].
        + rewrite E in *. lra.
        + rewrite (Reqb_not E). apply Reqb_not. specialize (Hbpos ltac:(lra)).
          lra. }
    rewrite Hzero. rewrite (Rleb_of Hb0).
    case_Reqb (req c) 0%R; case_Reqb (req n) 0%R; simpl.
    + exists 0%R. repeat split; intros; try contradiction; lra.
    + eexists; repeat split; try reflexivity; intros; try contradiction;
        try specialize (Hstrict ltac:(lra)); lra.
    + eexists; repeat split; try reflexivity; intros; try contradiction;
        try specialize (Hstrict ltac:(lra)); lra.
    + eexists; repeat split; try reflexivity; intros; try contradiction;
        try specialize (Hstrict ltac:(lra)); lra.
  - destruct (inv_pending Hinv n Hout) as (Hb & Hrho).
    rewrite (proj2 (Hsame n) Hout).
    rewrite Hrho, Hb.
    unfold strictEq, zero, ge, le. simpl.
    rewrite (@Rleb_not 0 (-1)) by lra.
    case_Reqb (req c) 0%R; case_Reqb (req n) 0%R; simpl.
    + exists 0%R. repeat split; intros; try contradiction; lra.
    + assert (Hs : (req c + req n <> 0)%R) by lra.
      rewrite (Reqb_not Hs). simpl.
      destruct (proportional_share Hc Hn Hlen Hs) as (Hb1 & Hb2 & Hb3).
      eexists; repeat split; try reflexivity; intros;
        try contradiction; auto; lra.
    + assert (Hs : (req c + req n <> 0)%R) by lra.
      rewrite (Reqb_not Hs). simpl.
      destruct (proportional_share Hc Hn Hlen Hs) as (Hb1 & Hb2 & Hb3).
      eexists; repeat split; try reflexivity; intros;
        try contradiction; auto; lra.
    + assert (Hs : (req c + req n <> 0)%R) by lra.
      rewrite (Reqb_not Hs). simpl.
      destruct (proportional_share Hc Hn Hlen Hs) as (Hb1 & Hb2 & Hb3).
      eexists; repeat split; try reflexivity; intros;
        try contradiction; auto; lra.
Qed.

(** The budget of the corner: finite, the specification's minimum, and
    small enough for every neighbour. *)
Lemma budget_spec :
  exists bmin : R,
    Math_min (map (adjacentShare (Fin w) (Fin h) st (Fin (req c)))
                (ADJACENT_RELATIONS c)) = Fin bmin
    /\ spec_budget (Fin w) (Fin h) requested resolved c = Fin bmin
    /\ (0 <= bmin)%R
    /\ ((0 < req c)%R -> (0 < bmin)%R)
    /\ (forall n side, sharedEdge c n = Some side ->
        (In n processed -> (bmin + beta n <= len w h side)%R)
        /\ (~ In n processed ->
            (bmin <= len w h side)%R
            /\ ((0 < req n)%R -> (bmin < len w h side)%R))).
Proof.
  assert (Hpair : forall n1 s1 n2 s2,
            sharedEdge c n1 = Some s1 -> sharedEdge c n2 = Some s2 ->
            (forall n side, sharedEdge c n = Some side ->
                            (n, side) = (n1, s1) \/ (n, side) = (n2, s2)) ->
            exists bmin : R,
              Math_min [adjacentShare (Fin w) (Fin h) st (Fin (req c)) (n1, s1);
                        adjacentShare (Fin w) (Fin h) st (Fin (req c)) (n2, s2)]
              = Fin bmin
              /\ Math_min
                   [spec_share (Fin w) (Fin h) requested resolved c n1 s1;
                    spec_share (Fin w) (Fin h) requested resolved c n2 s2]
                 = Fin bmin
              /\ Math_min
                   [spec_share (Fin w) (Fin h) requested resolved c n2 s2;
                    spec_share (Fin w) (Fin h) requested resolved c n1 s1]
                 = Fin bmin
              /\ (0 <= bmin)%R
              /\ ((0 < req c)%R -> (0 < bmin)%R)
              /\ (forall n side, sharedEdge c n = Some side ->
                  (In n processed -> (bmin + beta n <= len w h side)%R)
                  /\ (~ In n processed ->
                      (bmin <= len w h side)%R
                      /\ ((0 < req n)%R -> (bmin < len w h side)%R)))).
  { intros n1 s1 n2 s2 E1 E2 Hall.
    destruct (adjacentShare_spec n1 E1)
      as (t1 & C1 & S1 & P1 & Q1 & In1 & Out1).
    destruct (adjacentShare_spec n2 E2)
      as (t2 & C2 & S2 & P2 & Q2 & In2 & Out2).
    exists (Rmin t1 t2).
    rewrite C1, C2, S1, S2, !Math_min_pair, (Rmin_comm t2 t1).
    pose proof (Rmin_l t1 t2) as Hl. pose proof (Rmin_r t1 t2) as Hr.
    assert (Hcase : Rmin t1 t2 = t1 \/ Rmin t1 t2 = t2)
      by (unfold Rmin; destruct (Rle_dec t1 t2); auto).
    repeat split; try reflexivity.
    - destruct Hcase as [-> | ->]; assumption.
    - intros Hpos. destruct Hcase as [-> | ->]; auto.
    - intros Hin. destruct (Hall n side H) as [E|E]; inversion E; subst.
      + specialize (In1 Hin). lra.
      + specialize (In2 Hin). lra.
    - destruct (Hall n side H) as [E|E]; inversion E; subst.
      + destruct (Out1 H0). lra.
      + destruct (Out2 H0). lra.
    - intros Hpos. destruct (Hall n side H) as [E|E]; inversion E; subst.
      + destruct (Out1 H0) as [_ Hlt]. specialize (Hlt Hpos). lra.
      + destruct (Out2 H0) as [_ Hlt]. specialize (Hlt Hpos). lra. }
  destruct (two_neighbours c) as (n1 & s1 & n2 & s2 & T & E1 & E2 & Hall & F).
  destruct (Hpair n1 s1 n2 s2 E1 E2 Hall) as (bmin & M & S12 & S21 & rest).
  exists bmin. unfold spec_budget. rewrite T. cbn [map].
  split; [exact M|]. split; [|exact rest].
  destruct (F number (spec_share (Fin w) (Fin h) requested resolved c))
    as [-> | ->]; assumption.
Qed.

(** Resolving the corner keeps the invariant, and does what the
    specification's step does. *)
Lemma resolveCorner_inv :
  let st' := resolveCorner (Fin w) (Fin h) st (c, Fin (req c)) in
  exists rho' beta',
    solverInv w h req (c :: processed) st' rho' beta'
    /\ sameBudgets (c :: processed) st'
         (spec_resolve (Fin w) (Fin h) requested resolved c).
Proof.
  destruct budget_spec as (bmin & M & S & B0 & Bpos & Bn).
  cbv zeta. unfold resolveCorner. rewrite M, Math_min2_Fin.
  exists (fun x => if CornerId_eqb x c then Rmin (req c) bmin else rho x).
  exists (fun x => if CornerId_eqb x c then bmin else beta x).
  split.
  - constructor; cbn [radiusMap budgetMap].
    + intros x. rewrite get_set.
      case_corner x c; [reflexivity | apply (inv_radius Hinv)].
    + intros x. rewrite get_set.
      case_corner x c; [reflexivity | apply (inv_budget Hinv)].
    + intros x Hx. case_corner x c.
      * exfalso. apply Hx. now left.
      * apply (inv_pending Hinv). intros Hin. apply Hx. now right.
    + intros x Hx. case_corner x c.
      * auto.
      * apply (inv_resolved Hinv). destruct Hx; congruence.
    + intros x n side Hedge Hx Hn.
      assert (Hn' : ~ In n processed) by (intros Hin; apply Hn; now right).
      case_corner x c.
      * apply (Bn n side Hedge). assumption.
      * apply (inv_room Hinv x n Hedge); [destruct Hx; congruence | assumption].
    + intros x n side Hedge Hx Hn.
      case_corner x c; case_corner n c.
      * rewrite sharedEdge_irrefl in Hedge. discriminate.
      * apply (Bn n side Hedge). destruct Hn; congruence.
      * pose proof (proj1 (Bn x side (sharedEdge_sym _ _ Hedge))) as Hb.
        assert (Hin : In x processed) by (destruct Hx; congruence).
        specialize (Hb Hin). lra.
      * apply (inv_disjoint Hinv x n Hedge);
          [destruct Hx | destruct Hn]; congruence.
  - intros x. unfold spec_resolve. cbn [budgetMap]. rewrite get_set.
    case_corner x c.
    + split; [intros _; now rewrite S|].
      intros Hx. exfalso. apply Hx. now left.
    + split.
      * intros Hx. apply (proj1 (Hsame x)). destruct Hx; congruence.
      * intros Hx. apply (proj2 (Hsame x)). intros Hin. apply Hx. now right.
Qed.

End OneCorner.
End SolverStep.

(** ** The whole pass *)

Section SolverPass.
Variables w h : R.
Variable req : CornerId -> R.
Hypothesis w_pos : (0 < w)%R.
Hypothesis h_pos : (0 < h)%R.
Hypothesis req_nonneg : forall c, (0 <= req c)%R.

Let requested : CornerId -> number := requestedRadius (spreadOf w h req).

Lemma solver_fold (es : list (CornerId * number)) :
  forall processed st rho beta resolved,
    solverInv w h req processed st rho beta ->
    sameBudgets processed st resolved ->
    NoDup (map fst es) ->
    (forall e, In e es ->
               snd e = Fin (req (fst e)) /\ ~ In (fst e) processed) ->
    let st' := fold_left (resolveCorner (Fin w) (Fin h)) es st in
    let done := rev (map fst es) ++ processed in
    exists rho' beta',
      solverInv w h req done st' rho' beta'
      /\ sameBudgets done st'
           (fold_left (spec_resolve (Fin w) (Fin h) requested)
              (map fst es) resolved).
Proof.
  induction es as [|[c r] rest IH];
    intros processed st rho beta resolved Hinv Hsame Hnodup Hes; cbn zeta.
  - simpl. eauto.
  - cbn [fold_left map rev fst]. rewrite <- app_assoc. cbn [app].
    inversion Hnodup as [|? ? Hc Hnodup']; subst.
    destruct (Hes (c, r) (or_introl eq_refl)) as [Hr Hpending].
    cbn [fst snd] in Hr, Hpending. subst r.
    destruct (@resolveCorner_inv w h req w_pos h_pos req_nonneg processed st
                rho beta resolved Hinv Hsame c Hpending)
      as (rho1 & beta1 & Hinv1 & Hsame1).
    apply (IH (c :: processed) _ rho1 beta1 _ Hinv1 Hsame1 Hnodup').
    intros e He. destruct (Hes e (or_intror He)) as [Hr Hp].
    split; [assumption|].
    intros [E|Hin]; [|contradiction].
    apply Hc. rewrite E. now apply in_map.
Qed.

Lemma sorted_entries_requested (e : CornerId * number) :
  In e (sortedEntries (spreadOf w h req)) -> snd e = Fin (req (fst e)).
Proof.
  intros He. unfold sortedEntries in He.
  apply (Permutation_in _ (Permutation_sym (Array_sort_perm _ _))) in He.
  simpl in He.
  destruct He as [<-|[<-|[<-|[<-|[]]]]]; reflexivity.
Qed.

Lemma processingOrder_perm :
  Permutation enumeration (processingOrder (spreadOf w h req)).
Proof.
  unfold processingOrder, sortedEntries.
  change enumeration
    with (map fst (PerCorner.entries
                     (radiusMap (initialSolverState (spreadOf w h req))))).
  apply Permutation_map, Array_sort_perm.
Qed.

(** After the pass every corner is resolved. *)
Lemma solver_pass :
  exists rho beta,
    solverInv w h req (rev (processingOrder (spreadOf w h req))) (solveCorners (spreadOf w h req))
      rho beta
    /\ sameBudgets (rev (processingOrder (spreadOf w h req))) (solveCorners (spreadOf w h req))
         (spec_budgets (Fin w) (Fin h) requested (processingOrder (spreadOf w h req))).
Proof.
  unfold solveCorners, spec_budgets, processingOrder.
  destruct (@solver_fold (sortedEntries (spreadOf w h req)) []
              (initialSolverState (spreadOf w h req))
              req (fun _ => (-1)%R) (fun _ => None))
    as (rho & beta & Hinv & Hsame).
  - constructor; cbn [radiusMap budgetMap initialSolverState];
      try (intros; contradiction).
    + intros c; now destruct c.
    + intros c; now destruct c.
    + intros; split; reflexivity.
  - intros c. split; [intros [] | reflexivity].
  - apply (Permutation_NoDup processingOrder_perm).
    repeat constructor; simpl; intuition discriminate.
  - intros e He. split; [now apply sorted_entries_requested | intros []].
  - rewrite app_nil_r in Hinv, Hsame. exists rho, beta. split; assumption.
Qed.

Lemma all_processed (c : CornerId) : In c (rev (processingOrder (spreadOf w h req))).
Proof.
  apply in_rev. rewrite rev_involutive.
  apply (Permutation_in _ processingOrder_perm), enumeration_complete.
Qed.

Lemma processingOrder_sorted :
  StronglySorted (processedBefore requested) (processingOrder (spreadOf w h req)).
Proof.
  unfold processingOrder.
  assert (Hsorted : StronglySorted entryBefore
                      (sortedEntries (spreadOf w h req))).
  { apply Array_sort_sorted.
    - repeat constructor; eexists; reflexivity.
    - repeat constructor; simpl; lia. }
  assert (Hreq : forall e, In e (sortedEntries (spreadOf w h req)) ->
                           snd e = requested (fst e)).
  { intros e He. unfold requested. rewrite requestedRadius_spreadOf.
    now apply sorted_entries_requested. }
  induction Hsorted as [|e l Hl IH Hall]; simpl; constructor.
  - apply IH. intros; apply Hreq; now right.
  - rewrite Forall_forall in *. intros c Hc.
    apply in_map_iff in Hc. destruct Hc as (e' & <- & He').
    specialize (Hall e' He'). unfold entryBefore in Hall.
    unfold processedBefore.
    rewrite <- (Hreq e (or_introl eq_refl)), <- (Hreq e' (or_intror He')).
    exact Hall.
Qed.

End SolverPass.

(** A valid input is the spread of real radii over a real rectangle. *)
Lemma validSpread_spreadOf (input : CornerSpreadInput.t) :
  validSpread input ->
  exists (w h : R) (req : CornerId -> R),
    input = spreadOf w h req
    /\ (0 < w)%R /\ (0 < h)%R /\ (forall c, (0 <= req c)%R).
Proof.
  intros (w & h & tl & tr & br & bl & -> & Hw & Hh & H1 & H2 & H3 & H4).
  exists w, h,
    (fun c => match c with
              | topLeft => tl | topRight => tr
              | bottomLeft => bl | bottomRight => br
              end).
  repeat split; try assumption.
  intros c; destruct c; assumption.
Qed.

Lemma normalizeCorners_get (input : CornerSpreadInput.t) (c : CornerId) :
  PerCorner.get (normalizeCorners input) c
  = CornerProfile.mk (PerCorner.get (radiusMap (solveCorners input)) c)
                     (PerCorner.get (budgetMap (solveCorners input)) c).
Proof. now destruct c. Qed.

(** ** C1: adjacent radii fit on their edge *)

(** C1.  For every solver input of the data model (width and height
    positive, no negative radius) and every two corners sharing an edge,
    the radii resolved by [normalizeCorners] are finite numbers whose sum
    is at most the length of that edge: the width for the top and bottom
    edges, the height for the left and right ones. *)
Theorem adjacent_radii_fit (input : CornerSpreadInput.t)
  (c1 c2 : CornerId) (side : EdgeOrientation) :
  validSpread input ->
  sharedEdge c1 c2 = Some side ->
  let corners := normalizeCorners input in
  (CornerProfile.radius (PerCorner.get corners c1)
   + CornerProfile.radius (PerCorner.get corners c2)
   <=? edgeLength (CornerSpreadInput.width input)
         (CornerSpreadInput.height input) side)%js = true.
Proof.
  intros Hvalid Hedge corners. subst corners.
  destruct (validSpread_spreadOf Hvalid)
    as (w & h & req & -> & Hw & Hh & Hreq).
  destruct (@solver_pass w h req Hw Hh Hreq) as (rho & beta & Hinv & _).
  rewrite !normalizeCorners_get. cbn [CornerProfile.radius].
  rewrite (inv_radius Hinv c1), (inv_radius Hinv c2).
  destruct (inv_resolved Hinv c1 (all_processed w h req c1))
    as (B1 & R1 & _).
  destruct (inv_resolved Hinv c2 (all_processed w h req c2))
    as (B2 & R2 & _).
  pose proof (inv_disjoint Hinv c1 c2 Hedge (all_processed w h req c1)
                (all_processed w h req c2)) as Hsum.
  cbn [spreadOf CornerSpreadInput.width CornerSpreadInput.height].
  rewrite edgeLength_Fin. cbn [add le].
  apply Rleb_of. rewrite R1, R2.
  pose proof (Rmin_r (req c1) (beta c1)).
  pose proof (Rmin_r (req c2) (beta c2)). lra.
Qed.

Lemma exampleSpread_valid : validSpread exampleSpread.
Proof.
  exists 100%R, 40%R, 90%R, 60%R, 0%R, 10%R. repeat split; lra.
Qed.

Lemma adjacent_radii_fit_witness :
  validSpread exampleSpread
  /\ sharedEdge topLeft topRight = Some top
  /\ (CornerProfile.radius (PerCorner.get (normalizeCorners exampleSpread) topLeft)
      + CornerProfile.radius
          (PerCorner.get (normalizeCorners exampleSpread) topRight)
      <=? Fin 100)%js = true.
Proof.
  split; [exact exampleSpread_valid|]. split; [reflexivity|].
  exact (@adjacent_radii_fit exampleSpread topLeft topRight top
           exampleSpread_valid eq_refl).
Defined.

(** ** C2: the pass is the one the specification describes *)

(** C2.  On every solver input of the data model, [normalizeCorners]
    visits the corners in the order the specification asks for (descending
    requested radius, ties in the order topLeft, topRight, bottomLeft,
    bottomRight), that order is the only one that fits the description,
    and every corner gets the budget and the radius of the specification's
    procedure: the minimum over its two neighbours of 0 (both requested
    radii 0), the edge length minus the neighbour's budget (neighbour
    already resolved) or the proportional split, and the requested radius
    clamped to that budget. *)
Theorem solver_follows_spec (input : CornerSpreadInput.t) :
  validSpread input ->
  let requested := requestedRadius input in
  spec_processingOrder requested (processingOrder input)
  /\ forall order : list CornerId,
       spec_processingOrder requested order ->
       order = processingOrder input
       /\ forall c : CornerId,
            spec_corner (CornerSpreadInput.width input)
              (CornerSpreadInput.height input) requested order c
            = Some (PerCorner.get (normalizeCorners input) c).
Proof.
  intros Hvalid requested. subst requested.
  destruct (validSpread_spreadOf Hvalid)
    as (w & h & req & -> & Hw & Hh & Hreq).
  assert (Hcode : spec_processingOrder (requestedRadius (spreadOf w h req))
                    (processingOrder (spreadOf w h req))).
  { split; [apply processingOrder_perm | apply processingOrder_sorted]. }
  split; [exact Hcode|].
  intros order [Hperm Hsorted].
  assert (Horder : order = processingOrder (spreadOf w h req)).
  { apply sorted_perm_unique
      with (before := processedBefore (requestedRadius (spreadOf w h req))).
    - apply processedBefore_asym.
    - assumption.
    - apply Hcode.
    - apply perm_trans with enumeration;
        [now apply Permutation_sym | apply processingOrder_perm]. }
  split; [exact Horder|]. subst order.
  intros c.
  destruct (@solver_pass w h req Hw Hh Hreq) as (rho & beta & Hinv & Hsame).
  unfold spec_corner.
  cbn [spreadOf CornerSpreadInput.width CornerSpreadInput.height].
  change (CornerSpreadInput.mk (Fin (req topLeft)) (Fin (req topRight))
            (Fin (req bottomRight)) (Fin (req bottomLeft)) (Fin w) (Fin h))
    with (spreadOf w h req).
  rewrite (proj1 (Hsame c) (all_processed w h req c)).
  rewrite normalizeCorners_get. f_equal. f_equal.
  rewrite requestedRadius_spreadOf, (inv_radius Hinv c), (inv_budget Hinv c).
  rewrite Math_min2_Fin.
  destruct (inv_resolved Hinv c (all_processed w h req c)) as (_ & -> & _).
  reflexivity.
Qed.

Lemma solver_follows_spec_witness :
  validSpread exampleSpread
  /\ spec_processingOrder (requestedRadius exampleSpread)
       (processingOrder exampleSpread)
  /\ forall order : list CornerId,
       spec_processingOrder (requestedRadius exampleSpread) order ->
       order = processingOrder exampleSpread
       /\ forall c : CornerId,
            spec_corner (Fin 100) (Fin 40) (requestedRadius exampleSpread)
              order c
            = Some (PerCorner.get (normalizeCorners exampleSpread) c).
Proof.
  split; [exact exampleSpread_valid|].
  exact (@solver_follows_spec exampleSpread exampleSpread_valid).
Defined.

(** ** The solver on concrete inputs *)

Ltac solver_unfold :=
  cbn [add sub mul div neg lt le gt ge strictEq truthy Math_min2 Math_max2
       zero one signedInf
       fold_left fold_right map fst snd sortInsert Array_sort andb orb negb
       CornerSpreadInput.width CornerSpreadInput.height
       CornerSpreadInput.topLeftCornerRadius
       CornerSpreadInput.topRightCornerRadius
       CornerSpreadInput.bottomLeftCornerRadius
       CornerSpreadInput.bottomRightCornerRadius
       radiusMap budgetMap PerCorner.entries
       PerCorner.atTopLeft PerCorner.atTopRight PerCorner.atBottomLeft
       PerCorner.atBottomRight
       ADJACENT_RELATIONS PerCorner.get PerCorner.set initialSolverState
       CornerProfile.radius CornerProfile.roundingAndSmoothingBudget].

Ltac solver_eval := repeat (solver_unfold; decide_real).

(** Runs the innermost pending step of the loop. *)
Ltac solver_step :=
  match goal with
  | |- context [resolveCorner ?w ?h (mkSolver ?rm ?bm) ?e] =>
      let E := fresh "E" in
      eassert (E : resolveCorner w h (mkSolver rm bm) e = _);
      [ unfold resolveCorner, adjacentShare, Math_min; solver_eval;
        normalize_fin; reflexivity
      | rewrite E; clear E ]
  end.

(** Evaluates [normalizeCorners] on an input given by its numerals. *)
Ltac solver_run :=
  unfold normalizeCorners, solveCorners, sortedEntries, initialSolverState,
    byRadiusDescending;
  solver_eval; repeat solver_step; solver_eval.

(** The example: the corners are visited in the order topLeft, topRight,
    bottomLeft, bottomRight and get the radii 36, 40, 4 and 0. *)
Example normalizeCorners_example :
  normalizeCorners exampleSpread
  = PerCorner.mk (CornerProfile.mk (Fin 36) (Fin 36))
                 (CornerProfile.mk (Fin 40) (Fin 40))
                 (CornerProfile.mk (Fin 4) (Fin 4))
                 (CornerProfile.mk (Fin 0) (Fin 0)).
Proof. unfold exampleSpread. solver_run. reflexivity. Qed.


(** Radii 10, 0, 5 and 20 (top left, top right, bottom right, bottom left)
    in a square of side 100: the sharp corner is left a budget of
    200/3. *)
Example normalizeCorners_sharp_with_room :
  normalizeCorners
    (CornerSpreadInput.mk (Fin 10) (Fin 0) (Fin 5) (Fin 20) (Fin 100) (Fin 100))
  = PerCorner.mk (CornerProfile.mk (Fin 10) (Fin (100 / 3)))
                 (CornerProfile.mk (Fin 0) (Fin (200 / 3)))
                 (CornerProfile.mk (Fin 20) (Fin (200 / 3)))
                 (CornerProfile.mk (Fin 5) (Fin (100 / 3))).
Proof. solver_run. reflexivity. Qed.

(** ** The corner profile *)

(** Evaluates the arithmetic of numbers on finite arguments, deciding the
    comparisons of reals by [lra]. *)
Ltac js_arith :=
  repeat (cbn [add sub mul div neg lt le gt ge strictEq truthy zero one
               Math_sin Math_cos Math_tan Math_PI Math_SQRT2
               negb andb orb];
          decide_real).


Ltac unfold_profile :=
  unfold cornerProfile, spec_cornerProfile, degToRad, spec_rad;
  cbn [BezierPatchInput.cornerRadius BezierPatchInput.cornerSmoothing
       BezierPatchInput.preserveSmoothing
       BezierPatchInput.roundingAndSmoothingBudget].

Ltac patch_fields :=
  cbn [BezierPatch.a BezierPatch.b BezierPatch.c BezierPatch.d BezierPatch.p
       BezierPatch.cornerRadius BezierPatch.arcSectionLength].

Ltac patch_fields_in H1 H2 :=
  cbn [BezierPatch.a BezierPatch.b BezierPatch.c BezierPatch.d BezierPatch.p
       BezierPatch.cornerRadius BezierPatch.arcSectionLength] in H1, H2.

(** On a miss [computeCornerProfile] returns the patch it computes and
    caches it under its key; on a hit it returns the cached patch. *)
Lemma computeCornerProfile_miss (input : BezierPatchInput.t) (caches : Caches) :
  JSMap.get (cornerProfileCacheKey input) (CORNER_PROFILE_CACHE caches) = None ->
  computeCornerProfile input caches
  = (cornerProfile input,
     mkCaches (PATH_CACHE_MAP caches)
       (JSMap.set (cornerProfileCacheKey input) (cornerProfile input)
          (CORNER_PROFILE_CACHE caches))).
Proof.
  intros Hmiss. unfold computeCornerProfile, bind, readCaches.
  rewrite Hmiss. reflexivity.
Qed.

Lemma computeCornerProfile_hit (input : BezierPatchInput.t) (caches : Caches)
  (cached : BezierPatch.t) :
  JSMap.get (cornerProfileCacheKey input) (CORNER_PROFILE_CACHE caches)
  = Some cached ->
  computeCornerProfile input caches = (cached, caches).
Proof.
  intros Hhit. unfold computeCornerProfile, bind, readCaches.
  rewrite Hhit. reflexivity.
Qed.

(** ** C4: a corner that keeps its smoothing is fitted to its budget *)

(** C4.  For a corner computed with [preserveSmoothing] whose extent
    [(1 + smoothing) * radius] exceeds its budget, the patch keeps [c],
    [d] and the arc length of the same corner computed with all the room
    it asks for, [b] is the smaller of that corner's [b] and five sixths of
    [budget - d - arcSectionLength - c], [a] is the rest of that length,
    [p] is the budget, and [a + b + c + d + arcSectionLength] is the
    budget. *)
Theorem preserved_smoothing_fits (radius smoothing budget : R) :
  (budget < (1 + smoothing) * radius)%R ->
  let patch :=
    cornerProfile
      (BezierPatchInput.mk (Fin radius) (Fin smoothing) true (Fin budget)) in
  let roomy :=
    cornerProfile
      (BezierPatchInput.mk (Fin radius) (Fin smoothing) true
         (Fin ((1 + smoothing) * radius))) in
  let rest :=
    (Fin budget - BezierPatch.d patch - BezierPatch.arcSectionLength patch
     - BezierPatch.c patch)%js in
  BezierPatch.c patch = BezierPatch.c roomy
  /\ BezierPatch.d patch = BezierPatch.d roomy
  /\ BezierPatch.arcSectionLength patch = BezierPatch.arcSectionLength roomy
  /\ BezierPatch.b patch
     = Math_min2 (BezierPatch.b roomy) (Fin (5 / 6) * rest)%js
  /\ BezierPatch.a patch = (rest - BezierPatch.b patch)%js
  /\ BezierPatch.p patch = Fin budget
  /\ (extentOf patch === Fin budget)%js = true.
Proof.
  intros Hover patch roomy rest. subst patch roomy rest.
  unfold extentOf. unfold_profile. js_arith. patch_fields.
  rewrite !Math_min2_Fin. js_arith. rewrite ?Math_min2_Fin.
  repeat split; try same.
  - f_equal. f_equal. field.
  - f_equal. unfold Rmin. destruct (Rle_dec _ _); lra.
Qed.

Lemma preserved_smoothing_fits_witness :
  (15 < (1 + 1) * 10)%R
  /\ BezierPatch.p
       (cornerProfile
          (BezierPatchInput.mk (Fin 10) (Fin 1) true (Fin 15))) = Fin 15
  /\ (extentOf
        (cornerProfile
           (BezierPatchInput.mk (Fin 10) (Fin 1) true (Fin 15)))
      === Fin 15)%js = true.
Proof.
  assert (H : (15 < (1 + 1) * 10)%R) by lra.
  split; [exact H|].
  pose proof (@preserved_smoothing_fits 10 1 15 H) as T.
  cbv zeta in T.
  split; [apply T | apply T].
Defined.

(** ** C3: the derivation of the profile *)

(** C3, as the code has it.  Whenever [preserveSmoothing] is false, or
    the extent [(1 + smoothing) * radius] does not exceed the budget, the
    computed patch is the one of the specification's derivation:
    [p = (1 + s) * radius]; without [preserveSmoothing], [s] clamped to
    [min(s, budget / radius - 1)] and [p] to the budget; then the arc, [c],
    [d], [b = (p - arcChord - c - d) / 3] and [a = 2b]. *)
Theorem profile_follows_derivation (input : BezierPatchInput.t) :
  BezierPatchInput.preserveSmoothing input = false
  \/ (((one + BezierPatchInput.cornerSmoothing input)
       * BezierPatchInput.cornerRadius input
       >? BezierPatchInput.roundingAndSmoothingBudget input)%js = false) ->
  cornerProfile input
  = spec_cornerProfile (BezierPatchInput.cornerRadius input)
      (BezierPatchInput.cornerSmoothing input)
      (BezierPatchInput.roundingAndSmoothingBudget input)
      (BezierPatchInput.preserveSmoothing input).
Proof.
  destruct input as [radius smoothing preserve budget]. unfold_profile.
  intros [-> | Hfits].
  - reflexivity.
  - destruct preserve; [|reflexivity].
    cbn [negb andb]. rewrite Hfits. reflexivity.
Qed.

Lemma profile_follows_derivation_witness :
  (((one + Fin (3 / 5)) * Fin 10 >? Fin 20)%js = false)
  /\ cornerProfile (BezierPatchInput.mk (Fin 10) (Fin (3 / 5)) true (Fin 20))
     = spec_cornerProfile (Fin 10) (Fin (3 / 5)) (Fin 20) true.
Proof.
  assert (H : ((one + Fin (3 / 5)) * Fin 10 >? Fin 20)%js = false)
    by (js_arith; reflexivity).
  split; [exact H|].
  exact (@profile_follows_derivation
           (BezierPatchInput.mk (Fin 10) (Fin (3 / 5)) true (Fin 20))
           (or_intror H)).
Defined.

(** C3 as stated fails where [preserveSmoothing] is true and the corner
    overruns its budget: radius 10, smoothing 1, budget 10 (a positive
    radius, a smoothing in [0, 1], a budget no smaller than the radius).
    The derivation gives [p = (1 + 1) * 10 = 20]; the code returns
    [p = 10]. *)
Lemma profile_derivation_counterexample :
  BezierPatch.p (spec_cornerProfile (Fin 10) (Fin 1) (Fin 10) true) = Fin 20
  /\ BezierPatch.p
       (cornerProfile (BezierPatchInput.mk (Fin 10) (Fin 1) true (Fin 10)))
     = Fin 10.
Proof.
  unfold_profile. js_arith. patch_fields.
  rewrite !Math_min2_Fin. normalize_fin.
  split; reflexivity.
Qed.

(** The sine of the arc is taken of the angle in radians: applied to the
    number of degrees as it stands, it gives another arc length.  Radius 1,
    smoothing 44/45 (an arc of 2 degrees, half of it 1 degree), budget
    2. *)
Remark arc_sine_takes_radians :
  BezierPatch.arcSectionLength
    (cornerProfile
       (BezierPatchInput.mk (Fin 1) (Fin (44 / 45)) false (Fin 2)))
  = Fin (sin (PI / 180) * sqrt 2)
  /\ spec_arcChord_unconverted (Fin 1) (Fin (44 / 45)) = Fin (sin 1 * sqrt 2)
  /\ (sin (PI / 180) * sqrt 2 < sin 1 * sqrt 2)%R.
Proof.
  unfold spec_arcChord_unconverted. unfold_profile. js_arith. patch_fields.
  rewrite !Math_min2_Fin. js_arith.
  replace (Rmin (44 / 45) (2 / 1 + - (1))) with (44 / 45)%R
    by (unfold Rmin; destruct (Rle_dec _ _); lra).
  replace (90 * (1 + - (44 / 45)) / 2 * PI / 180)%R with (PI / 180)%R
    by field.
  replace (90 * (1 + - (44 / 45)) / 2)%R with 1%R by field.
  rewrite !Rmult_1_r.
  split; [reflexivity|]. split; [reflexivity|].
  pose proof PI2_1 as H1. pose proof PI_RGT_0 as H0. pose proof PI_4 as H4.
  apply Rmult_lt_compat_r.
  - apply sqrt_lt_R0. lra.
  - apply sin_increasing_1; lra.
Qed.

(** ** C10: the profile of a corner of radius 0 *)


(** The division [budget / cornerRadius] leaves the finite numbers only
    at a radius of 0. *)
Lemma budget_ratio_finite (budget radius : R) :
  radius <> 0%R -> (Fin budget / Fin radius)%js = Fin (budget / radius).
Proof. apply div_Fin. Qed.




(** The extent of the patch computed on a miss, read off the code. *)
Lemma cornerProfile_p (input : BezierPatchInput.t) :
  BezierPatch.p (cornerProfile input)
  = let p :=
      ((one + BezierPatchInput.cornerSmoothing input)
       * BezierPatchInput.cornerRadius input)%js in
    let budget := BezierPatchInput.roundingAndSmoothingBudget input in
    if BezierPatchInput.preserveSmoothing input then
      if (p >? budget)%js then Math_min2 p budget else p
    else Math_min2 p budget.
Proof.
  destruct input as [radius smoothing preserve budget]. unfold_profile.
  cbv zeta. destruct preserve; cbn [negb andb].
  - destruct ((one + smoothing) * radius >? budget)%js; reflexivity.
  - reflexivity.
Qed.

(** The patch keeps the radius it was computed for. *)
Lemma cornerProfile_cornerRadius (input : BezierPatchInput.t) :
  BezierPatch.cornerRadius (cornerProfile input)
  = BezierPatchInput.cornerRadius input.
Proof.
  destruct input as [radius smoothing preserve budget]. unfold_profile.
  cbv zeta. destruct preserve; cbn [negb andb].
  - destruct ((one + smoothing) * radius >? budget)%js; reflexivity.
  - reflexivity.
Qed.

(** The patch computed for a radius of 0 and a budget that is not
    negative: its radius is falsy and its extent is 0. *)
Lemma sharp_profile_extent (s budget : R) (preserve : bool) :
  (0 <= budget)%R ->
  let patch :=
    cornerProfile (BezierPatchInput.mk zero (Fin s) preserve (Fin budget)) in
  truthy (BezierPatch.cornerRadius patch) = false
  /\ BezierPatch.p patch = Fin 0.
Proof.
  intros Hbudget patch. subst patch.
  rewrite cornerProfile_cornerRadius, cornerProfile_p.
  cbn [BezierPatchInput.cornerRadius BezierPatchInput.cornerSmoothing
       BezierPatchInput.preserveSmoothing
       BezierPatchInput.roundingAndSmoothingBudget].
  cbv zeta. unfold zero. cbn [one add mul gt lt truthy].
  rewrite Math_min2_Fin, Rmult_0_r, (Rmin_left 0 budget) by lra.
  rewrite (Reqb_of (eq_refl 0%R)), (Rltb_not (x := budget) (y := 0)) by lra.
  split; [reflexivity|]. destruct preserve; reflexivity.
Qed.

(** ** The path assembler *)

Lemma commandLetters_app (s t : text) :
  commandLetters (s ++ t) = commandLetters s ++ commandLetters t.
Proof. unfold commandLetters. apply flat_map_app. Qed.

(** The trace of a corner: a cubic, an arc, a cubic when the radius is
    truthy, a lone relative line otherwise. *)
Lemma trace_commands (patch : BezierPatch.t) :
  let letters :=
    if truthy (BezierPatch.cornerRadius patch)
    then [ "c"; "a"; "c" ]%char else [ "l"%char ] in
  commandLetters (traceTopRight patch) = letters
  /\ commandLetters (traceBottomRight patch) = letters
  /\ commandLetters (traceBottomLeft patch) = letters
  /\ commandLetters (traceTopLeft patch) = letters.
Proof.
  destruct patch as [a b c d p r arc]. cbn [BezierPatch.cornerRadius].
  unfold traceTopRight, traceBottomRight, traceBottomLeft, traceTopLeft.
  destruct (truthy r); repeat split; reflexivity.
Qed.

(** Every number of a trace goes through [toFixed(4)]. *)
Lemma trace_numbers_fixed (patch : BezierPatch.t) :
  Forall fourDecimals (traceTopRight patch)
  /\ Forall fourDecimals (traceBottomRight patch)
  /\ Forall fourDecimals (traceBottomLeft patch)
  /\ Forall fourDecimals (traceTopLeft patch).
Proof.
  destruct patch as [a b c d p r arc].
  unfold traceTopRight, traceBottomRight, traceBottomLeft, traceTopLeft.
  destruct (truthy r); cbn [formatSegment];
    repeat split; repeat constructor.
Qed.

(** The numbers of a rounded corner's trace: the control offsets of the
    first cubic, the radius twice and the arc length twice, the control
    offsets of the second cubic. *)
Lemma rounded_trace_numbers (patch : BezierPatch.t) :
  truthy (BezierPatch.cornerRadius patch) = true ->
  let '(BezierPatch.mk a b c d _ r arc) := patch in
  numbersOf (traceTopRight patch)
  = map (Fixed 4)
      [ a; a + b; a + b + c; d; r; r; arc; arc;
        d; c; d; b + c; d; a + b + c ]%js
  /\ numbersOf (traceBottomRight patch)
     = map (Fixed 4)
         [ a; a + b; - d; a + b + c; r; r; arc; arc;
           - c; d; - (b + c); d; - (a + b + c); d ]%js
  /\ numbersOf (traceBottomLeft patch)
     = map (Fixed 4)
         [ - a; - (a + b); - (a + b + c); - d; r; r; arc; arc;
           - d; - c; - d; - (b + c); - d; - (a + b + c) ]%js
  /\ numbersOf (traceTopLeft patch)
     = map (Fixed 4)
         [ - a; - (a + b); d; - (a + b + c); r; r; arc; arc;
           c; - d; b + c; - d; a + b + c; - d ]%js.
Proof.
  destruct patch as [a b c d p r arc]. cbn [BezierPatch.cornerRadius].
  intros Hr.
  unfold traceTopRight, traceBottomRight, traceBottomLeft, traceTopLeft.
  rewrite Hr. repeat split; reflexivity.
Qed.

(** The trace of a sharp corner: one relative line of length [p] along
    the direction of travel. *)
Lemma sharp_trace (patch : BezierPatch.t) :
  truthy (BezierPatch.cornerRadius patch) = false ->
  traceTopRight patch = [ Lit "l "; Fixed 4 (BezierPatch.p patch); Lit " 0" ]
  /\ traceBottomRight patch
     = [ Lit "l 0 "; Fixed 4 (BezierPatch.p patch); Lit "" ]
  /\ traceBottomLeft patch
     = [ Lit "l "; Fixed 4 (- BezierPatch.p patch)%js; Lit " 0" ]
  /\ traceTopLeft patch
     = [ Lit "l 0 "; Fixed 4 (- BezierPatch.p patch)%js; Lit "" ].
Proof.
  destruct patch as [a b c d p r arc].
  cbn [BezierPatch.cornerRadius BezierPatch.p]. intros Hr.
  unfold traceTopRight, traceBottomRight, traceBottomLeft, traceTopLeft.
  rewrite Hr. repeat split; reflexivity.
Qed.

Lemma commandLetters_cons (q : piece) (t : text) :
  commandLetters (q :: t) = commandLetters [q] ++ commandLetters t.
Proof. unfold commandLetters. cbn [flat_map]. now rewrite app_nil_r. Qed.

(** The segments of the path, joined by spaces. *)
Lemma joinCornerProfiles_segments (input : PathParamsInput.t) :
  let width := PathParamsInput.width input in
  let height := PathParamsInput.height input in
  let tl := PathParamsInput.topLeftPathParams input in
  let tr := PathParamsInput.topRightPathParams input in
  let bl := PathParamsInput.bottomLeftPathParams input in
  let br := PathParamsInput.bottomRightPathParams input in
  joinCornerProfiles input
  = [ Lit "M "; Plain (width - BezierPatch.p tr)%js; Lit " 0" ]
    ++ Lit " " :: traceTopRight tr
    ++ Lit " "
       :: [ Lit "L "; Plain width; Lit " ";
            Plain (height - BezierPatch.p br)%js ]
    ++ Lit " " :: traceBottomRight br
    ++ Lit " "
       :: [ Lit "L "; Plain (BezierPatch.p bl); Lit " "; Plain height ]
    ++ Lit " " :: traceBottomLeft bl
    ++ Lit " " :: [ Lit "L 0 "; Plain (BezierPatch.p tl) ]
    ++ Lit " " :: traceTopLeft tl
    ++ Lit " " :: [ Lit "Z" ].
Proof. intros. reflexivity. Qed.

(** Whatever the four patches and the coordinates, the outline has the
    same nine parts. *)
Lemma outline_of_segments (tr br bl tl : BezierPatch.t)
  (x0 x1 y1 x2 y2 y3 : number) :
  outlineParts
    (commandLetters
       ([ Lit "M "; Plain x0; Lit " 0" ]
        ++ Lit " " :: traceTopRight tr
        ++ Lit " " :: [ Lit "L "; Plain x1; Lit " "; Plain y1 ]
        ++ Lit " " :: traceBottomRight br
        ++ Lit " " :: [ Lit "L "; Plain x2; Lit " "; Plain y2 ]
        ++ Lit " " :: traceBottomLeft bl
        ++ Lit " " :: [ Lit "L 0 "; Plain y3 ]
        ++ Lit " " :: traceTopLeft tl
        ++ Lit " " :: [ Lit "Z" ]))
  = Some [ Start; CornerTrace; StraightEdge; CornerTrace; StraightEdge;
           CornerTrace; StraightEdge; CornerTrace; ClosePath ].
Proof.
  repeat (rewrite ?commandLetters_app;
          rewrite ?(commandLetters_cons _ (_ :: _));
          rewrite ?(commandLetters_cons _ (_ ++ _))).
  destruct (trace_commands tr) as (-> & _ & _ & _).
  destruct (trace_commands br) as (_ & -> & _ & _).
  destruct (trace_commands bl) as (_ & _ & -> & _).
  destruct (trace_commands tl) as (_ & _ & _ & ->).
  destruct (truthy (BezierPatch.cornerRadius tr)),
    (truthy (BezierPatch.cornerRadius br)),
    (truthy (BezierPatch.cornerRadius bl)),
    (truthy (BezierPatch.cornerRadius tl)); reflexivity.
Qed.

(** ** C5: the outline *)

(** C5, as the code has it.  The path is one outline: it starts at
    [(width - topRight.p, 0)], then come the top-right trace, the right
    edge to [(width, height - bottomRight.p)], the bottom-right trace, the
    bottom edge to [(bottomLeft.p, height)], the bottom-left trace, the
    left edge to [(0, topLeft.p)], the top-left trace and the close
    command, which draws the top edge.  The coordinates of the start and
    of the three edges are interpolated as they are; every number of a
    trace is printed with four decimals.  When the corner's radius is
    truthy its trace is a cubic with control offsets [(a, 0)],
    [(a + b, 0)] and end [(a + b + c, d)] (for the top right corner), an
    arc of radii [cornerRadius] whose end is offset by [arcSectionLength]
    along both axes, and the cubic that mirrors the first, with offsets
    [(d, c)], [(d, b + c)] and [(d, a + b + c)]; the other three corners
    have the same numbers with the signs of their direction.  Otherwise
    the trace is one relative line of length [p] along the direction of
    travel, and [p] is 0 for the patch computed for a radius of 0 and a
    budget that is not negative. *)
Theorem outline_structure (input : PathParamsInput.t) :
  let width := PathParamsInput.width input in
  let height := PathParamsInput.height input in
  let topLeft := PathParamsInput.topLeftPathParams input in
  let topRight := PathParamsInput.topRightPathParams input in
  let bottomLeft := PathParamsInput.bottomLeftPathParams input in
  let bottomRight := PathParamsInput.bottomRightPathParams input in
  let path := joinCornerProfiles input in
  path
  = [ Lit "M "; Plain (width - BezierPatch.p topRight)%js; Lit " 0" ]
    ++ Lit " " :: traceTopRight topRight
    ++ Lit " "
       :: [ Lit "L "; Plain width; Lit " ";
            Plain (height - BezierPatch.p bottomRight)%js ]
    ++ Lit " " :: traceBottomRight bottomRight
    ++ Lit " "
       :: [ Lit "L "; Plain (BezierPatch.p bottomLeft); Lit " ";
            Plain height ]
    ++ Lit " " :: traceBottomLeft bottomLeft
    ++ Lit " " :: [ Lit "L 0 "; Plain (BezierPatch.p topLeft) ]
    ++ Lit " " :: traceTopLeft topLeft
    ++ Lit " " :: [ Lit "Z" ]
  /\ outlineParts (commandLetters path)
     = Some [ Start; CornerTrace; StraightEdge; CornerTrace; StraightEdge;
              CornerTrace; StraightEdge; CornerTrace; ClosePath ]
  /\ Forall fourDecimals (traceTopRight topRight)
  /\ Forall fourDecimals (traceBottomRight bottomRight)
  /\ Forall fourDecimals (traceBottomLeft bottomLeft)
  /\ Forall fourDecimals (traceTopLeft topLeft)
  /\ (forall patch : BezierPatch.t,
        In patch [ topLeft; topRight; bottomLeft; bottomRight ] ->
        if truthy (BezierPatch.cornerRadius patch) then
          commandLetters (traceTopRight patch) = [ "c"; "a"; "c" ]%char
          /\ commandLetters (traceBottomRight patch) = [ "c"; "a"; "c" ]%char
          /\ commandLetters (traceBottomLeft patch) = [ "c"; "a"; "c" ]%char
          /\ commandLetters (traceTopLeft patch) = [ "c"; "a"; "c" ]%char
          /\ (let a := BezierPatch.a patch in
              let b := BezierPatch.b patch in
              let c := BezierPatch.c patch in
              let d := BezierPatch.d patch in
              let r := BezierPatch.cornerRadius patch in
              let arc := BezierPatch.arcSectionLength patch in
              traceTopRight patch
              = [ Lit (nl ++ "    c "); Fixed 4 a; Lit " 0 ";
                  Fixed 4 (a + b)%js; Lit " 0 "; Fixed 4 (a + b + c)%js;
                  Lit " "; Fixed 4 d;
                  Lit (nl ++ "    a "); Fixed 4 r; Lit " "; Fixed 4 r;
                  Lit " 0 0 1 "; Fixed 4 arc; Lit " "; Fixed 4 arc;
                  Lit (nl ++ "    c "); Fixed 4 d; Lit " "; Fixed 4 c;
                  Lit (nl ++ "        "); Fixed 4 d; Lit " ";
                  Fixed 4 (b + c)%js;
                  Lit (nl ++ "        "); Fixed 4 d; Lit " ";
                  Fixed 4 (a + b + c)%js; Lit "" ]
              /\ numbersOf (traceBottomRight patch)
                 = map (Fixed 4)
                     [ a; a + b; - d; a + b + c; r; r; arc; arc;
                       - c; d; - (b + c); d; - (a + b + c); d ]%js
              /\ numbersOf (traceBottomLeft patch)
                 = map (Fixed 4)
                     [ - a; - (a + b); - (a + b + c); - d; r; r; arc; arc;
                       - d; - c; - d; - (b + c); - d; - (a + b + c) ]%js
              /\ numbersOf (traceTopLeft patch)
                 = map (Fixed 4)
                     [ - a; - (a + b); d; - (a + b + c); r; r; arc; arc;
                       c; - d; b + c; - d; a + b + c; - d ]%js)
        else
          traceTopRight patch
          = [ Lit "l "; Fixed 4 (BezierPatch.p patch); Lit " 0" ]
          /\ traceBottomRight patch
             = [ Lit "l 0 "; Fixed 4 (BezierPatch.p patch); Lit "" ]
          /\ traceBottomLeft patch
             = [ Lit "l "; Fixed 4 (- BezierPatch.p patch)%js; Lit " 0" ]
          /\ traceTopLeft patch
             = [ Lit "l 0 "; Fixed 4 (- BezierPatch.p patch)%js; Lit "" ])
  /\ (forall (smoothing budget : R) (preserveSmoothing : bool),
        (0 <= budget)%R ->
        let patch :=
          cornerProfile
            (BezierPatchInput.mk zero (Fin smoothing) preserveSmoothing
               (Fin budget)) in
        truthy (BezierPatch.cornerRadius patch) = false
        /\ BezierPatch.p patch = Fin 0
        /\ traceTopRight patch = [ Lit "l "; Fixed 4 (Fin 0); Lit " 0" ]).
Proof.
  intros width height tl tr bl br path. subst path.
  pose proof (joinCornerProfiles_segments input) as Hpath. cbv zeta in Hpath.
  split; [exact Hpath|].
  split; [rewrite Hpath; apply outline_of_segments|].
  split; [apply trace_numbers_fixed|].
  split; [apply trace_numbers_fixed|].
  split; [apply trace_numbers_fixed|].
  split; [apply trace_numbers_fixed|].
  split.
  - intros patch _.
    destruct (truthy (BezierPatch.cornerRadius patch)) eqn:Hr.
    + pose proof (trace_commands patch) as H. cbv zeta in H.
      rewrite Hr in H. destruct H as (H1 & H2 & H3 & H4).
      split; [exact H1|]. split; [exact H2|]. split; [exact H3|].
      split; [exact H4|].
      pose proof (rounded_trace_numbers patch Hr) as Hnumbers.
      destruct patch as [a b c d p r arc].
      cbn [BezierPatch.a BezierPatch.b BezierPatch.c BezierPatch.d
           BezierPatch.cornerRadius BezierPatch.arcSectionLength] in *.
      cbv zeta. destruct Hnumbers as (_ & N2 & N3 & N4).
      split; [|split; [exact N2 | split; [exact N3 | exact N4]]].
      unfold traceTopRight. rewrite Hr. reflexivity.
    + now apply sharp_trace.
  - intros smoothing budget preserveSmoothing Hbudget patch.
    destruct (@sharp_profile_extent smoothing budget preserveSmoothing
                Hbudget) as [Hr Hp].
    fold patch in Hr, Hp.
    split; [exact Hr|]. split; [exact Hp|].
    destruct (sharp_trace patch Hr) as (Htrace & _).
    rewrite Htrace, Hp. reflexivity.
Qed.

(** C5 as stated fails on a rectangle of width 200.03125 and height 100
    with four sharp corners: the outline has nine parts, not the ten of
    the specification's list (no straight edge comes between the start and
    the top-right trace), and the abscissa of the start is printed as it
    is, with its five decimals. *)
Lemma outline_counterexample :
  let path := joinCornerProfiles exampleSharpOutline in
  outlineParts (commandLetters path)
  = Some [ Start; CornerTrace; StraightEdge; CornerTrace; StraightEdge;
           CornerTrace; StraightEdge; CornerTrace; ClosePath ]
  /\ List.length spec_outline = 10%nat
  /\ In (Plain (Fin (200 + 1 / 32) - zero)%js) path
  /\ (Fin (200 + 1 / 32) - zero)%js = Fin (200 + 1 / 32 + - 0)
  /\ ~ fourDecimals (Plain (Fin (200 + 1 / 32) - zero)%js).
Proof.
  cbv zeta.
  pose proof (joinCornerProfiles_segments exampleSharpOutline) as Hpath.
  cbv zeta in Hpath.
  split; [rewrite Hpath; apply outline_of_segments|].
  split; [reflexivity|].
  split; [rewrite Hpath; right; left; reflexivity|].
  split; [reflexivity|].
  intros [n Hn]. cbn [sub add neg zero] in Hn.
  injection Hn as Hn.
  assert (H : IZR (2 * n) = IZR 4000625).
  { rewrite mult_IZR. lra. }
  apply eq_IZR in H. lia.
Qed.

(** ** The map *)

Section MapFacts.
Variable V : Type.
Implicit Types (m : JSMap.t V) (key : string) (value : V).

Lemma has_In key m : JSMap.has key m = true <-> In key (JSMap.keys m).
Proof.
  unfold JSMap.has. induction m as [|[k v] rest IH]; simpl.
  - split; [discriminate | contradiction].
  - destruct (String.eqb k key) eqn:E.
    + apply String.eqb_eq in E. split; auto.
    + apply String.eqb_neq in E. rewrite IH. split; [auto|].
      intros [H|H]; [contradiction | assumption].
Qed.

Lemma has_false_In key m : JSMap.has key m = false <-> ~ In key (JSMap.keys m).
Proof.
  rewrite <- has_In. destruct (JSMap.has key m); split; intros;
    congruence.
Qed.

Lemma keys_set key value m :
  JSMap.keys (JSMap.set key value m)
  = if JSMap.has key m then JSMap.keys m else JSMap.keys m ++ [key].
Proof.
  unfold JSMap.has. induction m as [|[k v] rest IH]; simpl.
  - reflexivity.
  - destruct (String.eqb k key) eqn:E; simpl.
    + reflexivity.
    + rewrite IH. destruct (JSMap.get key rest); reflexivity.
Qed.

Lemma get_set_same key value m :
  JSMap.get key (JSMap.set key value m) = Some value.
Proof.
  induction m as [|[k v] rest IH]; simpl.
  - now rewrite String.eqb_refl.
  - destruct (String.eqb k key) eqn:E; simpl; rewrite E; auto.
Qed.

Lemma get_set_other key key' value m :
  key' <> key ->
  JSMap.get key' (JSMap.set key value m) = JSMap.get key' m.
Proof.
  intros Hne. induction m as [|[k v] rest IH]; simpl.
  - apply String.eqb_neq in Hne. rewrite String.eqb_sym in Hne.
    now rewrite Hne.
  - destruct (String.eqb k key) eqn:E; simpl.
    + apply String.eqb_eq in E. subst k.
      assert (E' : String.eqb key key' = false)
        by (apply String.eqb_neq; congruence).
      now rewrite E'.
    + destruct (String.eqb k key'); auto.
Qed.

Lemma size_keys m : JSMap.size m = List.length (JSMap.keys m).
Proof. unfold JSMap.size, JSMap.keys. now rewrite length_map. Qed.

(** Deleting the first key drops the first entry. *)
Lemma delete_first m k v rest :
  m = (k, v) :: rest -> JSMap.delete k m = rest.
Proof. intros ->. simpl. now rewrite String.eqb_refl. Qed.

Lemma get_not_key key m :
  ~ In key (JSMap.keys m) -> JSMap.get key m = None.
Proof.
  intros H. apply has_false_In in H. unfold JSMap.has in H.
  destruct (JSMap.get key m); [discriminate | reflexivity].
Qed.

End MapFacts.

(** ** C9: the path cache *)

(** What one store does to the keys, oldest first. *)
Lemma storeCachedPath_keys (key : string) (value : text) (cache : JSMap.t text) :
  JSMap.keys (storeCachedPath key value cache)
  = if JSMap.has key cache then JSMap.keys cache
    else if (PATH_CACHE_LIMIT <=? JSMap.size cache)%nat
         then tl (JSMap.keys cache) ++ [key]
         else JSMap.keys cache ++ [key].
Proof.
  unfold storeCachedPath.
  destruct (JSMap.has key cache) eqn:Hhas.
  - rewrite andb_false_r. rewrite keys_set, Hhas. reflexivity.
  - rewrite andb_true_r.
    destruct (PATH_CACHE_LIMIT <=? JSMap.size cache)%nat eqn:Hfull.
    + destruct cache as [|[k v] rest].
      * simpl. reflexivity.
      * unfold JSMap.firstKey. cbn [JSMap.keys map fst].
        rewrite (@delete_first _ ((k, v) :: rest) k v rest eq_refl).
        rewrite keys_set. cbn [tl].
        assert (Hrest : JSMap.has key rest = false).
        { apply has_false_In. apply has_false_In in Hhas.
          intros Hin. apply Hhas. simpl. now right. }
        now rewrite Hrest.
    + rewrite keys_set, Hhas. reflexivity.
Qed.

Lemma storeCachedPath_get (key : string) (value : text) (cache : JSMap.t text) :
  JSMap.get key (storeCachedPath key value cache) = Some value.
Proof. unfold storeCachedPath. apply get_set_same. Qed.

Lemma storeAll_app (xs ys : list (string * text)) (cache : JSMap.t text) :
  storeAll (xs ++ ys) cache = storeAll ys (storeAll xs cache).
Proof. unfold storeAll. apply fold_left_app. Qed.

(** Below the limit, the keys pile up in the order they are stored. *)
Lemma storeAll_keys_below (entries : list (string * text)) :
  forall cache : JSMap.t text,
    NoDup (JSMap.keys cache ++ map fst entries) ->
    (JSMap.size cache + List.length entries <= PATH_CACHE_LIMIT)%nat ->
    JSMap.keys (storeAll entries cache) = JSMap.keys cache ++ map fst entries.
Proof.
  induction entries as [|[k v] rest IH]; intros cache Hnodup Hsize.
  - simpl. now rewrite app_nil_r.
  - cbn [storeAll fold_left fst snd map] in *.
    change (fold_left _ rest ?c) with (storeAll rest c).
    assert (Hk : JSMap.has k cache = false).
    { apply has_false_In. intros Hin.
      apply NoDup_remove_2 in Hnodup. apply Hnodup.
      apply in_or_app. now left. }
    assert (Hkeys : JSMap.keys (storeCachedPath k v cache)
                    = JSMap.keys cache ++ [k]).
    { rewrite storeCachedPath_keys, Hk.
      destruct (PATH_CACHE_LIMIT <=? JSMap.size cache)%nat eqn:E;
        [|reflexivity].
      apply Nat.leb_le in E. simpl in Hsize. lia. }
    rewrite IH.
    + rewrite Hkeys, <- app_assoc. reflexivity.
    + rewrite Hkeys, <- app_assoc. exact Hnodup.
    + rewrite size_keys, Hkeys, length_app, <- size_keys. simpl in *. lia.
Qed.

(** C9.  The path cache holds at most 160 entries and evicts in the order
    of insertion: storing under a key already present changes no key;
    storing a new key below the limit appends it; storing a new key at the
    limit drops the oldest key, and only that one, and appends the new
    one; the stored value is then read back, the keys stay distinct and
    the size stays within 160.  Storing 161 distinct keys into the empty
    cache leaves all of them but the first, in their order. *)
Theorem path_cache_fifo :
  PATH_CACHE_LIMIT = 160%nat
  /\ (forall (key : string) (value : text) (cache : JSMap.t text),
        NoDup (JSMap.keys cache) ->
        let cache' := storeCachedPath key value cache in
        (JSMap.has key cache = true ->
         JSMap.keys cache' = JSMap.keys cache)
        /\ (JSMap.has key cache = false ->
            (JSMap.size cache < 160)%nat ->
            JSMap.keys cache' = JSMap.keys cache ++ [key])
        /\ (JSMap.has key cache = false ->
            (160 <= JSMap.size cache)%nat ->
            JSMap.keys cache' = tl (JSMap.keys cache) ++ [key])
        /\ readCachedPath key cache' = Some value
        /\ NoDup (JSMap.keys cache')
        /\ ((JSMap.size cache <= 160)%nat -> (JSMap.size cache' <= 160)%nat))
  /\ (forall entries : list (string * text),
        NoDup (map fst entries) ->
        List.length entries = 161%nat ->
        JSMap.keys (storeAll entries (JSMap.empty text))
        = tl (map fst entries)).
Proof.
  split; [reflexivity|]. split.
  - intros key value cache Hnodup cache'. subst cache'.
    pose proof (storeCachedPath_keys key value cache) as Hkeys.
    change PATH_CACHE_LIMIT with 160%nat in Hkeys.
    split; [intros H; now rewrite Hkeys, H|].
    split.
    { intros H Hlt. rewrite Hkeys, H.
      destruct (160 <=? JSMap.size cache)%nat eqn:E; [|reflexivity].
      apply Nat.leb_le in E. lia. }
    split.
    { intros H Hge. rewrite Hkeys, H.
      apply Nat.leb_le in Hge. now rewrite Hge. }
    split; [apply storeCachedPath_get|].
    assert (Hnew : JSMap.has key cache = false ->
                   NoDup (JSMap.keys cache ++ [key])).
    { intros H. apply has_false_In in H.
      apply NoDup_app; [assumption | repeat constructor; auto | ].
      intros x Hx [<-|[]]. contradiction. }
    split.
    + rewrite Hkeys. destruct (JSMap.has key cache) eqn:H; [assumption|].
      specialize (Hnew eq_refl).
      destruct (160 <=? JSMap.size cache)%nat; [|assumption].
      destruct (JSMap.keys cache) as [|k ks]; [assumption|].
      cbn [tl]. simpl in Hnew. now inversion Hnew.
    + intros Hsize. rewrite !size_keys in *. rewrite Hkeys.
      destruct (JSMap.has key cache); [assumption|].
      destruct (160 <=? List.length (JSMap.keys cache))%nat eqn:E.
      * destruct (JSMap.keys cache) as [|k ks]; simpl in *;
          rewrite ?length_app; simpl; lia.
      * apply Nat.leb_gt in E. rewrite length_app. simpl. lia.
  - intros entries Hnodup Hlen.
    destruct (@exists_last _ entries) as (front & [k v] & ->).
    { intros ->. discriminate. }
    rewrite length_app in Hlen. simpl in Hlen.
    rewrite map_app in Hnodup. cbn [map fst] in Hnodup.
    rewrite storeAll_app.
    assert (Hfront : JSMap.keys (storeAll front (JSMap.empty text))
                     = map fst front).
    { rewrite storeAll_keys_below.
      - reflexivity.
      - simpl. now apply NoDup_app_remove_r in Hnodup.
      - change PATH_CACHE_LIMIT with 160%nat. simpl. lia. }
    cbn [storeAll fold_left fst snd].
    rewrite storeCachedPath_keys.
    assert (Hk : JSMap.has k (storeAll front (JSMap.empty text)) = false).
    { apply has_false_In. rewrite Hfront. intros Hin.
      apply NoDup_remove_2 in Hnodup. apply Hnodup.
      rewrite app_nil_r. assumption. }
    rewrite Hk, size_keys, Hfront, length_map.
    change PATH_CACHE_LIMIT with 160%nat.
    replace (160 <=? List.length front)%nat with true
      by (symmetry; apply Nat.leb_le; lia).
    rewrite map_app. cbn [map fst].
    destruct front as [|e front']; [simpl in Hlen; lia|]. reflexivity.
Qed.

(** ** The path builder *)

Ltac input_fields :=
  cbn [SquirclePathInput.cornerRadius SquirclePathInput.topLeftCornerRadius
       SquirclePathInput.topRightCornerRadius
       SquirclePathInput.bottomRightCornerRadius
       SquirclePathInput.bottomLeftCornerRadius
       SquirclePathInput.cornerSmoothing SquirclePathInput.width
       SquirclePathInput.height SquirclePathInput.preserveSmoothing] in *.

(** A request whose key holds a cached path that is not empty gets that
    path; the caches are left as they are. *)
Lemma buildSquirclePath_hit (input : SquirclePathInput.t) (caches : Caches)
  (cached : text) :
  cacheHit (readCachedPath (requestKey input) (PATH_CACHE_MAP caches))
  = Some cached ->
  buildSquirclePath input caches = (cached, caches).
Proof.
  destruct input as [r tl tr br bl s w h preserve].
  unfold requestKey, effectiveRadius. input_fields. intros Hhit.
  unfold buildSquirclePath, bind, readCaches. input_fields.
  cbv beta iota zeta. rewrite Hhit. reflexivity.
Qed.

(** The caches after [path] is stored under the key of [input]. *)
Lemma store_after (input : SquirclePathInput.t) (path : text) (caches : Caches) :
  (let store (path : text) : Cached text :=
     caches <- readCaches ;;
     _ <- writePathCache
            (storeCachedPath (requestKey input) path (PATH_CACHE_MAP caches)) ;;
     ret path in
   store path caches)
  = (path,
     mkCaches (storeCachedPath (requestKey input) path (PATH_CACHE_MAP caches))
       (CORNER_PROFILE_CACHE caches)).
Proof. reflexivity. Qed.

(** ** C6: four equal radii *)

(** C6.  When the four radii asked for are equal and the path cache has
    no path under the request's key, the solver is not run.  For a common
    radius of 0 the path is the rectangle [M w 0 L w h L 0 h L 0 0 Z]: a
    start, three lines and a close, through the four corners of
    [0, w] x [0, h].  Otherwise the budget is [min(w, h) / 2], the radius
    is the smaller of the radius asked for and that budget, one patch is
    computed for them and serves the four corners.  In both cases the path
    is stored under the key. *)
Theorem equal_radii_shortcut (input : SquirclePathInput.t) (caches : Caches) :
  let width := SquirclePathInput.width input in
  let height := SquirclePathInput.height input in
  let radius := effectiveRadius input topLeft in
  let stored (path : text) (c : Caches) :=
    mkCaches (storeCachedPath (requestKey input) path (PATH_CACHE_MAP c))
      (CORNER_PROFILE_CACHE c) in
  (radius === effectiveRadius input topRight)%js
  && (effectiveRadius input topRight === effectiveRadius input bottomRight)%js
  && (effectiveRadius input bottomRight === effectiveRadius input bottomLeft)%js
  && (effectiveRadius input bottomLeft === radius)%js = true ->
  cacheHit (readCachedPath (requestKey input) (PATH_CACHE_MAP caches)) = None ->
  if (radius === zero)%js then
    let rectanglePath :=
      [ Lit "M "; Plain width; Lit " 0 L "; Plain width; Lit " ";
        Plain height; Lit " L 0 "; Plain height; Lit " L 0 0 Z" ] in
    buildSquirclePath input caches
    = (rectanglePath, stored rectanglePath caches)
    /\ commandLetters rectanglePath = [ "M"; "L"; "L"; "L"; "Z" ]%char
  else
    let budget := (Math_min2 width height / Fin 2)%js in
    let clamped := Math_min2 radius budget in
    let (patch, caches') :=
      computeCornerProfile
        (BezierPatchInput.mk clamped
           (SquirclePathInput.cornerSmoothing input)
           (orDefault (SquirclePathInput.preserveSmoothing input) false)
           budget)
        caches in
    let path :=
      joinCornerProfiles
        (PathParamsInput.mk width height patch patch patch patch) in
    buildSquirclePath input caches = (path, stored path caches').
Proof.
  destruct input as [r tl tr br bl s w h preserve].
  unfold requestKey, effectiveRadius. input_fields. cbv zeta.
  intros Hequal Hmiss.
  unfold buildSquirclePath. input_fields.
  unfold bind, readCaches, ret, writePathCache. cbv beta iota zeta.
  rewrite Hmiss, Hequal.
  destruct (orDefault tl (orDefault r zero) === zero)%js.
  - split; reflexivity.
  - destruct (computeCornerProfile _ caches) as [patch caches'].
    reflexivity.
Qed.

Lemma equal_radii_shortcut_witness :
  ((effectiveRadius exampleSharpRequest topLeft
    === effectiveRadius exampleSharpRequest topRight)%js
   && (effectiveRadius exampleSharpRequest topRight
       === effectiveRadius exampleSharpRequest bottomRight)%js
   && (effectiveRadius exampleSharpRequest bottomRight
       === effectiveRadius exampleSharpRequest bottomLeft)%js
   && (effectiveRadius exampleSharpRequest bottomLeft
       === effectiveRadius exampleSharpRequest topLeft)%js
   = true)
  /\ cacheHit (readCachedPath (requestKey exampleSharpRequest)
                 (PATH_CACHE_MAP noCaches))
     = None
  /\ fst (buildSquirclePath exampleSharpRequest noCaches)
     = [ Lit "M "; Plain (Fin 100); Lit " 0 L "; Plain (Fin 100); Lit " ";
         Plain (Fin 40); Lit " L 0 "; Plain (Fin 40); Lit " L 0 0 Z" ]
  /\ ((effectiveRadius exampleRequest topLeft
       === effectiveRadius exampleRequest topRight)%js
      && (effectiveRadius exampleRequest topRight
          === effectiveRadius exampleRequest bottomRight)%js
      && (effectiveRadius exampleRequest bottomRight
          === effectiveRadius exampleRequest bottomLeft)%js
      && (effectiveRadius exampleRequest bottomLeft
          === effectiveRadius exampleRequest topLeft)%js
      = true)
  /\ cacheHit (readCachedPath (requestKey exampleRequest)
                 (PATH_CACHE_MAP noCaches))
     = None
  /\ fst (buildSquirclePath exampleRequest noCaches)
     = joinCornerProfiles
         (PathParamsInput.mk (Fin 100) (Fin 40)
            (cornerProfile
               (BezierPatchInput.mk (Fin 12) (Fin (3 / 5)) false (Fin 20)))
            (cornerProfile
               (BezierPatchInput.mk (Fin 12) (Fin (3 / 5)) false (Fin 20)))
            (cornerProfile
               (BezierPatchInput.mk (Fin 12) (Fin (3 / 5)) false (Fin 20)))
            (cornerProfile
               (BezierPatchInput.mk (Fin 12) (Fin (3 / 5)) false (Fin 20)))).
Proof.
  assert (Hzero : (zero === zero)%js = true)
    by (cbn [strictEq zero]; apply Reqb_of; reflexivity).
  assert (Hequal :
    (effectiveRadius exampleSharpRequest topLeft
     === effectiveRadius exampleSharpRequest topRight)%js
    && (effectiveRadius exampleSharpRequest topRight
        === effectiveRadius exampleSharpRequest bottomRight)%js
    && (effectiveRadius exampleSharpRequest bottomRight
        === effectiveRadius exampleSharpRequest bottomLeft)%js
    && (effectiveRadius exampleSharpRequest bottomLeft
        === effectiveRadius exampleSharpRequest topLeft)%js
    = true).
  { unfold effectiveRadius, exampleSharpRequest. input_fields.
    cbn [orDefault]. rewrite Hzero. reflexivity. }
  assert (Hmiss :
    cacheHit (readCachedPath (requestKey exampleSharpRequest)
                (PATH_CACHE_MAP noCaches))
    = None) by (unfold noCaches; reflexivity).
  split; [exact Hequal|]. split; [exact Hmiss|].
  split.
  { pose proof (@equal_radii_shortcut exampleSharpRequest noCaches Hequal
                  Hmiss) as T.
    cbv zeta in T.
    change (effectiveRadius exampleSharpRequest topLeft) with zero in T.
    rewrite Hzero in T. destruct T as [T _]. rewrite T. reflexivity. }
  assert (Htwelve : (Fin 12 === Fin 12)%js = true)
    by (cbn [strictEq]; apply Reqb_of; reflexivity).
  assert (Hround : (Fin 12 === zero)%js = false)
    by (cbn [strictEq zero]; apply Reqb_not; lra).
  assert (Hequal' :
    (effectiveRadius exampleRequest topLeft
     === effectiveRadius exampleRequest topRight)%js
    && (effectiveRadius exampleRequest topRight
        === effectiveRadius exampleRequest bottomRight)%js
    && (effectiveRadius exampleRequest bottomRight
        === effectiveRadius exampleRequest bottomLeft)%js
    && (effectiveRadius exampleRequest bottomLeft
        === effectiveRadius exampleRequest topLeft)%js
    = true).
  { unfold effectiveRadius, exampleRequest. input_fields.
    cbn [orDefault]. rewrite Htwelve. reflexivity. }
  assert (Hmiss' :
    cacheHit (readCachedPath (requestKey exampleRequest)
                (PATH_CACHE_MAP noCaches))
    = None) by (unfold noCaches; reflexivity).
  split; [exact Hequal'|]. split; [exact Hmiss'|].
  pose proof (@equal_radii_shortcut exampleRequest noCaches Hequal' Hmiss')
    as T.
  cbv zeta in T.
  change (effectiveRadius exampleRequest topLeft) with (Fin 12) in T.
  rewrite Hround in T.
  rewrite computeCornerProfile_miss in T by reflexivity.
  rewrite T. cbn [fst].
  unfold exampleRequest. input_fields. cbn [orDefault].
  rewrite Math_min2_Fin, div_Fin by lra. rewrite Math_min2_Fin.
  replace (Rmin 100 40 / 2)%R with 20%R
    by (rewrite (Rmin_right 100 40) by lra; lra).
  rewrite (Rmin_left 12 20) by lra.
  same.
Defined.

(** ** The stroke *)

(** The smallest of the positive numbers of a list of finite radii. *)
Lemma positive_minimum (radii : list (option number)) :
  Forall finiteOption radii ->
  forall acc : R,
    (0 < acc)%R ->
    exists m : R,
      fold_left Math_min2 (positiveNumbers radii) (Fin acc) = Fin m
      /\ (0 < m <= acc)%R
      /\ (forall r, In (Some (Fin r)) radii -> (0 < r)%R -> (m <= r)%R)
      /\ (m = acc \/ In (Some (Fin m)) radii).
Proof.
  induction radii as [|radius rest IH]; intros Hfin acc Hacc.
  - exists acc. simpl. repeat split; try lra; auto. intros r [].
  - inversion Hfin as [|? ? Hhead Hrest]; subst.
    destruct radius as [[x| | |]|]; try contradiction;
      cbn [positiveNumbers gt lt zero].
    + destruct (Rltb 0 x) eqn:Hx.
      * apply Rltb_true in Hx. cbn [fold_left]. rewrite Math_min2_Fin.
        destruct (IH Hrest (Rmin acc x)) as (m & Hm & Hb & Hle & Hin).
        { unfold Rmin. destruct (Rle_dec acc x); lra. }
        exists m. split; [exact Hm|].
        pose proof (Rmin_l acc x). pose proof (Rmin_r acc x).
        split; [lra|]. split.
        -- intros r [E|Hr] Hpos; [injection E as <-; lra | auto].
        -- destruct Hin as [->|Hin]; [|right; now right].
           unfold Rmin. destruct (Rle_dec acc x); [now left|].
           right. now left.
      * apply Rltb_false in Hx.
        destruct (IH Hrest acc Hacc) as (m & Hm & Hb & Hle & Hin).
        exists m. split; [exact Hm|]. split; [lra|]. split.
        -- intros r [E|Hr] Hpos; [injection E as <-; lra | auto].
        -- destruct Hin as [->|Hin]; [now left | right; now right].
    + destruct (IH Hrest acc Hacc) as (m & Hm & Hb & Hle & Hin).
      exists m. split; [exact Hm|]. split; [lra|]. split.
      * intros r [E|Hr] Hpos; [discriminate | auto].
      * destruct Hin as [->|Hin]; [now left | right; now right].
Qed.

(** Without a positive radius in the list nothing is compared. *)
Lemma fold_min_PosInf (radii : list (option number)) :
  Forall finiteOption radii ->
  positiveNumbers radii = []
  \/ exists (x : R) (rest : list (option number)),
       (0 < x)%R /\ In (Some (Fin x)) radii
       /\ Math_min (positiveNumbers radii)
          = fold_left Math_min2 (positiveNumbers rest) (Fin x)
       /\ Forall finiteOption rest
       /\ (forall r, In (Some (Fin r)) radii ->
                     r = x \/ (r <= 0)%R \/ In (Some (Fin r)) rest)
       /\ (forall r, In (Some (Fin r)) rest -> In (Some (Fin r)) radii).
Proof.
  induction radii as [|radius rest IH]; intros Hfin.
  - now left.
  - inversion Hfin as [|? ? Hhead Hrest]; subst.
    destruct radius as [[x| | |]|]; try contradiction;
      cbn [positiveNumbers gt lt zero].
    + destruct (Rltb 0 x) eqn:Hx.
      * apply Rltb_true in Hx. right. exists x, rest.
        split; [assumption|]. split; [now left|].
        split; [reflexivity|]. split; [assumption|]. split.
        -- intros r [E|Hr]; [injection E as <-; now left | auto].
        -- intros r Hr. now right.
      * apply Rltb_false in Hx.
        destruct (IH Hrest) as [Hnil | (y & rest' & Hy & Hin & Hmin & Hf & Hcov & Hsub)].
        -- now left.
        -- right. exists y, rest'. split; [assumption|].
           split; [now right|]. split; [exact Hmin|]. split; [assumption|].
           split.
           ++ intros r [E|Hr]; [injection E as <-; auto | auto].
           ++ intros r Hr. right. auto.
    + destruct (IH Hrest) as [Hnil | (y & rest' & Hy & Hin & Hmin & Hf & Hcov & Hsub)].
      * now left.
      * right. exists y, rest'. split; [assumption|].
        split; [now right|]. split; [exact Hmin|]. split; [assumption|].
        split.
        -- intros r [E|Hr]; [discriminate | auto].
        -- intros r Hr. right. auto.
Qed.

(** The clamped stroke width: positive, at most the width asked for, at
    most every positive radius of the list, and one of those numbers. *)
Lemma clampStrokeWidth_finite (params : RoundedSurfaceOptions.t) (sw : R) :
  RoundedSurfaceOptions.borderWidth params = Some (Fin sw) ->
  (0 < sw)%R ->
  Forall finiteOption (listedRadii params) ->
  exists m : R,
    clampStrokeWidth params = Fin m
    /\ (0 < m <= sw)%R
    /\ (forall r, In (Some (Fin r)) (listedRadii params) ->
                  (0 < r)%R -> (m <= r)%R)
    /\ (m = sw \/ In (Some (Fin m)) (listedRadii params)).
Proof.
  intros Hborder Hsw Hfin. unfold clampStrokeWidth. rewrite Hborder.
  cbn [orDefault]. unfold zero. rewrite Math_max2_Fin.
  rewrite (Rmax_right 0 sw) by lra.
  destruct (fold_min_PosInf Hfin)
    as [Hnil | (x & rest & Hx & Hin & Hmin & Hf & Hcov & Hsub)].
  - rewrite Hnil. cbn [List.length Nat.ltb Nat.leb]. rewrite Math_min2_Fin.
    exists sw. rewrite Rmin_left by lra.
    split; [reflexivity|]. split; [lra|]. split; [|now left].
    intros r Hr Hpos. exfalso.
    clear - Hnil Hr Hpos. induction (listedRadii params) as [|o l IH].
    + contradiction.
    + destruct Hr as [-> | Hr].
      * cbn [positiveNumbers gt lt zero] in Hnil.
        rewrite (Rltb_of Hpos) in Hnil. discriminate.
      * apply IH; [|assumption].
        destruct o as [v|]; cbn [positiveNumbers] in Hnil; [|assumption].
        destruct (v >? zero)%js; [discriminate | assumption].
  - assert (Hlen : (0 <? List.length (positiveNumbers (listedRadii params)))%nat
                   = true).
    { clear - Hin Hx. induction (listedRadii params) as [|o l IH].
      - contradiction.
      - destruct Hin as [-> | Hin].
        + cbn [positiveNumbers gt lt zero]. rewrite (Rltb_of Hx). reflexivity.
        + destruct o as [v|]; cbn [positiveNumbers]; auto.
          destruct (v >? zero)%js; auto. }
    rewrite Hlen, Hmin.
    destruct (positive_minimum Hf Hx) as (m & Hm & Hb & Hle & Hor).
    rewrite Hm, Math_min2_Fin.
    exists (Rmin sw m).
    pose proof (Rmin_l sw m). pose proof (Rmin_r sw m).
    assert (Hcase : Rmin sw m = sw \/ Rmin sw m = m)
      by (unfold Rmin; destruct (Rle_dec sw m); auto).
    split; [reflexivity|]. split.
    { split; [apply Rmin_glb_lt; lra | lra]. }
    split.
    + intros r Hr Hpos.
      destruct (Hcov r Hr) as [-> | [Hneg | Hrest]]; try lra.
      specialize (Hle r Hrest Hpos). lra.
    + destruct Hcase as [E | E]; [now left|]. right. rewrite E.
      destruct Hor as [-> | Hor]; auto.
Qed.

(** The backdrop of a measured frame with a border. *)
Lemma SquircleBackdrop_stroked (frame : MeasuredFrame.t)
  (params : RoundedSurfaceOptions.t) (caches : Caches) :
  (MeasuredFrame.width frame === zero)%js = false ->
  (MeasuredFrame.height frame === zero)%js = false ->
  (Math_max2 zero (orDefault (RoundedSurfaceOptions.borderWidth params) zero)
   === zero)%js = false ->
  SquircleBackdrop (Some frame) params caches
  = if (clampStrokeWidth params <=? zero)%js then
      let (path, caches') :=
        buildSquirclePath (basePathInput frame params) caches in
      (Backdrop.mk (Some path) zero zero, caches')
    else
      let (path, caches') :=
        buildSquirclePath
          (insetPathInput frame params (clampStrokeWidth params)) caches in
      (Backdrop.mk (Some path) (clampStrokeWidth params / Fin 2)%js
         (clampStrokeWidth params),
       caches').
Proof.
  intros Hw Hh Hstroke. destruct frame as [w h].
  cbn [MeasuredFrame.width MeasuredFrame.height] in Hw, Hh.
  unfold SquircleBackdrop.
  cbn [MeasuredFrame.width MeasuredFrame.height].
  cbv zeta. rewrite Hw, Hh, Hstroke. cbn [orb].
  destruct (clampStrokeWidth params <=? zero)%js; reflexivity.
Qed.

Lemma fold_min_constant (acc r : R) (n : nat) :
  (acc <= r)%R ->
  fold_left Math_min2 (repeat (Fin r) n) (Fin acc) = Fin acc.
Proof.
  intros Hle. induction n as [|n IH]; [reflexivity|].
  cbn [repeat fold_left]. rewrite Math_min2_Fin, Rmin_left by lra. exact IH.
Qed.

Lemma exampleOverriddenBase_clamp :
  clampStrokeWidth exampleOverriddenBase = Fin 1
  /\ spec_clampStrokeWidth exampleOverriddenBase = Fin 10.
Proof.
  split.
  - unfold clampStrokeWidth, exampleOverriddenBase, listedRadii.
    cbn [RoundedSurfaceOptions.baseRadius RoundedSurfaceOptions.topLeftRadius
         RoundedSurfaceOptions.topRightRadius
         RoundedSurfaceOptions.bottomLeftRadius
         RoundedSurfaceOptions.bottomRightRadius
         RoundedSurfaceOptions.borderWidth orDefault positiveNumbers gt lt zero].
    decide_real.
    cbn [List.length Nat.ltb Nat.leb Math_min fold_left].
    unfold Math_min. cbn [fold_left Math_min2 lt]. decide_real.
    unfold zero. rewrite Math_max2_Fin, !Math_min2_Fin.
    rewrite (Rmax_right 0 10), !(Rmin_left 1 50), (Rmin_right 10 1) by lra.
    reflexivity.
  - unfold spec_clampStrokeWidth, spec_radiiInEffect, exampleOverriddenBase.
    cbn [RoundedSurfaceOptions.baseRadius RoundedSurfaceOptions.topLeftRadius
         RoundedSurfaceOptions.topRightRadius
         RoundedSurfaceOptions.bottomLeftRadius
         RoundedSurfaceOptions.bottomRightRadius
         RoundedSurfaceOptions.borderWidth orDefault map positiveNumbers gt lt
         zero].
    decide_real.
    unfold Math_min. cbn [fold_left Math_min2 lt]. decide_real.
    unfold zero. rewrite Math_max2_Fin, !Math_min2_Fin.
    rewrite (Rmax_right 0 10), !(Rmin_left 50 50), (Rmin_left 10 50) by lra.
    reflexivity.
Qed.

(** C7, as amended.  For a measured frame of nonzero width and height and
    a border whose width, floored at 0, is not 0: when the clamped stroke
    width is at most 0 the backdrop is the path of the frame as measured,
    with inset 0 and stroke 0; otherwise it is the path of the frame
    narrowed and lowered by the clamped stroke width, every given radius
    lowered by half of it and floored at 0, with half the clamped stroke
    width as inset.  For finite numbers the clamped stroke width is the
    smallest of the requested width and the positive numbers among the
    base radius and the four corner radii as given, the base radius also
    when every corner overrides it; each positive radius stays positive
    when lowered. *)
Theorem stroke_clamp_and_inset (frame : MeasuredFrame.t)
  (params : RoundedSurfaceOptions.t) (caches : Caches) :
  (MeasuredFrame.width frame === zero)%js = false ->
  (MeasuredFrame.height frame === zero)%js = false ->
  (Math_max2 zero (orDefault (RoundedSurfaceOptions.borderWidth params) zero)
   === zero)%js = false ->
  ((clampStrokeWidth params <=? zero)%js = true ->
   SquircleBackdrop (Some frame) params caches
   = let (path, caches') :=
       buildSquirclePath (basePathInput frame params) caches in
     (Backdrop.mk (Some path) zero zero, caches'))
  /\ ((clampStrokeWidth params <=? zero)%js = false ->
      SquircleBackdrop (Some frame) params caches
      = let clamped := clampStrokeWidth params in
        let half := (clamped / Fin 2)%js in
        let (path, caches') :=
          buildSquirclePath
            (SquirclePathInput.mk
               (shrinkRadius
                  (Some
                     (orDefault (RoundedSurfaceOptions.baseRadius params)
                        zero))
                  half)
               (shrinkRadius (RoundedSurfaceOptions.topLeftRadius params) half)
               (shrinkRadius (RoundedSurfaceOptions.topRightRadius params)
                  half)
               (shrinkRadius (RoundedSurfaceOptions.bottomRightRadius params)
                  half)
               (shrinkRadius (RoundedSurfaceOptions.bottomLeftRadius params)
                  half)
               (RoundedSurfaceOptions.smoothFactor params)
               (MeasuredFrame.width frame - clamped)%js
               (MeasuredFrame.height frame - clamped)%js
               None)
            caches in
        (Backdrop.mk (Some path) half clamped, caches'))
  /\ (forall sw : R,
        RoundedSurfaceOptions.borderWidth params = Some (Fin sw) ->
        Forall finiteOption (listedRadii params) ->
        exists m : R,
          clampStrokeWidth params = Fin m
          /\ (0 < m <= sw)%R
          /\ (m = sw \/ In (Some (Fin m)) (listedRadii params))
          /\ (forall r : R,
                In (Some (Fin r)) (listedRadii params) ->
                (0 < r)%R ->
                (m <= r)%R
                /\ shrinkRadius (Some (Fin r)) (Fin m / Fin 2)%js
                   = Some (Fin (r - m / 2))
                /\ (0 < r - m / 2)%R)
          /\ (forall r : R,
                (r <= 0)%R ->
                shrinkRadius (Some (Fin r)) (Fin m / Fin 2)%js
                = Some (Fin 0))).
Proof.
  intros Hw Hh Hstroke.
  pose proof (@SquircleBackdrop_stroked frame params caches Hw Hh Hstroke)
    as Hrun.
  split; [|split].
  - intros Hle. rewrite Hrun, Hle. reflexivity.
  - intros Hgt. rewrite Hrun, Hgt. reflexivity.
  - intros sw Hborder Hfin.
    assert (Hsw : (0 < sw)%R).
    { rewrite Hborder in Hstroke. cbn [orDefault] in Hstroke.
      unfold zero in Hstroke. rewrite Math_max2_Fin in Hstroke.
      cbn [strictEq] in Hstroke. apply Reqb_false in Hstroke.
      destruct (Rle_dec sw 0) as [Hneg|Hpos]; [|lra].
      exfalso. apply Hstroke. apply Rmax_left. exact Hneg. }
    destruct (@clampStrokeWidth_finite params sw Hborder Hsw Hfin)
      as (m & Hm & Hb & Hle & Hin).
    exists m. split; [exact Hm|]. split; [exact Hb|]. split; [exact Hin|].
    assert (Hhalf : (Fin m / Fin 2)%js = Fin (m / 2))
      by (apply div_Fin; lra).
    split.
    + intros r Hr Hpos. specialize (Hle r Hr Hpos).
      split; [exact Hle|]. split; [|lra].
      unfold shrinkRadius, sub. rewrite Hhalf. cbn [add neg]. unfold zero.
      rewrite Math_max2_Fin, Rmax_right by lra. do 2 f_equal; lra.
    + intros r Hr. unfold shrinkRadius, sub. rewrite Hhalf. cbn [add neg].
      unfold zero. rewrite Math_max2_Fin, Rmax_left by lra. reflexivity.
Qed.

Lemma stroke_clamp_and_inset_witness :
  (MeasuredFrame.width exampleFrame === zero)%js = false
  /\ (MeasuredFrame.height exampleFrame === zero)%js = false
  /\ (Math_max2 zero
        (orDefault (RoundedSurfaceOptions.borderWidth exampleOverriddenBase)
           zero)
      === zero)%js = false
  /\ exists m : R,
       clampStrokeWidth exampleOverriddenBase = Fin m
       /\ (0 < m <= 10)%R
       /\ shrinkRadius (Some (Fin 50)) (Fin m / Fin 2)%js
          = Some (Fin (50 - m / 2)).
Proof.
  assert (Hw : (MeasuredFrame.width exampleFrame === zero)%js = false)
    by (cbn [MeasuredFrame.width exampleFrame strictEq zero];
        apply Reqb_not; lra).
  assert (Hh : (MeasuredFrame.height exampleFrame === zero)%js = false)
    by (cbn [MeasuredFrame.height exampleFrame strictEq zero];
        apply Reqb_not; lra).
  assert (Hstroke :
    (Math_max2 zero
       (orDefault (RoundedSurfaceOptions.borderWidth exampleOverriddenBase)
          zero)
     === zero)%js = false).
  { cbn [RoundedSurfaceOptions.borderWidth exampleOverriddenBase orDefault].
    unfold zero. rewrite Math_max2_Fin, (Rmax_right 0 10) by lra.
    cbn [strictEq]. apply Reqb_not. lra. }
  split; [exact Hw|]. split; [exact Hh|]. split; [exact Hstroke|].
  destruct (@stroke_clamp_and_inset exampleFrame exampleOverriddenBase
              noCaches Hw Hh Hstroke) as (_ & _ & Hclamp).
  destruct (Hclamp 10%R eq_refl) as (m & Hm & Hb & _ & Hshrink & _).
  { unfold listedRadii, exampleOverriddenBase.
    cbn [RoundedSurfaceOptions.baseRadius RoundedSurfaceOptions.topLeftRadius
         RoundedSurfaceOptions.topRightRadius
         RoundedSurfaceOptions.bottomLeftRadius
         RoundedSurfaceOptions.bottomRightRadius orDefault].
    repeat constructor. }
  exists m. split; [exact Hm|]. split; [exact Hb|].
  apply (Hshrink 50%R); [|lra].
  unfold listedRadii, exampleOverriddenBase.
  cbn [RoundedSurfaceOptions.topLeftRadius]. right. now left.
Defined.

Lemma stroke_clamp_counterexample :
  clampStrokeWidth exampleOverriddenBase = Fin 1
  /\ spec_clampStrokeWidth exampleOverriddenBase = Fin 10
  /\ clampStrokeWidth exampleOverriddenBase
     <> spec_clampStrokeWidth exampleOverriddenBase
  /\ Backdrop.renderedStrokeWidth
       (fst (SquircleBackdrop (Some exampleFrame) exampleOverriddenBase
               noCaches))
     = Fin 1
  /\ Backdrop.insetAmount
       (fst (SquircleBackdrop (Some exampleFrame) exampleOverriddenBase
               noCaches))
     = Fin (1 / 2).
Proof.
  destruct exampleOverriddenBase_clamp as [Hcode Hspec].
  split; [exact Hcode|]. split; [exact Hspec|]. split.
  { rewrite Hcode, Hspec. intros E. injection E as E. lra. }
  assert (Hrun :
    SquircleBackdrop (Some exampleFrame) exampleOverriddenBase noCaches
    = let (path, caches') :=
        buildSquirclePath
          (insetPathInput exampleFrame exampleOverriddenBase (Fin 1)) noCaches
      in (Backdrop.mk (Some path) (Fin (1 / 2)) (Fin 1), caches')).
  { rewrite SquircleBackdrop_stroked.
    - rewrite Hcode. cbn [le zero]. rewrite (Rleb_not (x := 1) (y := 0)) by lra.
      rewrite div_Fin by lra. reflexivity.
    - cbn [MeasuredFrame.width exampleFrame strictEq zero].
      apply Reqb_not; lra.
    - cbn [MeasuredFrame.height exampleFrame strictEq zero].
      apply Reqb_not; lra.
    - cbn [RoundedSurfaceOptions.borderWidth exampleOverriddenBase orDefault].
      unfold zero. rewrite Math_max2_Fin, (Rmax_right 0 10) by lra.
      cbn [strictEq]. apply Reqb_not. lra. }
  rewrite Hrun.
  destruct (buildSquirclePath _ noCaches) as [path caches'].
  split; reflexivity.
Qed.

(** ** Validation *)

Lemma clamp_negative (r : R) : (r < 0)%R -> Math_max2 zero (Fin r) = Fin 0.
Proof.
  intros Hr. unfold zero. rewrite Math_max2_Fin, Rmax_left by lra. reflexivity.
Qed.

(** C8.  One render fails with a validation error if and only if the
    smoothing factor is absent or is not a finite number.  With a finite
    smoothing factor the options are normalised and the geometry is
    computed from them, whatever the other numbers are: a negative base
    radius, corner radius or border width is replaced by 0. *)
Theorem validation_rejects_only_smoothing (params : SquircleParams.t)
  (frame : option MeasuredFrame.t) :
  ((exists error : ValidationError, renderGeometry params frame = inl error)
   <-> (SquircleParams.smoothFactor params = None
        \/ exists x : number,
             SquircleParams.smoothFactor params = Some x
             /\ isFiniteNumber x = false))
  /\ (forall s : R,
        SquircleParams.smoothFactor params = Some (Fin s) ->
        exists normalized : NormalizedRoundedSurfaceOptions.t,
          normalizeSquircleParams params = inr normalized
          /\ renderGeometry params frame
             = inr (computeSquircleGeometry frame normalized)
          /\ NormalizedRoundedSurfaceOptions.smoothFactor normalized = Fin s
          /\ (forall r : R,
                (r < 0)%R ->
                (SquircleParams.baseRadius params = Some (Fin r) ->
                 NormalizedRoundedSurfaceOptions.baseRadius normalized = Fin 0)
                /\ (SquircleParams.topLeftRadius params = Some (Fin r) ->
                    NormalizedRoundedSurfaceOptions.topLeftRadius normalized
                    = Fin 0)
                /\ (SquircleParams.topRightRadius params = Some (Fin r) ->
                    NormalizedRoundedSurfaceOptions.topRightRadius normalized
                    = Fin 0)
                /\ (SquircleParams.bottomRightRadius params = Some (Fin r) ->
                    NormalizedRoundedSurfaceOptions.bottomRightRadius
                      normalized
                    = Fin 0)
                /\ (SquircleParams.bottomLeftRadius params = Some (Fin r) ->
                    NormalizedRoundedSurfaceOptions.bottomLeftRadius normalized
                    = Fin 0)
                /\ (SquircleParams.borderWidth params = Some (Fin r) ->
                    NormalizedRoundedSurfaceOptions.borderWidth normalized
                    = Fin 0))).
Proof.
  split.
  - unfold renderGeometry, normalizeSquircleParams.
    destruct (SquircleParams.smoothFactor params) as [x|].
    + destruct (isFiniteNumber x) eqn:Hx.
      * split.
        -- intros [error Herror]. discriminate.
        -- intros [Hnone | (y & Hy & Hfinite)]; [discriminate|].
           injection Hy as <-. congruence.
      * split.
        -- intros _. right. exists x. split; [reflexivity | exact Hx].
        -- intros _. exists InvalidSmoothFactor. reflexivity.
    + split.
      * intros _. now left.
      * intros _. exists InvalidSmoothFactor. reflexivity.
  - intros s Hs. unfold renderGeometry, normalizeSquircleParams.
    rewrite Hs. cbn [isFiniteNumber].
    eexists. split; [reflexivity|]. split; [reflexivity|].
    split; [reflexivity|].
    intros r Hr.
    cbn [NormalizedRoundedSurfaceOptions.baseRadius
         NormalizedRoundedSurfaceOptions.topLeftRadius
         NormalizedRoundedSurfaceOptions.topRightRadius
         NormalizedRoundedSurfaceOptions.bottomRightRadius
         NormalizedRoundedSurfaceOptions.bottomLeftRadius
         NormalizedRoundedSurfaceOptions.borderWidth].
    repeat split; intros ->; cbn [orDefault]; apply clamp_negative; exact Hr.
Qed.

(** * Further properties of the code *)

(** ** Memoisation *)

Lemma entriesKept_refl (V : Type) (m : JSMap.t V) : entriesKept m m.
Proof. intros key value H. exact H. Qed.

Lemma entriesKept_trans (V : Type) (m1 m2 m3 : JSMap.t V) :
  entriesKept m1 m2 -> entriesKept m2 m3 -> entriesKept m1 m3.
Proof. intros H12 H23 key value H. apply H23, H12, H. Qed.

Lemma entriesKept_set (V : Type) (key : string) (value : V) (m : JSMap.t V) :
  JSMap.get key m = None -> entriesKept m (JSMap.set key value m).
Proof.
  intros Hnone key' value' Hget.
  destruct (String.eqb_spec key' key) as [-> | Hneq].
  - congruence.
  - rewrite get_set_other by exact Hneq. exact Hget.
Qed.

Lemma profilesAdded_refl (caches : Caches) : profilesAdded caches caches.
Proof. split; [reflexivity | apply entriesKept_refl]. Qed.

Lemma profilesAdded_trans (c1 c2 c3 : Caches) :
  profilesAdded c1 c2 -> profilesAdded c2 c3 -> profilesAdded c1 c3.
Proof.
  intros [P12 K12] [P23 K23]. split; [congruence|].
  exact (entriesKept_trans K12 K23).
Qed.

(** What one call of [computeCornerProfile] does to the caches. *)
Lemma computeCornerProfile_adds (input : BezierPatchInput.t)
  (caches caches' : Caches) (patch : BezierPatch.t) :
  computeCornerProfile input caches = (patch, caches') ->
  profilesAdded caches caches'
  /\ JSMap.get (cornerProfileCacheKey input) (CORNER_PROFILE_CACHE caches')
     = Some patch.
Proof.
  intros Hrun.
  destruct (JSMap.get (cornerProfileCacheKey input)
              (CORNER_PROFILE_CACHE caches)) as [cached|] eqn:Hget.
  - rewrite (computeCornerProfile_hit _ _ Hget) in Hrun.
    injection Hrun as <- <-. split; [apply profilesAdded_refl | exact Hget].
  - rewrite (computeCornerProfile_miss _ _ Hget) in Hrun.
    injection Hrun as <- <-. split.
    + split; [reflexivity|]. cbn [CORNER_PROFILE_CACHE].
      apply entriesKept_set. exact Hget.
    + cbn [CORNER_PROFILE_CACHE]. apply get_set_same.
Qed.

(** X1.  A corner profile is computed once.  The patch a call returns is
    in the profile cache afterwards, under the key of the call, so the
    same call made again returns the same patch and changes nothing; no
    call removes a profile or touches the path cache. *)
Theorem corner_profile_memoised (input : BezierPatchInput.t)
  (caches : Caches) :
  let (patch, caches') := computeCornerProfile input caches in
  JSMap.get (cornerProfileCacheKey input) (CORNER_PROFILE_CACHE caches')
  = Some patch
  /\ computeCornerProfile input caches' = (patch, caches')
  /\ PATH_CACHE_MAP caches' = PATH_CACHE_MAP caches
  /\ entriesKept (CORNER_PROFILE_CACHE caches) (CORNER_PROFILE_CACHE caches')
  /\ (JSMap.get (cornerProfileCacheKey input) (CORNER_PROFILE_CACHE caches)
      = None ->
      patch = cornerProfile input).
Proof.
  destruct (computeCornerProfile input caches) as [patch caches'] eqn:Hrun.
  destruct (computeCornerProfile_adds _ _ Hrun) as [[Hpath Hkept] Hget].
  split; [exact Hget|].
  split; [apply computeCornerProfile_hit; exact Hget|].
  split; [exact Hpath|]. split; [exact Hkept|].
  intros Hmiss. rewrite (computeCornerProfile_miss _ _ Hmiss) in Hrun.
  injection Hrun as <- _. reflexivity.
Qed.

Lemma truthyText_M (rest : text) : truthyText (Lit "M " :: rest) = true.
Proof. reflexivity. Qed.

Lemma joinCornerProfiles_truthy (input : PathParamsInput.t) :
  truthyText (joinCornerProfiles input) = true.
Proof.
  rewrite joinCornerProfiles_segments. cbv zeta. cbn [app].
  apply truthyText_M.
Qed.

(** A request that misses the path cache: a path that is not empty is
    built and stored under the key of the request; profiles may be
    added. *)
Lemma buildSquirclePath_miss (input : SquirclePathInput.t) (caches : Caches) :
  cacheHit (readCachedPath (requestKey input) (PATH_CACHE_MAP caches)) = None ->
  exists (path : text) (profiles : JSMap.t BezierPatch.t),
    buildSquirclePath input caches
    = (path,
       mkCaches
         (storeCachedPath (requestKey input) path (PATH_CACHE_MAP caches))
         profiles)
    /\ truthyText path = true
    /\ entriesKept (CORNER_PROFILE_CACHE caches) profiles.
Proof.
  destruct input as [r tl tr br bl s w h preserve].
  unfold requestKey, effectiveRadius. input_fields.
  intros Hmiss.
  unfold buildSquirclePath. input_fields.
  unfold bind, readCaches, ret, writePathCache. cbv beta iota zeta.
  rewrite Hmiss.
  match goal with
  | |- context [if ?equal then _ else _] => destruct equal
  end.
  - destruct (orDefault tl (orDefault r zero) === zero)%js.
    + eexists. eexists. split; [reflexivity|].
      split; [apply truthyText_M | apply entriesKept_refl].
    + destruct (computeCornerProfile _ caches) as [patch c1] eqn:E1.
      destruct (computeCornerProfile_adds _ _ E1) as [[P1 K1] _].
      eexists. eexists. rewrite P1. split; [reflexivity|].
      split; [apply joinCornerProfiles_truthy | exact K1].
  - destruct (computeCornerProfile _ caches) as [p1 c1] eqn:E1.
    destruct (computeCornerProfile _ c1) as [p2 c2] eqn:E2.
    destruct (computeCornerProfile _ c2) as [p3 c3] eqn:E3.
    destruct (computeCornerProfile _ c3) as [p4 c4] eqn:E4.
    destruct (computeCornerProfile_adds _ _ E1) as [A1 _].
    destruct (computeCornerProfile_adds _ _ E2) as [A2 _].
    destruct (computeCornerProfile_adds _ _ E3) as [A3 _].
    destruct (computeCornerProfile_adds _ _ E4) as [A4 _].
    destruct (profilesAdded_trans (profilesAdded_trans A1 A2)
                (profilesAdded_trans A3 A4)) as [P K].
    eexists. eexists. rewrite P. split; [reflexivity|].
    split; [apply joinCornerProfiles_truthy | exact K].
Qed.

Lemma cacheHit_truthy (cached : option text) (path : text) :
  cacheHit cached = Some path -> cached = Some path /\ truthyText path = true.
Proof.
  destruct cached as [s|]; cbn [cacheHit]; [|discriminate].
  destruct (truthyText s) eqn:Hs; [|discriminate].
  intros E. injection E as <-. split; [reflexivity | exact Hs].
Qed.

(** What any call of [buildSquirclePath] returns and leaves: a path that
    is not empty, which the path cache then holds under the key of the
    request. *)
Lemma buildSquirclePath_cached (input : SquirclePathInput.t)
  (caches caches' : Caches) (path : text) :
  buildSquirclePath input caches = (path, caches') ->
  cacheHit (readCachedPath (requestKey input) (PATH_CACHE_MAP caches'))
  = Some path
  /\ entriesKept (CORNER_PROFILE_CACHE caches) (CORNER_PROFILE_CACHE caches').
Proof.
  intros Hrun.
  destruct (cacheHit
              (readCachedPath (requestKey input) (PATH_CACHE_MAP caches)))
    as [cached|] eqn:Hhit.
  - rewrite (buildSquirclePath_hit _ _ Hhit) in Hrun.
    injection Hrun as <- <-. split; [exact Hhit | apply entriesKept_refl].
  - destruct (buildSquirclePath_miss _ _ Hhit)
      as (built & profiles & Hbuilt & Htruthy & Hkept).
    rewrite Hbuilt in Hrun. injection Hrun as <- <-.
    cbn [PATH_CACHE_MAP CORNER_PROFILE_CACHE]. split; [|exact Hkept].
    unfold readCachedPath. rewrite storeCachedPath_get.
    cbn [cacheHit]. rewrite Htruthy. reflexivity.
Qed.

(** X2.  A path is built once.  Whatever the request and the caches, the
    path returned is not the empty string, and the same request made
    again returns the same path and leaves both caches as they are. *)
Theorem path_memoised (input : SquirclePathInput.t) (caches : Caches) :
  let (path, caches') := buildSquirclePath input caches in
  buildSquirclePath input caches' = (path, caches')
  /\ truthyText path = true
  /\ readCachedPath (requestKey input) (PATH_CACHE_MAP caches') = Some path.
Proof.
  destruct (buildSquirclePath input caches) as [path caches'] eqn:Hrun.
  apply buildSquirclePath_cached in Hrun. destruct Hrun as [Hhit _].
  split; [apply buildSquirclePath_hit; exact Hhit|].
  apply cacheHit_truthy in Hhit. destruct Hhit as [Hget Htruthy].
  split; [exact Htruthy | exact Hget].
Qed.

(** X3.  The path cache tells requests apart by their key only.  A request
    whose key equals that of the request served before it gets the path
    of that request, whatever its own numbers are. *)
Theorem path_shared_by_key (first second : SquirclePathInput.t)
  (caches : Caches) :
  requestKey first = requestKey second ->
  let (path, caches') := buildSquirclePath first caches in
  buildSquirclePath second caches' = (path, caches').
Proof.
  intros Hkey.
  destruct (buildSquirclePath first caches) as [path caches'] eqn:Hrun.
  apply buildSquirclePath_cached in Hrun. destruct Hrun as [Hhit _].
  apply buildSquirclePath_hit. rewrite <- Hkey. exact Hhit.
Qed.

Lemma toFixed_same_digits (digits : nat) (x y : R) :
  Zfloor (Rabs x * 10 ^ digits + / 2) = Zfloor (Rabs y * 10 ^ digits + / 2) ->
  Rltb x 0 = Rltb y 0 ->
  toFixed digits (Fin x) = toFixed digits (Fin y).
Proof. intros Hfloor Hsign. unfold toFixed. rewrite Hfloor, Hsign. same. Qed.

Lemma exampleRequests_key :
  requestKey exampleRequest = requestKey exampleNearbyRequest.
Proof.
  unfold requestKey, composeCacheKey, effectiveRadius, exampleRequest,
    exampleNearbyRequest.
  input_fields.
  cbn [CacheKeyData.width CacheKeyData.height CacheKeyData.cornerSmoothing
       CacheKeyData.preserveSmoothing CacheKeyData.cornerRadius
       CacheKeyData.topLeftCornerRadius CacheKeyData.topRightCornerRadius
       CacheKeyData.bottomRightCornerRadius
       CacheKeyData.bottomLeftCornerRadius orDefault].
  rewrite (@toFixed_same_digits 2 (100 + 4 / 1000) 100); [same | |].
  - rewrite !Rabs_pos_eq by lra.
    rewrite (@Zfloor_eq 10000 (100 * 10 ^ 2 + / 2)) by (simpl; lra).
    apply Zfloor_eq. simpl. lra.
  - rewrite !Rltb_not by lra. reflexivity.
Qed.

Lemma path_shared_by_key_witness :
  requestKey exampleRequest = requestKey exampleNearbyRequest
  /\ SquirclePathInput.width exampleRequest
     <> SquirclePathInput.width exampleNearbyRequest
  /\ let (path, caches') := buildSquirclePath exampleRequest noCaches in
     buildSquirclePath exampleNearbyRequest caches' = (path, caches').
Proof.
  split; [exact exampleRequests_key|]. split.
  - cbn [SquirclePathInput.width exampleRequest exampleNearbyRequest].
    intros E. injection E as E. lra.
  - exact (@path_shared_by_key exampleRequest exampleNearbyRequest noCaches
             exampleRequests_key).
Defined.

(** ** C6 on a hit of the path cache *)

(** Four equal radii that are not 0, on a miss: the path is that of one
    patch for the four corners. *)
Lemma buildSquirclePath_equal_rounded (input : SquirclePathInput.t)
  (caches : Caches) :
  (effectiveRadius input topLeft === effectiveRadius input topRight)%js
  && (effectiveRadius input topRight === effectiveRadius input bottomRight)%js
  && (effectiveRadius input bottomRight === effectiveRadius input bottomLeft)%js
  && (effectiveRadius input bottomLeft === effectiveRadius input topLeft)%js
  = true ->
  cacheHit (readCachedPath (requestKey input) (PATH_CACHE_MAP caches)) = None ->
  (effectiveRadius input topLeft === zero)%js = false ->
  fst (buildSquirclePath input caches)
  = let width := SquirclePathInput.width input in
    let height := SquirclePathInput.height input in
    let budget := (Math_min2 width height / Fin 2)%js in
    let patch :=
      fst (computeCornerProfile
             (BezierPatchInput.mk
                (Math_min2 (effectiveRadius input topLeft) budget)
                (SquirclePathInput.cornerSmoothing input)
                (orDefault (SquirclePathInput.preserveSmoothing input) false)
                budget)
             caches) in
    joinCornerProfiles (PathParamsInput.mk width height patch patch patch patch).
Proof.
  destruct input as [r tl tr br bl s w h preserve].
  unfold requestKey, effectiveRadius. input_fields. cbv zeta.
  intros Hequal Hmiss Hround.
  unfold buildSquirclePath. input_fields.
  unfold bind, readCaches, ret, writePathCache. cbv beta iota zeta.
  rewrite Hmiss, Hequal, Hround.
  destruct (computeCornerProfile _ caches) as [patch caches']. reflexivity.
Qed.

(** The outline of four rounded corners starts with a cubic, an arc and a
    cubic. *)
Lemma rounded_outline_curves (w h : number) (patch : BezierPatch.t) :
  truthy (BezierPatch.cornerRadius patch) = true ->
  exists rest : list ascii,
    commandLetters
      (joinCornerProfiles (PathParamsInput.mk w h patch patch patch patch))
    = ("M" :: "c" :: "a" :: "c" :: rest)%char.
Proof.
  intros Hr. rewrite joinCornerProfiles_segments. cbv zeta.
  cbn [PathParamsInput.width PathParamsInput.height
       PathParamsInput.topLeftPathParams PathParamsInput.topRightPathParams
       PathParamsInput.bottomLeftPathParams
       PathParamsInput.bottomRightPathParams].
  rewrite commandLetters_app, (commandLetters_cons (Lit " ")),
    commandLetters_app.
  pose proof (trace_commands patch) as Htrace. cbv zeta in Htrace.
  rewrite Hr in Htrace. destruct Htrace as (-> & _).
  eexists. reflexivity.
Qed.

Lemma exampleTinyRadius_key :
  requestKey exampleTinyRadiusRequest = requestKey exampleSharpRequest.
Proof.
  unfold requestKey, composeCacheKey, effectiveRadius,
    exampleTinyRadiusRequest, exampleSharpRequest.
  input_fields.
  cbn [CacheKeyData.width CacheKeyData.height CacheKeyData.cornerSmoothing
       CacheKeyData.preserveSmoothing CacheKeyData.cornerRadius
       CacheKeyData.topLeftCornerRadius CacheKeyData.topRightCornerRadius
       CacheKeyData.bottomRightCornerRadius
       CacheKeyData.bottomLeftCornerRadius orDefault].
  unfold zero.
  rewrite (@toFixed_same_digits 2 (4 / 1000) 0); [same | |].
  - rewrite !Rabs_pos_eq by lra.
    rewrite (@Zfloor_eq 0 (0 * 10 ^ 2 + / 2)) by (simpl; lra).
    apply Zfloor_eq. simpl. lra.
  - rewrite !Rltb_not by lra. reflexivity.
Qed.

(** C6 as stated fails on a hit of the path cache.  The request with the
    common radius 0.004 and the request with the common radius 0 have the
    same key, their radii being printed with two decimals: served after
    the first, the second gets the path of the first, which has cubics and
    arcs and is not the rectangle. *)
Lemma equal_radii_counterexample :
  requestKey exampleTinyRadiusRequest = requestKey exampleSharpRequest
  /\ (forall corner : CornerId,
        effectiveRadius exampleSharpRequest corner = zero)
  /\ let (path, caches) :=
       buildSquirclePath exampleTinyRadiusRequest noCaches in
     buildSquirclePath exampleSharpRequest caches = (path, caches)
     /\ (exists rest : list ascii,
           commandLetters path = ("M" :: "c" :: "a" :: "c" :: rest)%char)
     /\ commandLetters path <> [ "M"; "L"; "L"; "L"; "Z" ]%char.
Proof.
  split; [exact exampleTinyRadius_key|].
  split; [intros []; reflexivity|].
  destruct (buildSquirclePath exampleTinyRadiusRequest noCaches)
    as [path caches] eqn:Hrun.
  assert (Hpath : path = fst (buildSquirclePath exampleTinyRadiusRequest
                                noCaches))
    by (rewrite Hrun; reflexivity).
  apply buildSquirclePath_cached in Hrun. destruct Hrun as [Hhit _].
  split.
  { apply buildSquirclePath_hit. rewrite <- exampleTinyRadius_key.
    exact Hhit. }
  assert (Hcurves :
    exists rest : list ascii,
      commandLetters path = ("M" :: "c" :: "a" :: "c" :: rest)%char).
  { assert (Hsame : (Fin (4 / 1000) === Fin (4 / 1000))%js = true)
      by (cbn [strictEq]; apply Reqb_of; reflexivity).
    rewrite Hpath, buildSquirclePath_equal_rounded.
    - cbv zeta. apply rounded_outline_curves.
      rewrite computeCornerProfile_miss by reflexivity.
      cbn [fst]. rewrite cornerProfile_cornerRadius.
      unfold effectiveRadius, exampleTinyRadiusRequest. input_fields.
      cbn [BezierPatchInput.cornerRadius orDefault].
      rewrite Math_min2_Fin, div_Fin by lra. rewrite Math_min2_Fin.
      cbn [truthy]. rewrite Reqb_not; [reflexivity|].
      rewrite (Rmin_right 100 40), Rmin_left by lra. lra.
    - unfold effectiveRadius, exampleTinyRadiusRequest. input_fields.
      cbn [orDefault]. rewrite Hsame. reflexivity.
    - unfold readCachedPath.
      cbn [noCaches PATH_CACHE_MAP JSMap.empty JSMap.get cacheHit]. same.
    - unfold effectiveRadius, exampleTinyRadiusRequest. input_fields.
      cbn [orDefault strictEq zero]. apply Reqb_not. lra. }
  split; [exact Hcurves|].
  destruct Hcurves as [rest ->]. discriminate.
Qed.

(** X4.  The path cache stays within its limit through the path builder.
    A call stores at most one path, never lets the cache grow beyond 160
    entries, and removes no corner profile: the profile cache has no
    limit. *)
Theorem path_cache_stays_bounded (input : SquirclePathInput.t)
  (caches : Caches) :
  (JSMap.size (PATH_CACHE_MAP caches) <= 160)%nat ->
  let caches' := snd (buildSquirclePath input caches) in
  (JSMap.size (PATH_CACHE_MAP caches') <= 160)%nat
  /\ (JSMap.size (PATH_CACHE_MAP caches')
      <= S (JSMap.size (PATH_CACHE_MAP caches)))%nat
  /\ entriesKept (CORNER_PROFILE_CACHE caches) (CORNER_PROFILE_CACHE caches').
Proof.
  intros Hsize caches'. subst caches'.
  destruct (cacheHit
              (readCachedPath (requestKey input) (PATH_CACHE_MAP caches)))
    as [cached|] eqn:Hhit.
  - rewrite (buildSquirclePath_hit _ _ Hhit). cbn [snd].
    split; [exact Hsize|]. split; [lia | apply entriesKept_refl].
  - destruct (buildSquirclePath_miss _ _ Hhit)
      as (built & profiles & -> & _ & Hkept).
    cbn [snd PATH_CACHE_MAP CORNER_PROFILE_CACHE].
    rewrite !size_keys in *. rewrite storeCachedPath_keys.
    unfold PATH_CACHE_LIMIT. rewrite size_keys.
    destruct (JSMap.has (requestKey input) (PATH_CACHE_MAP caches)).
    + split; [exact Hsize|]. split; [lia | exact Hkept].
    + destruct (160 <=? List.length (JSMap.keys (PATH_CACHE_MAP caches)))%nat
        eqn:Hfull.
      * apply Nat.leb_le in Hfull.
        destruct (JSMap.keys (PATH_CACHE_MAP caches)) as [|k ks];
          cbn [List.length] in *; [lia|].
        cbn [tl]. rewrite length_app. cbn [List.length].
        split; [lia|]. split; [lia | exact Hkept].
      * apply Nat.leb_gt in Hfull. rewrite length_app. cbn [List.length].
        split; [lia|]. split; [lia | exact Hkept].
Qed.

Lemma path_cache_stays_bounded_witness :
  (JSMap.size (PATH_CACHE_MAP noCaches) <= 160)%nat
  /\ (JSMap.size
        (PATH_CACHE_MAP (snd (buildSquirclePath exampleRequest noCaches)))
      <= 160)%nat.
Proof.
  assert (H : (JSMap.size (PATH_CACHE_MAP noCaches) <= 160)%nat)
    by (cbn [noCaches PATH_CACHE_MAP JSMap.size JSMap.empty List.length]; lia).
  split; [exact H|].
  exact (proj1 (@path_cache_stays_bounded exampleRequest noCaches H)).
Defined.

(** ** The backdrop *)

Lemma gt_zero_not_le (x : number) : (x >? zero)%js = true -> (x <=? zero)%js = false.
Proof.
  destruct x as [a| | |]; cbn [gt lt le zero]; try discriminate;
    try reflexivity.
  intros H. apply Rltb_true in H. apply Rleb_not. exact H.
Qed.

Lemma Math_min2_positive (x y : number) :
  (x >? zero)%js = true -> (y >? zero)%js = true ->
  (Math_min2 x y >? zero)%js = true.
Proof.
  destruct x as [a| | |], y as [b| | |]; cbn [gt lt zero Math_min2];
    try discriminate; intros Hx Hy; try assumption;
    try reflexivity.
  destruct (Rltb b a); assumption.
Qed.

Lemma positiveNumbers_positive (values : list (option number)) :
  Forall (fun v => (v >? zero)%js = true) (positiveNumbers values).
Proof.
  induction values as [|[v|] rest IH]; cbn [positiveNumbers].
  - constructor.
  - destruct (v >? zero)%js eqn:Hv; [constructor|]; assumption.
  - exact IH.
Qed.

Lemma fold_min_positive (values : list number) :
  Forall (fun v => (v >? zero)%js = true) values ->
  forall acc : number,
    (acc >? zero)%js = true ->
    (fold_left Math_min2 values acc >? zero)%js = true.
Proof.
  induction 1 as [|v rest Hv _ IH]; intros acc Hacc; cbn [fold_left].
  - exact Hacc.
  - apply IH. apply Math_min2_positive; assumption.
Qed.

Lemma floored_stroke (border : number) :
  (Math_max2 zero border === zero)%js = false ->
  Math_max2 zero border = NaN \/ (Math_max2 zero border >? zero)%js = true.
Proof.
  destruct border as [b| | |]; unfold zero.
  - rewrite Math_max2_Fin. cbn [strictEq gt lt]. intros H.
    apply Reqb_false in H. right. apply Rltb_of.
    pose proof (Rmax_l 0 b). lra.
  - intros _. right. reflexivity.
  - cbn [Math_max2 lt strictEq]. intros H. apply Reqb_false in H.
    exfalso. apply H. reflexivity.
  - intros _. now left.
Qed.

(** The clamped stroke width of a border that is not 0 is never at most
    0. *)
Lemma clampStrokeWidth_not_le (params : RoundedSurfaceOptions.t) :
  (Math_max2 zero (orDefault (RoundedSurfaceOptions.borderWidth params) zero)
   === zero)%js = false ->
  (clampStrokeWidth params <=? zero)%js = false.
Proof.
  intros Hstroke. unfold clampStrokeWidth. cbv zeta.
  destruct (floored_stroke _ Hstroke) as [Hnan | Hpos].
  - rewrite Hnan. reflexivity.
  - apply gt_zero_not_le. apply Math_min2_positive; [exact Hpos|].
    destruct (0 <? List.length _)%nat; [|exact Hpos].
    apply fold_min_positive; [apply positiveNumbers_positive | reflexivity].
Qed.

(** The backdrop of a measured frame without a border. *)
Lemma SquircleBackdrop_plain (frame : MeasuredFrame.t)
  (params : RoundedSurfaceOptions.t) (caches : Caches) :
  (MeasuredFrame.width frame === zero)%js = false ->
  (MeasuredFrame.height frame === zero)%js = false ->
  (Math_max2 zero (orDefault (RoundedSurfaceOptions.borderWidth params) zero)
   === zero)%js = true ->
  SquircleBackdrop (Some frame) params caches
  = let (path, caches') :=
      buildSquirclePath (basePathInput frame params) caches in
    (Backdrop.mk (Some path) zero zero, caches').
Proof.
  intros Hw Hh Hstroke. destruct frame as [w h].
  cbn [MeasuredFrame.width MeasuredFrame.height] in Hw, Hh.
  unfold SquircleBackdrop.
  cbn [MeasuredFrame.width MeasuredFrame.height].
  cbv zeta. rewrite Hw, Hh, Hstroke. reflexivity.
Qed.

Lemma SquircleBackdrop_unmeasured (layout : option MeasuredFrame.t)
  (params : RoundedSurfaceOptions.t) (caches : Caches) :
  match layout with
  | None => True
  | Some frame =>
      (MeasuredFrame.width frame === zero)%js = true
      \/ (MeasuredFrame.height frame === zero)%js = true
  end ->
  SquircleBackdrop layout params caches = (Backdrop.mk None zero zero, caches).
Proof.
  assert (Hzero : (zero === zero)%js = true)
    by (cbn [strictEq zero]; apply Reqb_of; reflexivity).
  destruct layout as [[w h]|]; cbn [MeasuredFrame.width MeasuredFrame.height];
    unfold SquircleBackdrop;
    cbn [MeasuredFrame.width MeasuredFrame.height]; cbv zeta.
  - intros [-> | ->]; [reflexivity|]. rewrite orb_true_r. reflexivity.
  - intros _. rewrite Hzero. reflexivity.
Qed.

(** X5.  The backdrop has no path exactly when there is nothing to
    measure: no layout yet, or a layout of width 0 or of height 0.  In
    that case the inset and the stroke are 0 and the caches are not
    touched; in every other case a path is there. *)
Theorem backdrop_path_when_measured (layout : option MeasuredFrame.t)
  (params : RoundedSurfaceOptions.t) (caches : Caches) :
  let unmeasured :=
    match layout with
    | None => True
    | Some frame =>
        (MeasuredFrame.width frame === zero)%js = true
        \/ (MeasuredFrame.height frame === zero)%js = true
    end in
  (Backdrop.path (fst (SquircleBackdrop layout params caches)) = None
   <-> unmeasured)
  /\ (unmeasured ->
      SquircleBackdrop layout params caches
      = (Backdrop.mk None zero zero, caches)).
Proof.
  cbv zeta. split; [|apply SquircleBackdrop_unmeasured].
  split.
  - destruct layout as [frame|]; [|trivial].
    destruct (MeasuredFrame.width frame === zero)%js eqn:Hw; [now left|].
    destruct (MeasuredFrame.height frame === zero)%js eqn:Hh; [now right|].
    intros Hnone. exfalso. revert Hnone.
    destruct (Math_max2 zero
                (orDefault (RoundedSurfaceOptions.borderWidth params) zero)
              === zero)%js eqn:Hstroke.
    + rewrite (@SquircleBackdrop_plain frame params caches Hw Hh Hstroke).
      destruct (buildSquirclePath _ caches). discriminate.
    + rewrite (@SquircleBackdrop_stroked frame params caches Hw Hh Hstroke).
      destruct (clampStrokeWidth params <=? zero)%js;
        destruct (buildSquirclePath _ caches); discriminate.
  - intros Hun. rewrite (@SquircleBackdrop_unmeasured layout params caches Hun).
    reflexivity.
Qed.

(** X6.  A border width that is absent, 0 or negative draws no border.
    The backdrop of a measured frame is then the path of the frame and of
    the radii as given, with inset 0 and stroke 0. *)
Theorem backdrop_without_border (frame : MeasuredFrame.t)
  (params : RoundedSurfaceOptions.t) (caches : Caches) :
  (MeasuredFrame.width frame === zero)%js = false ->
  (MeasuredFrame.height frame === zero)%js = false ->
  (orDefault (RoundedSurfaceOptions.borderWidth params) zero <=? zero)%js
  = true ->
  SquircleBackdrop (Some frame) params caches
  = let (path, caches') :=
      buildSquirclePath
        (SquirclePathInput.mk
           (Some (orDefault (RoundedSurfaceOptions.baseRadius params) zero))
           (RoundedSurfaceOptions.topLeftRadius params)
           (RoundedSurfaceOptions.topRightRadius params)
           (RoundedSurfaceOptions.bottomRightRadius params)
           (RoundedSurfaceOptions.bottomLeftRadius params)
           (RoundedSurfaceOptions.smoothFactor params)
           (MeasuredFrame.width frame) (MeasuredFrame.height frame) None)
        caches in
    (Backdrop.mk (Some path) zero zero, caches').
Proof.
  intros Hw Hh Hborder.
  apply SquircleBackdrop_plain; [exact Hw | exact Hh |].
  destruct (orDefault (RoundedSurfaceOptions.borderWidth params) zero)
    as [b| | |]; cbn [le zero] in Hborder; try discriminate.
  - apply Rleb_true in Hborder. unfold zero.
    rewrite Math_max2_Fin, Rmax_left by lra.
    cbn [strictEq]. apply Reqb_of. reflexivity.
  - cbn [Math_max2 lt zero strictEq]. apply Reqb_of. reflexivity.
Qed.

Lemma backdrop_without_border_witness :
  (MeasuredFrame.width exampleFrame === zero)%js = false
  /\ (MeasuredFrame.height exampleFrame === zero)%js = false
  /\ (orDefault (RoundedSurfaceOptions.borderWidth exampleNegativeBorder) zero
      <=? zero)%js = true
  /\ Backdrop.renderedStrokeWidth
       (fst (SquircleBackdrop (Some exampleFrame) exampleNegativeBorder
               noCaches))
     = zero.
Proof.
  assert (Hw : (MeasuredFrame.width exampleFrame === zero)%js = false)
    by (cbn [MeasuredFrame.width exampleFrame strictEq zero];
        apply Reqb_not; lra).
  assert (Hh : (MeasuredFrame.height exampleFrame === zero)%js = false)
    by (cbn [MeasuredFrame.height exampleFrame strictEq zero];
        apply Reqb_not; lra).
  assert (Hb :
    (orDefault (RoundedSurfaceOptions.borderWidth exampleNegativeBorder) zero
     <=? zero)%js = true)
    by (cbn [RoundedSurfaceOptions.borderWidth exampleNegativeBorder orDefault
             le zero]; apply Rleb_of; lra).
  split; [exact Hw|]. split; [exact Hh|]. split; [exact Hb|].
  rewrite (@backdrop_without_border exampleFrame exampleNegativeBorder noCaches
             Hw Hh Hb).
  destruct (buildSquirclePath _ noCaches). reflexivity.
Defined.

(** X7.  With a border that is not 0 the stroke is always drawn.  The
    clamped stroke width is never at most 0, whatever the numbers are, so
    the fallback to the path without inset is not taken: the backdrop is
    the inset path, with half the clamped stroke width as inset. *)
Theorem backdrop_border_always_inset (frame : MeasuredFrame.t)
  (params : RoundedSurfaceOptions.t) (caches : Caches) :
  (MeasuredFrame.width frame === zero)%js = false ->
  (MeasuredFrame.height frame === zero)%js = false ->
  (Math_max2 zero (orDefault (RoundedSurfaceOptions.borderWidth params) zero)
   === zero)%js = false ->
  (clampStrokeWidth params <=? zero)%js = false
  /\ SquircleBackdrop (Some frame) params caches
     = let (path, caches') :=
         buildSquirclePath
           (insetPathInput frame params (clampStrokeWidth params)) caches in
       (Backdrop.mk (Some path) (clampStrokeWidth params / Fin 2)%js
          (clampStrokeWidth params),
        caches').
Proof.
  intros Hw Hh Hstroke.
  pose proof (clampStrokeWidth_not_le params Hstroke) as Hclamp.
  split; [exact Hclamp|].
  rewrite (@SquircleBackdrop_stroked frame params caches Hw Hh Hstroke).
  rewrite Hclamp. reflexivity.
Qed.

Lemma backdrop_border_always_inset_witness :
  (MeasuredFrame.width exampleFrame === zero)%js = false
  /\ (MeasuredFrame.height exampleFrame === zero)%js = false
  /\ (Math_max2 zero
        (orDefault (RoundedSurfaceOptions.borderWidth exampleOverriddenBase)
           zero)
      === zero)%js = false
  /\ (clampStrokeWidth exampleOverriddenBase <=? zero)%js = false.
Proof.
  assert (Hw : (MeasuredFrame.width exampleFrame === zero)%js = false)
    by (cbn [MeasuredFrame.width exampleFrame strictEq zero];
        apply Reqb_not; lra).
  assert (Hh : (MeasuredFrame.height exampleFrame === zero)%js = false)
    by (cbn [MeasuredFrame.height exampleFrame strictEq zero];
        apply Reqb_not; lra).
  assert (Hstroke :
    (Math_max2 zero
       (orDefault (RoundedSurfaceOptions.borderWidth exampleOverriddenBase)
          zero)
     === zero)%js = false).
  { cbn [RoundedSurfaceOptions.borderWidth exampleOverriddenBase orDefault].
    unfold zero. rewrite Math_max2_Fin, (Rmax_right 0 10) by lra.
    cbn [strictEq]. apply Reqb_not. lra. }
  split; [exact Hw|]. split; [exact Hh|]. split; [exact Hstroke|].
  exact (proj1 (@backdrop_border_always_inset exampleFrame
                  exampleOverriddenBase noCaches Hw Hh Hstroke)).
Defined.

(** ** The solver and the profiles together *)

(** What the solver leaves for a valid input: the radius and the budget of
    every corner. *)
Lemma solved_corners (input : CornerSpreadInput.t) :
  validSpread input ->
  exists (w h : R) (req rho beta : CornerId -> R),
    input = spreadOf w h req
    /\ (0 < w)%R /\ (0 < h)%R
    /\ (forall c,
          PerCorner.get (normalizeCorners input) c
          = CornerProfile.mk (Fin (rho c)) (Fin (beta c)))
    /\ (forall c,
          (0 <= req c)%R /\ (0 <= beta c)%R
          /\ rho c = Rmin (req c) (beta c)
          /\ ((0 < req c)%R -> (0 < beta c)%R))
    /\ (forall c n side,
          sharedEdge c n = Some side ->
          (beta c + beta n <= len w h side)%R).
Proof.
  intros Hvalid.
  destruct (validSpread_spreadOf Hvalid)
    as (w & h & req & -> & Hw & Hh & Hreq).
  destruct (@solver_pass w h req Hw Hh Hreq) as (rho & beta & Hinv & _).
  exists w, h, req, rho, beta.
  split; [reflexivity|]. split; [exact Hw|]. split; [exact Hh|].
  split; [|split].
  - intros c. rewrite normalizeCorners_get.
    rewrite (inv_radius Hinv c), (inv_budget Hinv c). reflexivity.
  - intros c.
    destruct (inv_resolved Hinv c (all_processed w h req c)) as (B & E & P).
    split; [apply Hreq|]. split; [exact B|]. split; [exact E | exact P].
  - intros c n side Hedge.
    exact (inv_disjoint Hinv c n Hedge (all_processed w h req c)
             (all_processed w h req n)).
Qed.

Lemma horizontal_neighbour (w h : R) (c : CornerId) :
  exists n side, sharedEdge c n = Some side /\ len w h side = w.
Proof.
  destruct c;
    [ exists topRight, top | exists topLeft, top
    | exists bottomRight, bottom | exists bottomLeft, bottom ];
    split; reflexivity.
Qed.

Lemma vertical_neighbour (w h : R) (c : CornerId) :
  exists n side, sharedEdge c n = Some side /\ len w h side = h.
Proof.
  destruct c;
    [ exists bottomLeft, left | exists bottomRight, right
    | exists topLeft, left | exists topRight, right ];
    split; reflexivity.
Qed.

(** X8.  What the solver gives a corner.  For a rectangle of positive width
    and height and radii that are not negative, the radius of a corner is
    not negative and not more than the radius asked for, it is within the
    corner's budget, and the budget is within the width and within the
    height. *)
Theorem resolved_radius_bounds (input : CornerSpreadInput.t) (c : CornerId) :
  validSpread input ->
  exists w h req r b : R,
    CornerSpreadInput.width input = Fin w
    /\ CornerSpreadInput.height input = Fin h
    /\ requestedRadius input c = Fin req
    /\ PerCorner.get (normalizeCorners input) c
       = CornerProfile.mk (Fin r) (Fin b)
    /\ (0 <= r <= req)%R
    /\ (r <= b)%R
    /\ (b <= w)%R /\ (b <= h)%R.
Proof.
  intros Hvalid.
  destruct (solved_corners Hvalid)
    as (w & h & req & rho & beta & -> & Hw & Hh & Hget & Hres & Hsum).
  exists w, h, (req c), (rho c), (beta c).
  split; [reflexivity|]. split; [reflexivity|].
  split; [apply requestedRadius_spreadOf|]. split; [apply Hget|].
  destruct (Hres c) as (Hreq & Hbeta & Hrho & Hpos).
  pose proof (Rmin_l (req c) (beta c)). pose proof (Rmin_r (req c) (beta c)).
  assert (Hmin : (0 <= Rmin (req c) (beta c))%R)
    by (apply Rmin_glb; assumption).
  destruct (horizontal_neighbour w h c) as (n1 & s1 & E1 & L1).
  destruct (vertical_neighbour w h c) as (n2 & s2 & E2 & L2).
  pose proof (Hsum c n1 s1 E1) as S1. rewrite L1 in S1.
  pose proof (Hsum c n2 s2 E2) as S2. rewrite L2 in S2.
  destruct (Hres n1) as (_ & B1 & _). destruct (Hres n2) as (_ & B2 & _).
  rewrite Hrho. repeat split; lra.
Qed.

Lemma resolved_radius_bounds_witness :
  validSpread exampleSpread
  /\ exists w h req r b : R,
       CornerSpreadInput.width exampleSpread = Fin w
       /\ CornerSpreadInput.height exampleSpread = Fin h
       /\ requestedRadius exampleSpread topLeft = Fin req
       /\ PerCorner.get (normalizeCorners exampleSpread) topLeft
          = CornerProfile.mk (Fin r) (Fin b)
       /\ (0 <= r <= req)%R
       /\ (r <= b)%R
       /\ (b <= w)%R /\ (b <= h)%R.
Proof.
  split; [exact exampleSpread_valid|].
  exact (@resolved_radius_bounds exampleSpread topLeft exampleSpread_valid).
Defined.

(** X16.  In exact arithmetic a corner asked to be round stays round.
    With the numbers taken as reals, as everywhere here, a rectangle of
    positive width and height and radii that are not negative, a corner
    whose radius asked for is positive gets a positive radius and a
    positive budget.  (In doubles a sum can absorb a small radius: next
    to a radius of 1e17 a radius of 1 is left a budget of 0.) *)
Theorem round_corner_stays_round (input : CornerSpreadInput.t)
  (c : CornerId) (req : R) :
  validSpread input ->
  requestedRadius input c = Fin req ->
  (0 < req)%R ->
  exists r b : R,
    PerCorner.get (normalizeCorners input) c
    = CornerProfile.mk (Fin r) (Fin b)
    /\ (0 < r)%R /\ (0 < b)%R.
Proof.
  intros Hvalid Hreq Hround.
  destruct (solved_corners Hvalid)
    as (w & h & req' & rho & beta & -> & Hw & Hh & Hget & Hres & Hsum).
  rewrite requestedRadius_spreadOf in Hreq. injection Hreq as Hreq.
  exists (rho c), (beta c). split; [apply Hget|].
  destruct (Hres c) as (_ & _ & Hrho & Hpos).
  rewrite Hreq in Hrho, Hpos. specialize (Hpos Hround).
  split; [|exact Hpos]. rewrite Hrho. apply Rmin_glb_lt; assumption.
Qed.

Lemma round_corner_stays_round_witness :
  validSpread exampleSpread
  /\ requestedRadius exampleSpread bottomLeft = Fin 10
  /\ (0 < 10)%R
  /\ exists r b : R,
       PerCorner.get (normalizeCorners exampleSpread) bottomLeft
       = CornerProfile.mk (Fin r) (Fin b)
       /\ (0 < r)%R /\ (0 < b)%R.
Proof.
  assert (H : (0 < 10)%R) by lra.
  split; [exact exampleSpread_valid|]. split; [reflexivity|].
  split; [exact H|].
  exact (@round_corner_stays_round exampleSpread bottomLeft 10
           exampleSpread_valid eq_refl H).
Defined.

Lemma cornerProfile_p_fits (r s b : R) (preserve : bool) :
  exists p : R,
    BezierPatch.p
      (cornerProfile (BezierPatchInput.mk (Fin r) (Fin s) preserve (Fin b)))
    = Fin p
    /\ (p <= b)%R
    /\ (p <= (1 + s) * r)%R.
Proof.
  rewrite cornerProfile_p.
  cbn [BezierPatchInput.cornerRadius BezierPatchInput.cornerSmoothing
       BezierPatchInput.preserveSmoothing
       BezierPatchInput.roundingAndSmoothingBudget].
  cbv zeta. cbn [one add mul gt lt]. rewrite Math_min2_Fin.
  pose proof (Rmin_l ((1 + s) * r) b). pose proof (Rmin_r ((1 + s) * r) b).
  destruct preserve.
  - destruct (Rltb b ((1 + s) * r)) eqn:Hover.
    + eexists. split; [reflexivity|]. lra.
    + apply Rltb_false in Hover. eexists. split; [reflexivity|]. lra.
  - eexists. split; [reflexivity|]. lra.
Qed.

(** X9.  The corners of an edge leave room for the straight part between
    them.  For a rectangle of positive width and height and radii that are
    not negative, the extents [p] of the patches computed for two corners
    of the same edge, from the radii and budgets the solver gives them,
    sum to at most the length of that edge, whatever the smoothing and
    with or without [preserveSmoothing]. *)
Theorem adjacent_extents_fit (input : CornerSpreadInput.t)
  (c1 c2 : CornerId) (side : EdgeOrientation) (smoothing : R)
  (preserveSmoothing : bool) :
  validSpread input ->
  sharedEdge c1 c2 = Some side ->
  let corners := normalizeCorners input in
  let patch (c : CornerId) :=
    cornerProfile
      (BezierPatchInput.mk (CornerProfile.radius (PerCorner.get corners c))
         (Fin smoothing) preserveSmoothing
         (CornerProfile.roundingAndSmoothingBudget
            (PerCorner.get corners c))) in
  (BezierPatch.p (patch c1) + BezierPatch.p (patch c2)
   <=? edgeLength (CornerSpreadInput.width input)
         (CornerSpreadInput.height input) side)%js = true.
Proof.
  intros Hvalid Hedge corners patch. subst corners patch. cbv beta.
  destruct (solved_corners Hvalid)
    as (w & h & req & rho & beta & -> & Hw & Hh & Hget & Hres & Hsum).
  rewrite !Hget.
  cbn [CornerProfile.radius CornerProfile.roundingAndSmoothingBudget].
  destruct (cornerProfile_p_fits (rho c1) smoothing (beta c1)
              preserveSmoothing) as (p1 & -> & F1 & _).
  destruct (cornerProfile_p_fits (rho c2) smoothing (beta c2)
              preserveSmoothing) as (p2 & -> & F2 & _).
  cbn [spreadOf CornerSpreadInput.width CornerSpreadInput.height].
  rewrite edgeLength_Fin. cbn [add le].
  apply Rleb_of. pose proof (Hsum c1 c2 side Hedge). lra.
Qed.

Lemma adjacent_extents_fit_witness :
  validSpread exampleSpread
  /\ sharedEdge topRight bottomRight = Some right
  /\ (BezierPatch.p
        (cornerProfile
           (BezierPatchInput.mk
              (CornerProfile.radius
                 (PerCorner.get (normalizeCorners exampleSpread) topRight))
              (Fin (3 / 5)) false
              (CornerProfile.roundingAndSmoothingBudget
                 (PerCorner.get (normalizeCorners exampleSpread) topRight))))
      + BezierPatch.p
          (cornerProfile
             (BezierPatchInput.mk
                (CornerProfile.radius
                   (PerCorner.get (normalizeCorners exampleSpread)
                      bottomRight))
                (Fin (3 / 5)) false
                (CornerProfile.roundingAndSmoothingBudget
                   (PerCorner.get (normalizeCorners exampleSpread)
                      bottomRight))))
      <=? edgeLength (CornerSpreadInput.width exampleSpread)
            (CornerSpreadInput.height exampleSpread) right)%js = true.
Proof.
  split; [exact exampleSpread_valid|]. split; [reflexivity|].
  exact (@adjacent_extents_fit exampleSpread topRight bottomRight right
           (3 / 5) false exampleSpread_valid eq_refl).
Defined.

(** X10.  The five lengths of a patch add up to its extent.  For finite
    numbers, and a radius that is not 0 unless the smoothing is preserved,
    the patch computed on a miss has
    [a + b + c + d + arcSectionLength = p]. *)
Theorem profile_extent_sum (r s b : R) (preserveSmoothing : bool) :
  preserveSmoothing = true \/ r <> 0%R ->
  let patch :=
    cornerProfile
      (BezierPatchInput.mk (Fin r) (Fin s) preserveSmoothing (Fin b)) in
  (extentOf patch === BezierPatch.p patch)%js = true.
Proof.
  intros Hcase patch. subst patch. destruct preserveSmoothing.
  - destruct (Rlt_dec b ((1 + s) * r)) as [Hover | Hfits].
    + unfold extentOf. unfold_profile. js_arith. patch_fields.
      rewrite !Math_min2_Fin. js_arith.
      rewrite (Rmin_right ((1 + s) * r) b) by lra.
      first [ same | apply Reqb_of; lra ].
    + apply Rnot_lt_le in Hfits.
      unfold extentOf. unfold_profile. js_arith. patch_fields. js_arith.
      first [ same | apply Reqb_of; lra ].
  - destruct Hcase as [Hcase | Hr]; [discriminate|].
    unfold extentOf. unfold_profile. cbn [negb andb].
    rewrite (div_Fin b Hr). js_arith. rewrite !Math_min2_Fin.
    js_arith. patch_fields. js_arith.
    first [ same | apply Reqb_of; lra ].
Qed.

Lemma profile_extent_sum_witness :
  (false = true \/ 10%R <> 0%R)
  /\ (extentOf
        (cornerProfile
           (BezierPatchInput.mk (Fin 10) (Fin (3 / 5)) false (Fin 20)))
      === BezierPatch.p
            (cornerProfile
               (BezierPatchInput.mk (Fin 10) (Fin (3 / 5)) false (Fin 20))))%js
     = true.
Proof.
  assert (H : false = true \/ 10%R <> 0%R) by (right; lra).
  split; [exact H|].
  exact (@profile_extent_sum 10 (3 / 5) 20 false H).
Defined.

(** ** The component of [src/ExpoSquircle.tsx] *)

(** X11.  When the current component has a geometry.  There is none exactly
    when the frame is missing or its width or its height is at most 0, and
    then the caches are not touched.  A geometry has the width and the
    height of the frame and a path that is not empty; its stroke command
    width is twice the border width when that is positive and the border
    width itself otherwise, so twice the border width for every border
    width that is not negative. *)
Theorem geometry_of_frame (frame : option MeasuredFrame.t)
  (params : NormalizedRoundedSurfaceOptions.t) (caches : Caches) :
  let result := computeSquircleGeometry frame params caches in
  let border := NormalizedRoundedSurfaceOptions.borderWidth params in
  (fst result = None
   <-> match frame with
       | None => True
       | Some f =>
           (MeasuredFrame.width f <=? zero)%js = true
           \/ (MeasuredFrame.height f <=? zero)%js = true
       end)
  /\ (fst result = None -> snd result = caches)
  /\ (forall geometry : SquircleGeometry.t,
        fst result = Some geometry ->
        frame
        = Some (MeasuredFrame.mk (SquircleGeometry.width geometry)
                  (SquircleGeometry.height geometry))
        /\ truthyText (SquircleGeometry.path geometry) = true
        /\ SquircleGeometry.strokeCommandWidth geometry
           = (if (border >? zero)%js then (border * Fin 2)%js else border)
        /\ (forall b : R,
              border = Fin b -> (0 <= b)%R ->
              SquircleGeometry.strokeCommandWidth geometry = Fin (2 * b))).
Proof.
  cbv zeta. unfold computeSquircleGeometry.
  destruct frame as [[w h]|];
    cbn [MeasuredFrame.width MeasuredFrame.height].
  - destruct (w <=? zero)%js eqn:Hw; cbn [orb].
    + cbn [ret fst snd]. split; [split; auto|]. split; [reflexivity|].
      intros geometry H. discriminate.
    + destruct (h <=? zero)%js eqn:Hh.
      * cbn [ret fst snd]. split; [split; auto|]. split; [reflexivity|].
        intros geometry H. discriminate.
      * unfold bind, ret.
        destruct (buildSquirclePath _ caches) as [path caches'] eqn:Hrun.
        cbn [fst snd]. split; [|split].
        -- split; [discriminate | intros [H | H]; discriminate].
        -- discriminate.
        -- intros geometry Hg. injection Hg as <-.
           cbn [SquircleGeometry.width SquircleGeometry.height
                SquircleGeometry.path SquircleGeometry.strokeCommandWidth].
           split; [reflexivity|]. split.
           { apply buildSquirclePath_cached in Hrun.
             destruct Hrun as [Hhit _].
             apply cacheHit_truthy in Hhit. apply Hhit. }
           split; [reflexivity|].
           intros b -> Hb. cbn [gt lt zero mul].
           destruct (Rltb 0 b) eqn:Hpos.
           ++ f_equal. lra.
           ++ apply Rltb_false in Hpos. f_equal. lra.
  - cbn [ret fst snd]. split; [split; auto|]. split; [reflexivity|].
    intros geometry H. discriminate.
Qed.

(** X12.  Clip path identifiers.  A render without geometry or without a
    positive stroke command width creates no identifier and leaves the
    counter alone.  A render with a stroke leaves an identifier in the
    ref; the renders after it keep that identifier and the counter.  Two
    components that get their identifiers one after the other get
    different ones. *)
Theorem clip_path_id_once (geometry : SquircleGeometry.t)
  (current : option text) (counter : R) :
  renderClipPathId None current (Fin counter) = (current, Fin counter)
  /\ ((SquircleGeometry.strokeCommandWidth geometry >? zero)%js = false ->
      renderClipPathId (Some geometry) current (Fin counter)
      = (current, Fin counter))
  /\ ((SquircleGeometry.strokeCommandWidth geometry >? zero)%js = true ->
      let (first, counter') :=
        renderClipPathId (Some geometry) None (Fin counter) in
      first = Some [ Lit "expoSquircleClip_"; Plain (Fin (counter + 1)) ]
      /\ counter' = Fin (counter + 1)
      /\ renderClipPathId (Some geometry) first counter' = (first, counter')
      /\ fst (renderClipPathId (Some geometry) None counter') <> first).
Proof.
  split; [reflexivity|]. split.
  - intros Hstroke. unfold renderClipPathId. cbv zeta.
    rewrite Hstroke. reflexivity.
  - intros Hstroke. unfold renderClipPathId, createClipPathId. cbv zeta.
    rewrite Hstroke. cbn [andb add one truthyText existsb nonEmptyPiece orb
                          negb String.eqb fst].
    split; [reflexivity|]. split; [reflexivity|]. split; [reflexivity|].
    intros E. injection E as E. lra.
Qed.

Lemma clip_path_id_once_witness :
  (SquircleGeometry.strokeCommandWidth
     (SquircleGeometry.mk (Fin 100) (Fin 40) [ Lit "M 0 0 Z" ] (Fin 4))
   >? zero)%js = true
  /\ fst (renderClipPathId
            (Some (SquircleGeometry.mk (Fin 100) (Fin 40) [ Lit "M 0 0 Z" ]
                     (Fin 4)))
            None (Fin 0))
     = Some [ Lit "expoSquircleClip_"; Plain (Fin (0 + 1)) ].
Proof.
  assert (H :
    (SquircleGeometry.strokeCommandWidth
       (SquircleGeometry.mk (Fin 100) (Fin 40) [ Lit "M 0 0 Z" ] (Fin 4))
     >? zero)%js = true)
    by (cbn [SquircleGeometry.strokeCommandWidth gt lt zero];
        apply Rltb_of; lra).
  split; [exact H|].
  pose proof (proj2 (proj2 (@clip_path_id_once
                              (SquircleGeometry.mk (Fin 100) (Fin 40)
                                 [ Lit "M 0 0 Z" ] (Fin 4))
                              None 0)) H) as Hrun.
  destruct (renderClipPathId _ None (Fin 0)) as [first counter'].
  cbn [fst]. apply Hrun.
Defined.

(** ** The outline of every path that is built *)

Lemma joinCornerProfiles_outline (input : PathParamsInput.t) :
  outlineParts (commandLetters (joinCornerProfiles input))
  = Some [ Start; CornerTrace; StraightEdge; CornerTrace; StraightEdge;
           CornerTrace; StraightEdge; CornerTrace; ClosePath ].
Proof.
  rewrite joinCornerProfiles_segments. cbv zeta. apply outline_of_segments.
Qed.

(** X13.  Every path the builder builds is a closed outline.  On a miss of
    the path cache the path is either the rectangle (a start, three
    straight edges and the close) or the outline of four corner traces
    with a straight edge after each of the first three and the close
    after the fourth. *)
Theorem built_path_outline (input : SquirclePathInput.t) (caches : Caches) :
  cacheHit (readCachedPath (requestKey input) (PATH_CACHE_MAP caches)) = None ->
  let outline :=
    outlineParts (commandLetters (fst (buildSquirclePath input caches))) in
  outline
  = Some [ Start; StraightEdge; StraightEdge; StraightEdge; ClosePath ]
  \/ outline
     = Some [ Start; CornerTrace; StraightEdge; CornerTrace; StraightEdge;
              CornerTrace; StraightEdge; CornerTrace; ClosePath ].
Proof.
  destruct input as [r tl tr br bl s w h preserve].
  unfold requestKey, effectiveRadius. input_fields.
  intros Hmiss. cbv zeta.
  unfold buildSquirclePath. input_fields.
  unfold bind, readCaches, ret, writePathCache. cbv beta iota zeta.
  rewrite Hmiss.
  match goal with
  | |- context [if ?equal then _ else _] => destruct equal
  end.
  - destruct (orDefault tl (orDefault r zero) === zero)%js.
    + left. reflexivity.
    + destruct (computeCornerProfile _ caches) as [patch c1].
      right. cbn [fst]. apply joinCornerProfiles_outline.
  - destruct (computeCornerProfile _ caches) as [p1 c1].
    destruct (computeCornerProfile _ c1) as [p2 c2].
    destruct (computeCornerProfile _ c2) as [p3 c3].
    destruct (computeCornerProfile _ c3) as [p4 c4].
    right. cbn [fst]. apply joinCornerProfiles_outline.
Qed.

Lemma built_path_outline_witness :
  cacheHit (readCachedPath (requestKey exampleRequest)
              (PATH_CACHE_MAP noCaches))
  = None
  /\ (outlineParts
        (commandLetters (fst (buildSquirclePath exampleRequest noCaches)))
      = Some [ Start; StraightEdge; StraightEdge; StraightEdge; ClosePath ]
      \/ outlineParts
           (commandLetters (fst (buildSquirclePath exampleRequest noCaches)))
         = Some [ Start; CornerTrace; StraightEdge; CornerTrace; StraightEdge;
                  CornerTrace; StraightEdge; CornerTrace; ClosePath ]).
Proof.
  assert (H :
    cacheHit (readCachedPath (requestKey exampleRequest)
                (PATH_CACHE_MAP noCaches))
    = None)
    by (unfold readCachedPath;
        cbn [noCaches PATH_CACHE_MAP JSMap.empty JSMap.get cacheHit];
        same).
  split; [exact H|].
  exact (@built_path_outline exampleRequest noCaches H).
Defined.

(** ** What storing a path leaves of the other paths *)

Section DeleteFacts.
Variable V : Type.
Implicit Types m : JSMap.t V.

Lemma get_delete_other key key' m :
  key' <> key -> JSMap.get key' (JSMap.delete key m) = JSMap.get key' m.
Proof.
  intros Hneq. induction m as [|[k v] rest IH]; [reflexivity|].
  cbn [JSMap.delete JSMap.get].
  destruct (String.eqb_spec k key) as [-> | Hk].
  - destruct (String.eqb_spec key key') as [E | _]; [congruence | reflexivity].
  - cbn [JSMap.get]. rewrite IH. reflexivity.
Qed.

Lemma get_delete_same key m :
  NoDup (JSMap.keys m) -> JSMap.get key (JSMap.delete key m) = None.
Proof.
  induction m as [|[k v] rest IH]; [reflexivity|].
  cbn [JSMap.keys map fst]. intros Hnodup.
  inversion Hnodup as [|? ? Hnotin Hrest]; subst.
  cbn [JSMap.delete].
  destruct (String.eqb_spec k key) as [-> | Hk].
  - apply get_not_key. exact Hnotin.
  - cbn [JSMap.get]. destruct (String.eqb_spec k key) as [E | _];
      [congruence|]. apply IH. exact Hrest.
Qed.

End DeleteFacts.

(** X14.  Storing a path changes no other entry than the one it may
    evict.  After [storeCachedPath key value], every other key that is
    not the evicted one reads as before; the oldest key is evicted, and
    reads as absent afterwards, exactly when the cache holds 160 entries
    or more and [key] is new. *)
Theorem store_keeps_other_paths (key : string) (value : text)
  (cache : JSMap.t text) :
  let cache' := storeCachedPath key value cache in
  let evicting :=
    (PATH_CACHE_LIMIT <=? JSMap.size cache)%nat
    && negb (JSMap.has key cache) in
  (forall other : string,
     other <> key ->
     (evicting = true -> JSMap.firstKey cache <> Some other) ->
     readCachedPath other cache' = readCachedPath other cache)
  /\ (forall oldest : string,
        NoDup (JSMap.keys cache) ->
        evicting = true ->
        JSMap.firstKey cache = Some oldest ->
        readCachedPath oldest cache' = None).
Proof.
  cbv zeta. unfold storeCachedPath, readCachedPath. split.
  - intros other Hneq Hkept. rewrite get_set_other by exact Hneq.
    destruct ((PATH_CACHE_LIMIT <=? JSMap.size cache)%nat
              && negb (JSMap.has key cache)); [|reflexivity].
    destruct (JSMap.firstKey cache) as [oldest|]; [|reflexivity].
    apply get_delete_other. intros ->. apply Hkept; reflexivity.
  - intros oldest Hnodup Hevict Hfirst. rewrite Hevict, Hfirst.
    assert (Hneq : oldest <> key).
    { intros ->. apply andb_prop in Hevict. destruct Hevict as [_ Hnew].
      apply negb_true_iff, has_false_In in Hnew. apply Hnew.
      unfold JSMap.firstKey in Hfirst.
      destruct (JSMap.keys cache) as [|k ks]; [discriminate|].
      injection Hfirst as ->. now left. }
    rewrite get_set_other by exact Hneq.
    apply get_delete_same. exact Hnodup.
Qed.

(** ** The radii of the inset path *)

(** X15.  The inset path rounds every corner by the radius the outer path
    rounds it by, less half the stroke, floored at 0: shrinking the radii
    as given, the base radius among them, and then taking the base radius
    for the corners that give none, is the same as shrinking the radius in
    effect at each corner. *)
Theorem inset_radii_follow_outer (frame : MeasuredFrame.t)
  (params : RoundedSurfaceOptions.t) (clamped : number) (corner : CornerId) :
  effectiveRadius (insetPathInput frame params clamped) corner
  = Math_max2 zero
      (effectiveRadius (basePathInput frame params) corner
       - clamped / Fin 2)%js.
Proof.
  unfold effectiveRadius, insetPathInput, basePathInput. cbv zeta.
  input_fields. unfold shrinkRadius.
  destruct corner;
    [ destruct (RoundedSurfaceOptions.topLeftRadius params)
    | destruct (RoundedSurfaceOptions.topRightRadius params)
    | destruct (RoundedSurfaceOptions.bottomLeftRadius params)
    | destruct (RoundedSurfaceOptions.bottomRightRadius params) ];
    cbn [orDefault]; same.
Qed.
